(** * mripy.timecourse: event-locked epochs over continuous recordings

    A shallow embedding of [mripy/timecourse.py] (the event timeline parser
    [read_events], the baseline policy [create_base_corr_func], the epoch
    extractor [Epochs.__init__] and the collection operations [pick],
    [drop_events], [apply_baseline], [concatinate_epochs], and further
    [Epochs.from_array] and [RawCache.get_epochs]) together with the
    properties stated for them, and of the affine transforms and the
    rounding to a parity of [mripy/math.py].

    Conventions of the embedding.
    - Floating point numbers are exact rationals ([Qc], canonical fractions
      with Leibniz equality); a value that may be not-a-number is an
      [option Qc] with [None] for NaN.
    - A Python exception is a [Raise e] result; code that also writes to a
      shared dictionary runs in the state-and-exception monad [M] over a heap
      of dictionaries, so that aliasing of the [info] attribute is visible.
    - A [dict] is a [gmap]; Python's [==] on dictionaries ignores insertion
      order, and so does [gmap] equality.
    - numpy arrays are nested lists; the 3-D epoch tensor keeps the extent of
      its inner axes next to the rows, because numpy decides every indexing and
      concatenation error on the shape, also for an array without rows.
    - A numpy integer has a fixed width, and arithmetic on it wraps
      around. *)

From Stdlib Require Import QArith Qcanon Qround Lqa Ascii.
From stdpp Require Import gmap strings list fin_maps sorting.

(** ** Python: exceptions, results, strings *)

Module Py.

Inductive exn := IndexError | ValueError | TypeError | ZeroDivisionError.

Inductive result (A : Type) : Type :=
  | Ok (a : A)
  | Raise (e : exn).
Global Arguments Ok {A} a.
Global Arguments Raise {A} e.

Global Instance result_ret : MRet result := @Ok.
Global Instance result_bind : MBind result := λ A B f r,
  match r with Ok a => f a | Raise e => Raise e end.
Global Instance result_fmap : FMap result := λ A B f r,
  match r with Ok a => Ok (f a) | Raise e => Raise e end.

(** [seq[i]] for a non-negative [i]. *)
Definition getitem {A} (l : list A) (i : nat) : result A :=
  match l !! i with Some x => Ok x | None => Raise IndexError end.

(** Code points below 128 for which [str.isspace] holds. *)
Definition isspace (c : ascii) : bool :=
  let n := nat_of_ascii c in
  ((9 <=? n) && (n <=? 13)) || ((28 <=? n) && (n <=? 32)).

Fixpoint lstrip (s : string) : string :=
  match s with
  | EmptyString => EmptyString
  | String c r => if isspace c then lstrip r else s
  end.

Definition strip (s : string) : string :=
  String.rev (lstrip (String.rev (lstrip s))).

(** [s.split(sep)] for a one-character separator: never the empty list. *)
Fixpoint split (sep : ascii) (s : string) : list string :=
  match s with
  | EmptyString => [EmptyString]
  | String c r =>
      if bool_decide (c = sep) then EmptyString :: split sep r
      else match split sep r with
           | tok :: toks => String c tok :: toks
           | [] => [String c EmptyString]
           end
  end.

(** [s.split()]: maximal runs of non-space characters. *)
Fixpoint split_ws_go (cur : option string) (s : string) : list string :=
  match s with
  | EmptyString => option_list (String.rev <$> cur)
  | String c r =>
      if isspace c then option_list (String.rev <$> cur) ++ split_ws_go None r
      else split_ws_go (Some (String c (default EmptyString cur))) r
  end.
Definition split_ws : string → list string := split_ws_go None.

Definition startswith (c : ascii) (s : string) : bool :=
  match s with String c' _ => bool_decide (c' = c) | EmptyString => false end.

(** [sep.join(l)] *)
Fixpoint join (sep : string) (l : list string) : string :=
  match l with
  | [] => EmptyString
  | [s] => s
  | s :: l' => s +:+ sep +:+ join sep l'
  end.

Definition lower_ascii (c : ascii) : ascii :=
  let n := nat_of_ascii c in
  if (65 <=? n) && (n <=? 90) then ascii_of_nat (n + 32) else c.

Fixpoint lower (s : string) : string :=
  match s with
  | EmptyString => EmptyString
  | String c r => String (lower_ascii c) (lower r)
  end.

End Py.
Import Py.

(** ** numpy: ranges, indexing, reductions that ignore NaN *)

Module Np.

(** A float that may be NaN. *)
Abbreviation value := (option Qc).

Definition fsub (a b : value) : value :=
  match a, b with Some x, Some y => Some (x - y)%Qc | _, _ => None end.

(** [np.arange(start, stop, step)] in exact arithmetic:
    [ceil((stop - start) / step)] samples [start + i * step]. *)
Definition arange_len (start stop step : Qc) : nat :=
  Z.to_nat (Qceiling ((stop - start) / step)%Qc).

Definition arange (start stop step : Qc) : result (list Qc) :=
  if bool_decide (step = Q2Qc 0) then Raise ZeroDivisionError
  else Ok (map (λ i : nat, (start + Qc_of_Z (Z.of_nat i) * step)%Qc)
               (seq 0 (arange_len start stop step))).

(** What can stand between the brackets of [a[...]] along one axis. A scalar
    integer, which removes the axis, is not among them; for the feature
    axis of [pick] it is modelled by [pick_feature]. *)
Inductive pyindex :=
  | IxSlice (start stop : option Z)   (* [start:stop], step 1 *)
  | IxMask (m : list bool)            (* boolean array *)
  | IxInts (js : list Z).             (* list or array of integers *)

Definition IxAll : pyindex := IxSlice None None.

(** An integer index against an axis of [n] entries; negative ones count
    from the end. *)
Definition norm_index (n : nat) (j : Z) : result nat :=
  if bool_decide (0 ≤ j < Z.of_nat n)%Z then Ok (Z.to_nat j)
  else if bool_decide (- Z.of_nat n ≤ j < 0)%Z then Ok (Z.to_nat (j + Z.of_nat n))
  else Raise IndexError.

(** A slice bound clipped to the axis, as [slice.indices] does. *)
Definition slice_bound (n dflt : nat) (b : option Z) : nat :=
  match b with
  | None => dflt
  | Some j => if bool_decide (j < 0)%Z then Z.to_nat (j + Z.of_nat n)
              else Nat.min (Z.to_nat j) n
  end.

Fixpoint nonzero_from (i : nat) (m : list bool) : list nat :=
  match m with
  | [] => []
  | b :: m' => if b then i :: nonzero_from (S i) m' else nonzero_from (S i) m'
  end.

(** [np.flatnonzero(m)] *)
Definition flatnonzero (m : list bool) : list nat := nonzero_from 0 m.

(** The positions an index selects on an axis of [n] entries, or the
    [IndexError] numpy raises; it depends on the extent only. *)
Definition resolve (ix : pyindex) (n : nat) : result (list nat) :=
  match ix with
  | IxSlice a b =>
      let lo := slice_bound n 0 a in
      let hi := slice_bound n n b in
      Ok (seq lo (hi - lo))
  | IxMask m => if length m =? n then Ok (flatnonzero m) else Raise IndexError
  | IxInts js => mapM (norm_index n) js
  end.

Definition gather {A} (l : list A) (ps : list nat) : list A :=
  omap (λ i, l !! i) ps.

(** [a[ix]] along the first axis. *)
Definition index_axis0 {A} (ix : pyindex) (l : list A) : result (list A) :=
  ps ← resolve ix (length l); Ok (gather l ps).

(** [a[m]] for a boolean [m] of the right length, written directly. *)
Fixpoint compress {A} (m : list bool) (l : list A) : list A :=
  match m, l with
  | b :: m', x :: l' => if b then x :: compress m' l' else compress m' l'
  | _, _ => []
  end.

Definition qsum (l : list Qc) : Qc := foldr Qcplus (Q2Qc 0) l.

(** [np.nanmean] along one axis: the mean of the entries that are not NaN,
    NaN when there is none. *)
Definition nanmean (x : list value) : value :=
  match omap id x with
  | [] => None
  | v => Some (qsum v / Qc_of_Z (Z.of_nat (length v)))%Qc
  end.

(** [np.delete(a, ids, axis=0)] for a list of integers. *)
Definition delete {A} (l : list A) (ids : list Z) : result (list A) :=
  ps ← mapM (norm_index (length l)) ids;
  Ok (gather l (filter (λ i, i ∉ ps) (seq 0 (length l)))).

(** [np.unique] *)
Definition unique (l : list Z) : list Z := merge_sort Z.le (remove_dups l).

(** Three-dimensional float array: [length items] rows along axis 0, each
    [n_features] rows of [n_times] values. *)
Record array3 := Array3 {
  n_features : nat;
  n_times : nat;
  items : list (list (list value))
}.

(** [a[e][:, f][..., t]] *)
Definition index3 (e f t : pyindex) (a : array3) : result array3 :=
  pe ← resolve e (length (items a));
  pf ← resolve f (n_features a);
  pt ← resolve t (n_times a);
  Ok {| n_features := length pf; n_times := length pt;
        items := map (λ m, map (λ r, gather r pt) (gather m pf)) (gather (items a) pe) |}.

(** [np.concatenate(arrays, axis=0)]: the inner extents must agree. *)
Definition concatenate (l : list array3) : result array3 :=
  match l with
  | [] => Raise ValueError
  | a :: _ =>
      if forallb (λ b, (n_features b =? n_features a) && (n_times b =? n_times a)) l
      then Ok {| n_features := n_features a; n_times := n_times a;
                 items := concat (map items l) |}
      else Raise ValueError
  end.

End Np.
Import Np.

(** ** The heap of [info] dictionaries *)

(** The [baseline] argument: Python's [None], a string, or a pair of bounds
    each of which may be [None]. *)
Inductive baseline_spec :=
  | BaselineNone
  | BaselineStr (s : string)
  | BaselineWin (lo hi : option Qc).

(** Values stored in an [info] dictionary. *)
Inductive pyval :=
  | VNone
  | VNum (q : Qc)
  | VInt (z : Z)
  | VStr (s : string)
  | VStrs (l : list string)
  | VBaseline (b : baseline_spec).

(** An object attribute holding a dictionary holds a reference to it. *)
Abbreviation loc := nat.
Abbreviation heap := (gmap loc (gmap string pyval)).

(** Computations that may raise and may write to the heap; what was written
    before an exception stays written. *)
Definition M (A : Type) : Type := heap → result A * heap.

Definition ret {A} (a : A) : M A := λ h, (Ok a, h).

Definition bind {A B} (m : M A) (k : A → M B) : M B := λ h,
  match m h with
  | (Ok a, h') => k a h'
  | (Raise e, h') => (Raise e, h')
  end.

Definition lift {A} (r : result A) : M A := λ h, (r, h).

Notation "'do' x <- y ; z" := (bind y (λ x, z))
  (at level 20, x name, y at level 100, z at level 200, only parsing).

(** [d[k] = v] for the dictionary at [l]. *)
Definition setitem (l : loc) (k : string) (v : pyval) : M unit := λ h,
  (Ok (), <[l := <[k := v]> (default ∅ (h !! l))]> h).

Fixpoint mapM_M {A B} (f : A → M B) (l : list A) : M (list B) :=
  match l with
  | [] => ret []
  | x :: l' => do y <- f x; do ys <- mapM_M f l'; ret (y :: ys)
  end.

(** [copy.copy(self)]: a new object whose attributes refer to the same
    values as those of [self]. An attribute that holds a reference (the
    [info] dictionary) is therefore shared by both objects; [_copy] re-attaches
    [data] in the same way. *)
Definition _copy {A} (self : A) : A := self.

(** ** Events *)

(** One row of an events array: onset, duration and the integer label that
    the third column stores. *)
Record event := Event { onset : Qc; duration : Qc; label : Z }.

Definition labels (evs : list event) : list Z := map label evs.

Definition onset_le (a b : event) : Prop := (onset a ≤ onset b)%Qc.

Global Instance onset_le_dec : RelDecision onset_le.
Proof. intros a b. unfold onset_le. apply _. Defined.

Module Raw.

Record t := Make {
  data : list (list value);   (* [n_features, n_times] *)
  info : loc;
  times : list Qc
}.

Definition n_features (self : t) : nat := length (data self).

End Raw.

(** ** read_events *)

(** The argument is the dictionary form of [event_files], as the list of
    its items in order, with the text of each file in place of its path:
    opening and reading the files is outside the model, and so is the
    conversion of a plain list of paths into a dictionary. *)

Section read_events.

(** [np.float_] on one token; [None] where it raises [ValueError]. *)
Variable float : string → option Qc.

(** The body of the loop over the lines of one file, on the lists [t] and
    [e] of per-run onsets and labels. *)
Definition read_line (eid rid : nat) (line : string)
    (st : list (list Qc) * list (list Z)) : result (list (list Qc) * list (list Z)) :=
  let line := strip line in
  if bool_decide (line = EmptyString) then Ok st
  else
    let t := if eid =? 0 then st.1 ++ [[]] else st.1 in
    let e := if eid =? 0 then st.2 ++ [[]] else st.2 in
    if negb (startswith "*" line) then
      t_run ← mapM (λ tok, match float tok with Some q => Ok q | None => Raise ValueError end)
                   (split_ws line);
      t_rid ← getitem t rid;
      let t := <[rid := t_rid ++ t_run]> t in
      e_rid ← getitem e rid;
      let e := <[rid := e_rid ++ replicate (length t_run) (Z.of_nat eid + 1)%Z]> e in
      Ok (t, e)
    else Ok (t, e).

(** [for rid, line in enumerate(fi)], from line number [rid] on. *)
Fixpoint read_lines (eid rid : nat) (lines : list string)
    (st : list (list Qc) * list (list Z)) : result (list (list Qc) * list (list Z)) :=
  match lines with
  | [] => Ok st
  | line :: rest => st' ← read_line eid rid line st; read_lines eid (S rid) rest st'
  end.

(** [for eid, (event, event_file) in enumerate(event_files.items())], from
    file number [eid] on; a file is the list of its lines. *)
Fixpoint read_files (eid : nat) (files : list (string * list string))
    (st : list (list Qc) * list (list Z)) (event_id : gmap string Z)
    : result (list (list Qc) * list (list Z) * gmap string Z) :=
  match files with
  | [] => Ok (st, event_id)
  | (event, lines) :: rest =>
      st' ← read_lines eid 0 lines st;
      read_files (S eid) rest st' (<[event := (Z.of_nat eid + 1)%Z]> event_id)
  end.

(** [np.c_[t, zeros, e]] sorted by the first column. [np.argsort] does not
    promise an order among equal onsets; the model keeps them in input
    order. *)
Definition events_run (t : list Qc) (e : list Z) : list event :=
  merge_sort onset_le
             (zip_with (λ x l, Event x (Q2Qc 0) l) t e).

Definition read_events (event_files : list (string * list string))
    : result (list (list event) * gmap string Z) :=
  '(t, e, event_id) ← read_files 0 event_files ([], []) ∅;
  Ok (zip_with events_run t e, event_id).

End read_events.

(** ** create_base_corr_func *)

(** A function on arrays that works along the last axis: given the extent of
    that axis it raises or yields the map applied to every row. *)
Definition base_corr_func := nat → result (list value → list value).

Definition create_base_corr_func (times : list Qc) (baseline : baseline_spec)
    (method : option (list value → value)) : result (option base_corr_func) :=
  let baseline := match baseline with BaselineNone => BaselineStr "none" | b => b end in
  let method := default nanmean method in
  match baseline with
  | BaselineWin lo hi =>
      tmin ← match lo with None => getitem times 0 | Some b => Ok b end;
      tmax ← match hi with
             | None => match last times with Some b => Ok b | None => Raise IndexError end
             | Some b => Ok b
             end;
      let time_sel := map (λ t, bool_decide (tmin ≤ t)%Qc && bool_decide (t ≤ tmax)%Qc) times in
      Ok (Some (λ n,
        if length time_sel =? n
        then Ok (λ x, map (λ v, fsub v (method (compress time_sel x))) x)
        else Raise IndexError))
  | BaselineStr s =>
      if bool_decide (lower s = "none") then Ok (Some (λ _, Ok (λ x, x)))
      else if bool_decide (lower s = "all")
      then Ok (Some (λ _, Ok (λ x, map (λ v, fsub v (nanmean x)) x)))
      else Ok None
  | BaselineNone => Ok None
  end.

(** [base_corr(x)] for rows of [n] values; calling [None] is a
    [TypeError]. *)
Definition call_base_corr (base_corr : option base_corr_func) (n : nat)
    (rows : list (list value)) : result (list (list value)) :=
  match base_corr with
  | None => Raise TypeError
  | Some f => g ← f n; Ok (map g rows)
  end.

(** ** Epochs *)

Module Epochs.

Record t := Make {
  events : list event;          (* [n_events, 3] *)
  event_id : gmap string Z;
  info : loc;
  times : list Qc;
  data : array3                 (* [n_events, n_features, n_times] *)
}.

Definition n_events (self : t) : nat := length (items (data self)).

(** The window arguments of the constructor. *)
Inductive conditions_arg :=
  | CondStr (s : string)
  | CondList (l : list string).

(** [tmin < 0 and tmax > 0]: a negative branch counted down from [-dt] and
    reversed, then a branch counted up from [0]; otherwise one range. *)
Definition epoch_times (tmin tmax dt : Qc) : result (list Qc) :=
  if bool_decide (tmin < Q2Qc 0)%Qc && bool_decide (Q2Qc 0 < tmax)%Qc then
    neg ← arange (- dt)%Qc (tmin - dt / 2)%Qc (- dt)%Qc;
    pos ← arange (Q2Qc 0) (tmax + dt / 2)%Qc dt;
    Ok (rev neg ++ pos)
  else arange tmin (tmax + dt / 2)%Qc dt.

(** [self.data[k] = y] for a slot of [n] columns and a [y] of [n'] columns:
    equal extents, or one column stretched over the slot. *)
Definition setitem_row (n n' : nat) (y : list (list value)) : result (list (list value)) :=
  if n' =? n then Ok y
  else if n' =? 1 then Ok (map (λ r, match r with v :: _ => replicate n v | [] => [] end) y)
  else Raise ValueError.

(** The constructor proper; the early return for [raw is None], which
    [from_array] and [from_dict] use to get an object without attributes, is
    not modelled. *)

Section init.

(** The collaborators of the constructor, outside this repository:
    [scipy.interpolate.interp1d] along the time axis with NaN outside the
    recording, for one feature row; [signal.filtfilt] with a normalised
    Hamming kernel, for one feature row; and the format [f"{id:g}"]. *)
Variable interp1d : list Qc → list value → string → result (Qc → value).
Variable filtfilt_hamming : Z → list value → result (list value).
Variable format_g : Z → string.

Definition _default_event_id (events : list event) : gmap string Z :=
  foldl (λ d id, <[format_g id := id]> d) ∅ (unique (labels events)).

Definition __init__ (raw : Raw.t) (events : list event) (event_id : option (gmap string Z))
    (tmin tmax : Qc) (baseline : baseline_spec) (dt : Qc) (interp : string)
    (hamm : option Z) (conditions : option conditions_arg) : M t :=
  let self_events := events in
  let self_event_id := match event_id with None => _default_event_id events | Some d => d end in
  let self_info := Raw.info raw in
  do sfreq <- lift (if bool_decide (dt = Q2Qc 0) then Raise ZeroDivisionError
                    else Ok (1 / dt)%Qc);
  do _ <- setitem self_info "sfreq" (VNum sfreq);
  do _ <- setitem self_info "tmin" (VNum tmin);
  do _ <- setitem self_info "tmax" (VNum tmax);
  do _ <- setitem self_info "baseline" (VBaseline baseline);
  do _ <- setitem self_info "interp" (VStr interp);
  do _ <- setitem self_info "hamm" (match hamm with None => VNone | Some n => VInt n end);
  let conditions := match conditions with
                    | Some (CondStr s) => Some (split "/" s)
                    | Some (CondList l) => Some l
                    | None => None
                    end in
  do _ <- setitem self_info "conditions"
            (match conditions with None => VNone | Some l => VStrs l end);
  do _ <- setitem self_info "condition" VNone;
  do self_times <- lift (epoch_times tmin tmax dt);
  do x <- lift (match hamm with
                | None => Ok (Raw.data raw)
                | Some n => mapM (filtfilt_hamming n) (Raw.data raw)
                end);
  do f <- lift (mapM (λ row, interp1d (Raw.times raw) row interp) x);
  do base_corr <- lift (create_base_corr_func self_times baseline None);
  do rows <- lift (mapM (λ ev,
      let t := onset ev in
      grid ← arange (t + tmin)%Qc (t + tmax + dt / 2)%Qc dt;
      y ← call_base_corr base_corr (length grid) (map (λ fj, map fj grid) f);
      setitem_row (length self_times) (length grid) y) events);
  ret {| events := self_events; event_id := self_event_id; info := self_info;
         times := self_times;
         data := {| n_features := Raw.n_features raw; n_times := length self_times;
                    items := rows |} |}.

End init.

Definition copy (self : t) : t := _copy self.

(** [np.any(np.vstack(rows), axis=0)] for rows of [n] booleans. *)
Definition any_axis0 (n : nat) (rows : list (list bool)) : list bool :=
  foldr (zip_with orb) (replicate n false) rows.

(** The labels whose name carries every token of [key]. *)
Definition matched_id (self : t) (key : string) : list Z :=
  let key_set := split "/" key in
  (filter (λ p, key_set ⊆ split "/" p.1) (map_to_list (event_id self))).*2.

Definition _partial_match_event (self : t) (keys : list string) : result (list bool) :=
  let matched := map (λ key,
      map (λ ev, bool_decide (label ev ∈ matched_id self key)) (events self)) keys in
  match matched with
  | [] => Raise ValueError
  | _ => Ok (any_axis0 (length (events self)) matched)
  end.

(** The [event] argument of [pick]: one name, a list of names, or an
    index. *)
Inductive event_arg :=
  | EvName (s : string)
  | EvNames (l : list string)
  | EvIx (ix : pyindex).

(** The [time] argument of [pick]: a pair of bounds, or an index. *)
Inductive time_arg :=
  | TimeBounds (lo hi : Qc)
  | TimeIx (ix : pyindex).

(** [utils.iterable(time) and len(time) == 2]: any sequence of two entries
    is read as a pair of bounds, a boolean counting as 0 or 1. *)
Definition time_bounds (time : time_arg) : option (Qc * Qc) :=
  let b2q (b : bool) := if b then Q2Qc 1 else Q2Qc 0 in
  match time with
  | TimeBounds lo hi => Some (lo, hi)
  | TimeIx (IxInts [a; b]) => Some (Qc_of_Z a, Qc_of_Z b)
  | TimeIx (IxMask [a; b]) => Some (b2q a, b2q b)
  | TimeIx _ => None
  end.

Definition pick (self : t) (event : option event_arg) (feature : option pyindex)
    (time : option time_arg) : M t :=
  let inst := copy self in
  (* Select event *)
  do sel_event <-
    match event with
    | None => ret IxAll
    | Some (EvName s) =>
        do m <- lift (_partial_match_event self [s]);
        do _ <- setitem (info self) "condition" (VStr s);
        ret (IxMask m)
    | Some (EvNames []) => lift (Raise IndexError)
    | Some (EvNames l) =>
        do m <- lift (_partial_match_event self l);
        do _ <- setitem (info self) "condition" (VStr (join " | " l));
        ret (IxMask m)
    | Some (EvIx (IxMask [])) | Some (EvIx (IxInts [])) => lift (Raise IndexError)
    | Some (EvIx ix) => ret ix
    end;
  do inst_events <- lift (index_axis0 sel_event (events inst));
  let inst_event_id := filter (λ p, p.2 ∈ labels inst_events) (event_id inst) in
  (* Select feature *)
  let sel_feature := match feature with None => IxAll | Some ix => ix end in
  (* Select time *)
  let sel_time :=
    match time with
    | None => IxAll
    | Some ta =>
        match time_bounds ta, ta with
        | Some (lo, hi), _ =>
            IxMask (map (λ x, bool_decide (lo ≤ x)%Qc && bool_decide (x ≤ hi)%Qc) (times self))
        | None, TimeIx ix => ix
        | None, TimeBounds _ _ => IxAll
        end
    end in
  do inst_times <- lift (index_axis0 sel_time (times inst));
  do t0 <- lift (getitem inst_times 0);
  do _ <- setitem (info inst) "tmin" (VNum t0);
  do t1 <- lift (match last inst_times with Some x => Ok x | None => Raise IndexError end);
  do _ <- setitem (info inst) "tmax" (VNum t1);
  (* Make 3D selection *)
  do inst_data <- lift (index3 sel_event sel_feature sel_time (data inst));
  ret {| events := inst_events; event_id := inst_event_id; info := info inst;
         times := inst_times; data := inst_data |}.

Definition drop_events (self : t) (ids : list Z) : result t :=
  let inst := copy self in
  inst_data ← Np.delete (items (data inst)) ids;
  inst_events ← Np.delete (events inst) ids;
  let inst_event_id := filter (λ p, p.2 ∈ labels inst_events) (event_id inst) in
  Ok {| events := inst_events; event_id := inst_event_id; info := info inst;
        times := times inst;
        data := {| n_features := n_features (data inst); n_times := n_times (data inst);
                   items := inst_data |} |}.

Definition apply_baseline (self : t) (baseline : baseline_spec) : M t :=
  do base_corr <- lift (create_base_corr_func (times self) baseline None);
  let inst := copy self in
  do g <- lift (match base_corr with
                | None => Raise TypeError
                | Some f => f (n_times (data inst))
                end);
  let inst_data := {| n_features := n_features (data inst); n_times := n_times (data inst);
                      items := map (map g) (items (data inst)) |} in
  do _ <- setitem (info inst) "baseline" (VBaseline baseline);
  ret {| events := events inst; event_id := event_id inst; info := info inst;
         times := times inst; data := inst_data |}.

End Epochs.

Definition concatinate_epochs (epochs_list : list Epochs.t) : result Epochs.t :=
  first ← getitem epochs_list 0;
  let epochs := Epochs.copy first in
  epochs_data ← concatenate (map Epochs.data epochs_list);
  let epochs_events := concat (map Epochs.events epochs_list) in
  let epochs_event_id := foldl (λ d e, Epochs.event_id e ∪ d) ∅ epochs_list in
  Ok {| Epochs.events := epochs_events; Epochs.event_id := epochs_event_id;
        Epochs.info := Epochs.info epochs; Epochs.times := Epochs.times epochs;
        Epochs.data := epochs_data |}.

(** ** Collaborators and data of the worked examples *)

Module Sample.

(** Piecewise linear interpolation over the knots [xs], NaN outside them:
    what [interp1d(kind='linear', bounds_error=False, fill_value=nan)]
    evaluates to in exact arithmetic. *)
Fixpoint linear (xs : list Qc) (ys : list value) (x : Qc) : value :=
  match xs, ys with
  | x0 :: xs', y0 :: ys' =>
      match xs', ys' with
      | x1 :: _, y1 :: _ =>
          if bool_decide (x0 ≤ x)%Qc && bool_decide (x ≤ x1)%Qc
          then match y0, y1 with
               | Some a, Some b => Some (a + (b - a) * ((x - x0) / (x1 - x0)))%Qc
               | _, _ => None
               end
          else linear xs' ys' x
      | _, _ => None
      end
  | _, _ => None
  end.

Definition interp1d (xs : list Qc) (ys : list value) (kind : string) : result (Qc → value) :=
  if length xs =? length ys then Ok (linear xs ys) else Raise ValueError.

(** No smoothing is used in the examples. *)
Definition filtfilt_hamming (n : Z) (row : list value) : result (list value) := Ok row.

(** The examples always pass an explicit [event_id]. *)
Definition format_g (id : Z) : string := EmptyString.

(** Tokens of the examples are unsigned decimal integers. *)
Fixpoint digits (acc : Z) (s : string) : option Z :=
  match s with
  | EmptyString => Some acc
  | String c r =>
      match Ascii.is_nat c with
      | Some d => digits (10 * acc + Z.of_nat d) r
      | None => None
      end
  end.

Definition z (n : Z) : Qc := Q2Qc (inject_Z n).
Definition frac (n : Z) (d : positive) : Qc := Q2Qc (n # d).

Definition float (tok : string) : option Qc :=
  match tok with
  | EmptyString => None
  | _ => z <$> digits 0 tok
  end.

(** A recording of one feature whose value at second [i] is [i], ten
    samples one second apart. *)
Definition ramp : Raw.t :=
  {| Raw.data := [map (λ i : nat, Some (z (Z.of_nat i))) (seq 0 10)];
     Raw.info := 0;
     Raw.times := map (λ i : nat, z (Z.of_nat i)) (seq 0 10) |}.

Definition ramp_info : gmap string pyval :=
  {[ "sfreq" := VNum (z 1); "feature_name" := VStr "voxel"; "value_name" := VStr "value" ]}.

Definition heap0 : gmap nat (gmap string pyval) := {[ 0 := ramp_info ]}.

Definition cond_xy : gmap string Z := {[ "Cond/X" := 1%Z; "Cond/Y" := 2%Z ]}.

Definition construct (raw : Raw.t) (events : list event) (tmin tmax dt : Qc)
    : M Epochs.t :=
  Epochs.__init__ interp1d filtfilt_hamming format_g raw events (Some cond_xy)
    tmin tmax (BaselineStr "none") dt "linear" None None.

(** A collection of two events, one feature and the grid [-1, 0, 1], with
    the [info] dictionary a constructor would have left for it. *)
Definition epochs0 : Epochs.t :=
  {| Epochs.events := [Event (z 5) (z 0) 1; Event (z 8) (z 0) 2];
     Epochs.event_id := cond_xy; Epochs.info := 0;
     Epochs.times := map z [-1; 0; 1]%Z;
     Epochs.data := {| n_features := 1; n_times := 3;
                       items := [[[Some (z 1); Some (z 2); Some (z 6)]];
                                 [[Some (z 4); None; Some (z 8)]]] |} |}.

Definition epochs0_info : gmap string pyval :=
  {[ "sfreq" := VNum (z 1); "feature_name" := VStr "voxel"; "value_name" := VStr "value";
     "tmin" := VNum (z (-1)); "tmax" := VNum (z 1); "condition" := VNone ]}.

Definition heap1 : gmap nat (gmap string pyval) := {[ 0 := epochs0_info ]}.

(** Timing files: condition A describes two runs; B1 describes one run, B3
    has an onset on a third line. *)
Definition file_a : list string := ["1 2" +:+ String "010" ""; "3" +:+ String "010" ""].
Definition file_b1 : list string := ["4" +:+ String "010" ""].
Definition file_b3 : list string :=
  ["*" +:+ String "010" ""; "*" +:+ String "010" ""; "7" +:+ String "010" ""].

(** A second run of the same dataset, and the heap of both runs. *)
Definition run_b : Epochs.t :=
  {| Epochs.events := [Event (z 7) (z 0) 1]; Epochs.event_id := cond_xy;
     Epochs.info := 1; Epochs.times := map z [-1; 0; 1]%Z;
     Epochs.data := {| n_features := 1; n_times := 3;
                       items := [[[Some (z 0); Some (z 1); Some (z 2)]]] |} |}.

Definition heap2 : gmap nat (gmap string pyval) :=
  {[ 0 := epochs0_info; 1 := epochs0_info ]}.

(** What selecting ["Cond/X"] in [epochs0] returns. *)
Definition epochs0_x : Epochs.t :=
  {| Epochs.events := [Event (z 5) (z 0) 1]; Epochs.event_id := {[ "Cond/X" := 1%Z ]};
     Epochs.info := 0; Epochs.times := map z [-1; 0; 1]%Z;
     Epochs.data := {| n_features := 1; n_times := 3;
                       items := [[[Some (z 1); Some (z 2); Some (z 6)]]] |} |}.

(** What concatenating [run_a1] and [run_a2] returns. *)
Definition run_a12 : Epochs.t :=
  {| Epochs.events := [Event (z 5) (z 0) 1; Event (z 7) (z 0) 2];
     Epochs.event_id := {[ "A" := 2%Z ]};
     Epochs.info := 0; Epochs.times := [z 0];
     Epochs.data := {| n_features := 1; n_times := 1;
                       items := [[[Some (z 1)]]; [[Some (z 3)]]] |} |}.

(** Two one-event runs that use the name ["A"] for different labels. *)
Definition run_a1 : Epochs.t :=
  {| Epochs.events := [Event (z 5) (z 0) 1]; Epochs.event_id := {[ "A" := 1%Z ]};
     Epochs.info := 0; Epochs.times := [z 0];
     Epochs.data := {| n_features := 1; n_times := 1; items := [[[Some (z 1)]]] |} |}.

Definition run_a2 : Epochs.t :=
  {| Epochs.events := [Event (z 7) (z 0) 2]; Epochs.event_id := {[ "A" := 2%Z ]};
     Epochs.info := 1; Epochs.times := [z 0];
     Epochs.data := {| n_features := 1; n_times := 1; items := [[[Some (z 3)]]] |} |}.

End Sample.

(** ** Definitions used in the statements *)

(** The heap after the constructor has stored its arguments. *)
Definition info_written (raw : Raw.t) (tmin tmax : Qc) (baseline : baseline_spec)
    (dt : Qc) (interp : string) (hamm : option Z)
    (conditions : option Epochs.conditions_arg) (d : gmap string pyval)
    : gmap string pyval :=
  <["condition" := VNone]>
  (<["conditions" := match conditions with
                     | Some (Epochs.CondStr s) => VStrs (split "/" s)
                     | Some (Epochs.CondList l) => VStrs l
                     | None => VNone
                     end]>
  (<["hamm" := match hamm with None => VNone | Some n => VInt n end]>
  (<["interp" := VStr interp]>
  (<["baseline" := VBaseline baseline]>
  (<["tmax" := VNum tmax]>
  (<["tmin" := VNum tmin]>
  (<["sfreq" := VNum (1 / dt)]> d))))))).


(** The index [pick] uses along the event axis. *)
Definition sel_event_of (self : Epochs.t) (event : option Epochs.event_arg) : result pyindex :=
  match event with
  | None => Ok IxAll
  | Some (Epochs.EvName s) => IxMask <$> Epochs._partial_match_event self [s]
  | Some (Epochs.EvNames []) => Raise IndexError
  | Some (Epochs.EvNames l) => IxMask <$> Epochs._partial_match_event self l
  | Some (Epochs.EvIx (IxMask [])) | Some (Epochs.EvIx (IxInts [])) => Raise IndexError
  | Some (Epochs.EvIx ix) => Ok ix
  end.

(** The index [pick] uses along the time axis. *)
Definition sel_time_of (times : list Qc) (time : option Epochs.time_arg) : pyindex :=
  match time with
  | None => IxAll
  | Some ta =>
      match Epochs.time_bounds ta, ta with
      | Some (lo, hi), _ =>
          IxMask (map (λ x, bool_decide (lo ≤ x)%Qc && bool_decide (x ≤ hi)%Qc) times)
      | None, Epochs.TimeIx ix => ix
      | None, Epochs.TimeBounds _ _ => IxAll
      end
  end.

(** What [pick] returns, apart from what it writes to [info]. *)
Definition pick_result (self : Epochs.t) (event : option Epochs.event_arg)
    (feature : option pyindex) (time : option Epochs.time_arg) : result Epochs.t :=
  sel_event ← sel_event_of self event;
  inst_events ← index_axis0 sel_event (Epochs.events self);
  let sel_feature := match feature with None => IxAll | Some ix => ix end in
  let sel_time := sel_time_of (Epochs.times self) time in
  inst_times ← index_axis0 sel_time (Epochs.times self);
  _ ← getitem inst_times 0;
  _ ← match last inst_times with Some x => Ok x | None => Raise IndexError end;
  inst_data ← index3 sel_event sel_feature sel_time (Epochs.data self);
  Ok {| Epochs.events := inst_events;
        Epochs.event_id := filter (λ p, p.2 ∈ labels inst_events) (Epochs.event_id self);
        Epochs.info := Epochs.info self; Epochs.times := inst_times;
        Epochs.data := inst_data |}.

(** The mask of [_partial_match_event]: one flag per event, set when some
    query name matches the event's label. *)
Definition name_mask (self : Epochs.t) (keys : list string) : list bool :=
  map (λ ev, existsb (λ key, bool_decide (label ev ∈ Epochs.matched_id self key)) keys)
      (Epochs.events self).

(** The names a label query carries. *)
Definition query_names (q : Epochs.event_arg) : option (list string) :=
  match q with
  | Epochs.EvName s => Some [s]
  | Epochs.EvNames l => Some l
  | Epochs.EvIx _ => None
  end.

(** The wording of the selection rule: some query name has all its tokens
    among those of a name that the dictionary maps to the label of the
    event. *)
Definition selected_by (d : gmap string Z) (keys : list string) (ev : event) : Prop :=
  ∃ key name, key ∈ keys ∧ d !! name = Some (label ev)
              ∧ split "/" key ⊆ split "/" name.

(** The two invariants of a collection: as many tensor rows as event rows,
    and a dictionary entry for every label of the events array. *)
Definition rows_agree (e : Epochs.t) : Prop :=
  length (Epochs.events e) = length (items (Epochs.data e)).

Definition labels_known (e : Epochs.t) : Prop :=
  ∀ id, id ∈ labels (Epochs.events e) → ∃ name, Epochs.event_id e !! name = Some id.

(** No name stands for two labels across the collections. *)
Definition dicts_agree (l : list Epochs.t) : Prop :=
  ∀ e1 e2 name id1 id2, e1 ∈ l → e2 ∈ l →
    Epochs.event_id e1 !! name = Some id1 → Epochs.event_id e2 !! name = Some id2 →
    id1 = id2.

(** The parts of a collection that a comparison of selections looks at. *)
Definition view (e : Epochs.t) : array3 * list event * gmap string Z :=
  (Epochs.data e, Epochs.events e, Epochs.event_id e).

(** The operations on collections: [c] is what one of them returned for
    the collections [l] it was given. *)
Inductive produced_by : list Epochs.t → Epochs.t → Prop :=
  | by_pick e event feature time (h : heap) c :
      (Epochs.pick e event feature time h).1 = Ok c → produced_by [e] c
  | by_drop_events e ids c :
      Epochs.drop_events e ids = Ok c → produced_by [e] c
  | by_concatenation l c :
      concatinate_epochs l = Ok c → produced_by l c.

(** A selection along the event axis that is absent or by label name. *)
Definition by_label (event : option Epochs.event_arg) : Prop :=
  match event with Some (Epochs.EvIx _) => False | _ => True end.

(** The flag a selection by label gives an event under the dictionary [d]:
    [None] for an index, and the [IndexError] of an empty list of names. *)
Definition event_flag (d : gmap string Z) (query : option Epochs.event_arg)
    : option (result (event → bool)) :=
  let flag keys ev :=
    existsb (λ key, bool_decide (label ev ∈
      (filter (λ p, split "/" key ⊆ split "/" p.1) (map_to_list d)).*2)) keys in
  match query with
  | None => Some (Ok (λ _, true))
  | Some (Epochs.EvName s) => Some (Ok (flag [s]))
  | Some (Epochs.EvNames []) => Some (Raise IndexError)
  | Some (Epochs.EvNames l) => Some (Ok (flag l))
  | Some (Epochs.EvIx _) => None
  end.

(** The part of a selection that depends on the grid and on the inner
    extents only: selected times, feature positions, time positions. *)
Definition selection_frame (ts : list Qc) (nf nt : nat) (feature : option pyindex)
    (time : option Epochs.time_arg) : result (list Qc * list nat * list nat) :=
  ts' ← index_axis0 (sel_time_of ts time) ts;
  _ ← getitem ts' 0;
  _ ← match last ts' with Some x => Ok x | None => Raise IndexError end;
  pf ← resolve (match feature with None => IxAll | Some ix => ix end) nf;
  pt ← resolve (sel_time_of ts time) nt;
  Ok (ts', pf, pt).

(** The collection of the flagged events of [e], cut to the frame. *)
Definition select_rows (flag : event → bool) (frame : list Qc * list nat * list nat)
    (e : Epochs.t) : Epochs.t :=
  let '(ts', pf, pt) := frame in
  let m := map flag (Epochs.events e) in
  {| Epochs.events := compress m (Epochs.events e);
     Epochs.event_id :=
       filter (λ p, p.2 ∈ labels (compress m (Epochs.events e))) (Epochs.event_id e);
     Epochs.info := Epochs.info e; Epochs.times := ts';
     Epochs.data := {| n_features := length pf; n_times := length pt;
                       items := map (λ mm, map (λ r, gather r pt) (gather mm pf))
                                    (compress m (items (Epochs.data e))) |} |}.

(** Per-run collections of one dataset: one dictionary, one grid, the same
    inner extents, and as many tensor rows as events in each. *)
Definition same_dataset (d : gmap string Z) (ts : list Qc) (nf nt : nat)
    (e : Epochs.t) : Prop :=
  Epochs.event_id e = d ∧ Epochs.times e = ts
  ∧ n_features (Epochs.data e) = nf ∧ n_times (Epochs.data e) = nt
  ∧ rows_agree e.

(** The number of runs a timing file describes: its non-blank lines. *)
Definition run_count (lines : list string) : nat :=
  length (filter (λ line, strip line ≠ EmptyString) lines).

(** A line that carries onsets: not blank and not a ['*'] marker. *)
Definition onset_line (line : string) : Prop :=
  strip line ≠ EmptyString ∧ startswith "*" (strip line) = false.

(** ** math.py: affine transforms and rounding to a parity *)

(** A 3-by-4 affine matrix is kept as its two blocks, [mat[:,:3]] and
    [mat[:,3]], a 3-by-3 matrix by rows and a vector; the functions below
    read no other part of it. Entries are exact rationals. *)

Module Math.

Record vec3 := V3 { v0 : Qc; v1 : Qc; v2 : Qc }.
Record mat3 := M3 { r0 : vec3; r1 : vec3; r2 : vec3 }.
Record affine := Affine { M : mat3; v : vec3 }.

Definition dot (a b : vec3) : Qc := (v0 a * v0 b + v1 a * v1 b + v2 a * v2 b)%Qc.

Definition column (j : vec3 → Qc) (A : mat3) : vec3 := V3 (j (r0 A)) (j (r1 A)) (j (r2 A)).

(** [A @ u] and [A @ B] *)
Definition matvec (A : mat3) (u : vec3) : vec3 :=
  V3 (dot (r0 A) u) (dot (r1 A) u) (dot (r2 A) u).

Definition matmul (A B : mat3) : mat3 :=
  let row a := V3 (dot a (column v0 B)) (dot a (column v1 B)) (dot a (column v2 B)) in
  M3 (row (r0 A)) (row (r1 A)) (row (r2 A)).

Definition vadd (a b : vec3) : vec3 := V3 (v0 a + v0 b)%Qc (v1 a + v1 b)%Qc (v2 a + v2 b)%Qc.
Definition vopp (a : vec3) : vec3 := V3 (- v0 a)%Qc (- v1 a)%Qc (- v2 a)%Qc.

(** [np.linalg.inv] in exact arithmetic: the adjugate over the determinant,
    [None] for [LinAlgError] on a singular matrix. *)
Definition det (A : mat3) : Qc :=
  let '(M3 (V3 a b c) (V3 d e f) (V3 g h i)) := A in
  (a * (e * i - f * h) - b * (d * i - f * g) + c * (d * h - e * g))%Qc.

Definition inv (A : mat3) : option mat3 :=
  let '(M3 (V3 a b c) (V3 d e f) (V3 g h i)) := A in
  let D := det A in
  if bool_decide (D = Q2Qc 0) then None
  else Some (M3 (V3 ((e * i - f * h) / D) ((c * h - b * i) / D) ((b * f - c * e) / D))
                (V3 ((f * g - d * i) / D) ((a * i - c * g) / D) ((c * d - a * f) / D))
                (V3 ((d * h - e * g) / D) ((b * g - a * h) / D) ((a * e - b * d) / D)))%Qc.

Definition invert_affine (mat : affine) : option affine :=
  inv ← inv (M mat); Some (Affine inv (vopp (matvec inv (v mat)))).

Definition concat_affine (mat2 mat1 : affine) : affine :=
  Affine (matmul (M mat2) (M mat1)) (vadd (matvec (M mat2) (v mat1)) (v mat2)).

(** [xyz] is a 3-by-N array: three rows of [N] coordinates each. Row [i]
    of [mat[:,:3] @ xyz + mat[:,3:4]] combines the rows of [xyz] entry by
    entry and adds entry [i] of the last column to each. *)
Definition affine_row (a : vec3) (c : Qc) (x y z : list Qc) : list Qc :=
  zip_with (λ p q, (v0 a * p + v1 a * q.1 + v2 a * q.2 + c)%Qc) x (zip y z).

Definition apply_affine (mat : affine) (xyz : list Qc * list Qc * list Qc)
    : list Qc * list Qc * list Qc :=
  let '(x, y, z) := xyz in
  (affine_row (r0 (M mat)) (v0 (v mat)) x y z,
   affine_row (r1 (M mat)) (v1 (v mat)) x y z,
   affine_row (r2 (M mat)) (v2 (v mat)) x y z).

Definition LPI2RAI : affine :=
  Affine (M3 (V3 (- Q2Qc 1)%Qc (Q2Qc 0) (Q2Qc 0))
             (V3 (Q2Qc 0) (- Q2Qc 1)%Qc (Q2Qc 0))
             (V3 (Q2Qc 0) (Q2Qc 0) (Q2Qc 1)))
         (V3 (Q2Qc 0) (Q2Qc 0) (Q2Qc 0)).

Definition LPI2RAI_affine (mat : affine) : affine :=
  concat_affine LPI2RAI (concat_affine mat LPI2RAI).

Definition RAI2LPI_affine : affine → affine := LPI2RAI_affine.

(** The affine matrix of the identity. *)
Definition identity : affine :=
  Affine (M3 (V3 (Q2Qc 1) (Q2Qc 0) (Q2Qc 0))
             (V3 (Q2Qc 0) (Q2Qc 1) (Q2Qc 0))
             (V3 (Q2Qc 0) (Q2Qc 0) (Q2Qc 1)))
         (V3 (Q2Qc 0) (Q2Qc 0) (Q2Qc 0)).

(** [nearest]. [np.int_] is a C [long] of [bits] bits (64, or 32 where the
    platform has it so): it drops the fraction of a float that fits, and
    what the conversion gives for a float out of range is left to the
    platform, [cast] here. Arithmetic on the result wraps around. *)
Definition wrap (bits : Z) (n : Z) : Z :=
  ((n + 2 ^ (bits - 1)) mod 2 ^ bits - 2 ^ (bits - 1))%Z.

Definition int_ (bits : Z) (cast : Qc → Z) (q : Qc) : Z :=
  let n := Z.quot (Qnum q) (Zpos (Qden q)) in
  if bool_decide (- 2 ^ (bits - 1) ≤ n < 2 ^ (bits - 1))%Z then n
  else wrap bits (cast q).

(** [np.round] takes a float to the nearest whole number, a half to the
    even one. *)

Definition round (q : Qc) : Qc :=
  let f := Qfloor q in
  let r := (q - Qc_of_Z f)%Qc in
  if bool_decide (r < 1 / 2)%Qc then Qc_of_Z f
  else if bool_decide (1 / 2 < r)%Qc then Qc_of_Z (f + 1)
  else if Z.even f then Qc_of_Z f else Qc_of_Z (f + 1).

(** The defaults are [parity='odd'] and [round=np.round]; any other
    [parity] falls through both tests, and the function returns [None]. *)
Definition nearest (bits : Z) (cast : Qc → Z) (x : Qc) (parity : string)
    (round : Qc → Qc) : option Z :=
  if bool_decide (parity = "even")
  then Some (wrap bits (int_ bits cast (round (x / 2)%Qc) * 2))
  else if bool_decide (parity = "odd")
  then Some (wrap bits (wrap bits (int_ bits cast (round ((x + 1) / 2)%Qc) * 2) - 1))
  else None.

End Math.

(** ** Assertions, and the constructors that use them *)

(** [assert] adds [AssertionError] to the exceptions of [Py.exn]; the
    monad [MA] is [M] with that one more way to fail. *)
Inductive failure := Builtin (e : exn) | AssertionError.

Inductive outcome (A : Type) : Type :=
  | Returned (a : A)
  | Failed (f : failure).
Global Arguments Returned {A} a.
Global Arguments Failed {A} f.

Definition MA (A : Type) : Type := heap → outcome A * heap.

Definition retA {A} (a : A) : MA A := λ h, (Returned a, h).

Definition bindA {A B} (m : MA A) (k : A → MA B) : MA B := λ h,
  match m h with
  | (Returned a, h') => k a h'
  | (Failed f, h') => (Failed f, h')
  end.

Definition of_M {A} (m : M A) : MA A := λ h,
  match m h with
  | (Ok a, h') => (Returned a, h')
  | (Raise e, h') => (Failed (Builtin e), h')
  end.

Definition assert_ (b : bool) : MA unit := λ h,
  (if b then Returned () else Failed AssertionError, h).

Notation "'doA' x <- y ; z" := (bindA y (λ x, z))
  (at level 20, x name, y at level 100, z at level 200, only parsing).

(** [{}]: a new dictionary, at a location the heap does not use yet. *)
Definition new_dict : M loc := λ h,
  let l := fresh (dom h) in (Ok l, <[l := ∅]> h).

(** [Epochs.from_array]. The tensor comes as a 3-D array, so that the
    assertion on [ndim] holds by its type; [conditions] is stored as it is
    given, a string is not split here. *)

Section from_array.

Variable format_g : Z → string.

Definition from_array (data : array3) (TR tmin : option Qc) (baseline : baseline_spec)
    (events : option (list event)) (event_id : option (gmap string Z))
    (conditions : option Epochs.conditions_arg) : MA Epochs.t :=
  doA self_info <- of_M new_dict;
  doA sfreq <- of_M (lift (match TR with
                          | None => Ok (Q2Qc 1)
                          | Some tr => if bool_decide (tr = Q2Qc 0) then Raise ZeroDivisionError
                                       else Ok (1 / tr)%Qc
                          end));
  doA _ <- of_M (setitem self_info "sfreq"
                  (match TR with None => VInt 1 | Some _ => VNum sfreq end));
  doA _ <- of_M (setitem self_info "feature_name" (VStr "voxel"));
  doA _ <- of_M (setitem self_info "value_name" (VStr "value"));
  doA _ <- of_M (setitem self_info "tmin"
                  (match tmin with None => VInt 0 | Some t => VNum t end));
  let self_times := map (λ i : nat, (default (Q2Qc 0) tmin + Qc_of_Z (Z.of_nat i) / sfreq)%Qc)
                        (seq 0 (n_times data)) in
  doA tmax <- of_M (lift (match last self_times with
                         | Some x => Ok x
                         | None => Raise IndexError
                         end));
  doA _ <- of_M (setitem self_info "tmax" (VNum tmax));
  doA _ <- of_M (setitem self_info "baseline" (VBaseline baseline));
  doA _ <- of_M (setitem self_info "interp" VNone);
  doA _ <- of_M (setitem self_info "hamm" VNone);
  doA _ <- of_M (setitem self_info "conditions"
                  (match conditions with
                   | None => VNone
                   | Some (Epochs.CondStr s) => VStr s
                   | Some (Epochs.CondList l) => VStrs l
                   end));
  doA _ <- of_M (setitem self_info "condition" VNone);
  doA self_events <-
    match events with
    | Some evs => doA _ <- assert_ (length (items data) =? length evs); retA evs
    | None => retA (replicate (length (items data)) (Event (Q2Qc 0) (Q2Qc 0) 0))
    end;
  doA self_event_id <-
    match event_id with
    | None => retA (match events with
                    | None => {[ "Event" := 0%Z ]}
                    | Some _ => Epochs._default_event_id format_g self_events
                    end)
    | Some d =>
        doA _ <- assert_ (forallb (λ ev, bool_decide (label ev ∈ (map_to_list d).*2))
                                  self_events);
        retA d
    end;
  doA base_corr <- of_M (lift (create_base_corr_func self_times baseline None));
  doA g <- of_M (lift (match base_corr with
                      | None => Raise TypeError
                      | Some f => f (n_times data)
                      end));
  retA {| Epochs.events := self_events; Epochs.event_id := self_event_id;
          Epochs.info := self_info; Epochs.times := self_times;
          Epochs.data := {| n_features := n_features data; n_times := n_times data;
                            items := map (map g) (items data) |} |}.

End from_array.

(** ** RawCache *)

Module RawCache.

(** The cached recordings; the mask, an object of [mripy.io], is left
    out. *)
Record t := Make { raws : list Raw.t }.

Definition n_runs (self : t) : nat := length (raws self).

(** [get_raws(mask)] for all runs: [selector] is the index that the mask
    gives along the feature axis. A copy shares [info] and [times] with the
    cached recording and gets the selected rows. *)
Definition get_raws (self : t) (selector : pyindex) : result (list Raw.t) :=
  mapM (λ cached,
          let raw := _copy cached in
          raw_data ← index_axis0 selector (Raw.data raw);
          Ok {| Raw.data := raw_data; Raw.info := Raw.info raw; Raw.times := Raw.times raw |})
       (raws self).

Section get_epochs.

Variable interp1d : list Qc → list value → string → result (Qc → value).
Variable filtfilt_hamming : Z → list value → result (list value).
Variable format_g : Z → string.

(** [get_epochs] without a cache file; the keyword arguments are those of
    the constructor of [Epochs]. *)
Definition get_epochs (self : t) (selector : pyindex) (events : list (list event))
    (event_id : option (gmap string Z)) (tmin tmax : Qc) (baseline : baseline_spec)
    (dt : Qc) (interp : string) (hamm : option Z)
    (conditions : option Epochs.conditions_arg) : MA Epochs.t :=
  doA _ <- assert_ (length events =? n_runs self);
  doA raws <- of_M (lift (get_raws self selector));
  doA epochs <- of_M (mapM_M (λ p : Raw.t * list event,
                       Epochs.__init__ interp1d filtfilt_hamming format_g p.1 p.2 event_id
                         tmin tmax baseline dt interp hamm conditions)
                     (zip raws events));
  of_M (lift (concatinate_epochs epochs)).

End get_epochs.

End RawCache.

(** ** Selection of one feature by its number *)

(** [a[e][:, k][..., t]] for an integer [k]. [a[:, k]] selects what
    [a[:, [k]]] does and raises when it does, but numpy removes the axis:
    the result has two axes, events and time. *)
Definition index3_feature (e : pyindex) (k : Z) (t : pyindex) (a : array3)
    : result (list (list value)) :=
  pe ← resolve e (length (items a));
  i ← norm_index (n_features a) k;
  pt ← resolve t (n_times a);
  Ok (map (λ m, gather (default [] (m !! i)) pt) (gather (items a) pe)).

(** What [pick] returns for an integer [feature]: an [Epochs] object whose
    [data] attribute has two axes, which [Epochs.t] cannot hold. *)
Record picked := Picked {
  picked_events : list event;
  picked_event_id : gmap string Z;
  picked_info : loc;
  picked_times : list Qc;
  picked_data : list (list value)
}.

(** [pick] with an integer as [feature]: the same statements, and two axes
    in the last of them. *)
Definition pick_feature (self : Epochs.t) (event : option Epochs.event_arg) (feature : Z)
    (time : option Epochs.time_arg) : M picked :=
  let inst := Epochs.copy self in
  (* Select event *)
  do sel_event <-
    match event with
    | None => ret IxAll
    | Some (Epochs.EvName s) =>
        do m <- lift (Epochs._partial_match_event self [s]);
        do _ <- setitem (Epochs.info self) "condition" (VStr s);
        ret (IxMask m)
    | Some (Epochs.EvNames []) => lift (Raise IndexError)
    | Some (Epochs.EvNames l) =>
        do m <- lift (Epochs._partial_match_event self l);
        do _ <- setitem (Epochs.info self) "condition" (VStr (join " | " l));
        ret (IxMask m)
    | Some (Epochs.EvIx (IxMask [])) | Some (Epochs.EvIx (IxInts [])) =>
        lift (Raise IndexError)
    | Some (Epochs.EvIx ix) => ret ix
    end;
  do inst_events <- lift (index_axis0 sel_event (Epochs.events inst));
  let inst_event_id := filter (λ p, p.2 ∈ labels inst_events) (Epochs.event_id inst) in
  (* Select feature *)
  let sel_feature := feature in
  (* Select time *)
  let sel_time :=
    match time with
    | None => IxAll
    | Some ta =>
        match Epochs.time_bounds ta, ta with
        | Some (lo, hi), _ =>
            IxMask (map (λ x, bool_decide (lo ≤ x)%Qc && bool_decide (x ≤ hi)%Qc)
                        (Epochs.times self))
        | None, Epochs.TimeIx ix => ix
        | None, Epochs.TimeBounds _ _ => IxAll
        end
    end in
  do inst_times <- lift (index_axis0 sel_time (Epochs.times inst));
  do t0 <- lift (getitem inst_times 0);
  do _ <- setitem (Epochs.info inst) "tmin" (VNum t0);
  do t1 <- lift (match last inst_times with Some x => Ok x | None => Raise IndexError end);
  do _ <- setitem (Epochs.info inst) "tmax" (VNum t1);
  (* Make 3D selection *)
  do inst_data <- lift (index3_feature sel_event sel_feature sel_time (Epochs.data inst));
  ret {| picked_events := inst_events; picked_event_id := inst_event_id;
         picked_info := Epochs.info inst; picked_times := inst_times;
         picked_data := inst_data |}.

(** A collection with the one feature of its tensor rows taken out of the
    list that holds it. *)
Definition squeeze (c : Epochs.t) : picked :=
  {| picked_events := Epochs.events c; picked_event_id := Epochs.event_id c;
     picked_info := Epochs.info c; picked_times := Epochs.times c;
     picked_data := map (λ m, default [] (m !! 0)) (items (Epochs.data c)) |}.

(** ** Further definitions used in the statements *)

(** A collection whose tensor has the extents it declares, on a grid of
    [n_times] samples. *)
Definition well_shaped (e : Epochs.t) : Prop :=
  length (Epochs.times e) = n_times (Epochs.data e)
  ∧ Forall (λ m, length m = n_features (Epochs.data e)
                 ∧ Forall (λ r, length r = n_times (Epochs.data e)) m)
           (items (Epochs.data e)).

(** The baselines whose correction subtracts a mean: a window, and the
    string ['all'] in any case of its letters. *)
Definition subtracts_mean (b : baseline_spec) : bool :=
  match b with
  | BaselineWin _ _ => true
  | BaselineStr s => bool_decide (lower s = "all")
  | BaselineNone => false
  end.

(** The events that one line of the file at position [k] lists: none for a
    blank line and for a ['*'] marker, else one for every token. *)
Definition line_events (float : string → option Qc) (k : nat) (line : string) : list event :=
  if bool_decide (strip line = EmptyString) || startswith "*" (strip line) then []
  else map (λ q, Event q (Q2Qc 0) (Z.of_nat k + 1)) (omap float (split_ws (strip line))).

(** The events listed for run [r]: those of line [r] of every file, in the
    order of the files. *)
Definition listed_events (float : string → option Qc) (files : list (string * list string))
    (r : nat) : list event :=
  concat (imap (λ k f, default [] (line_events float k <$> f.2 !! r)) files).

(** The rows collected so far for run [r] in the lists of onsets and of
    labels, and the agreement of the two lists on how many there are. *)
Definition run_rows (st : list (list Qc) * list (list Z)) (r : nat) : list event :=
  default [] (t ← st.1 !! r; e ← st.2 !! r; Some (zip_with (λ x l, Event x (Q2Qc 0) l) t e)).

Definition aligned (st : list (list Qc) * list (list Z)) : Prop :=
  Forall2 (λ (a : list Qc) (b : list Z), length a = length b) st.1 st.2.

(** The heap [h'] differs from [h] at most in the entries [keys] of the
    dictionary at [l]. *)
Definition differs_at (l : loc) (keys : list string) (h h' : heap) : Prop :=
  (∀ l', l' ≠ l → h' !! l' = h !! l')
  ∧ (∀ k, k ∉ keys → h' !! l ≫= (.!! k) = h !! l ≫= (.!! k)).

(** A format that tells the labels of the examples apart. *)
Definition label_digit (id : Z) : string := if bool_decide (id = 1%Z) then "1" else "2".

(** Every token of the line is a number. *)
Definition numeric (float : string → option Qc) (line : string) : Prop :=
  Forall (λ tok, is_Some (float tok)) (split_ws (strip line)).

(** The run that line [i] of file number [k] extends exists by then: the
    first file has appended one run for each of its non-blank lines so far,
    so that no blank line may come before line [i]; a later file finds the
    runs of the first file. *)
Definition in_range (first : list string) (k i : nat) : Prop :=
  match k with
  | 0 => run_count (take i first) = i
  | S _ => i < run_count first
  end.

(** The line can be processed: a line with onsets has numbers for tokens
    and a run to extend. *)
Definition readable (float : string → option Qc) (first : list string) (k i : nat)
    (line : string) : Prop :=
  onset_line line → numeric float line ∧ in_range first k i.

(** The runs that the lines of file number [eid] append. *)
Definition grows (eid : nat) (lines : list string) : nat :=
  if eid =? 0 then run_count lines else 0.

(** * Properties *)

(** Linear goals over [Qc], through [Q]. *)
Ltac qc_lra :=
  unfold Qcle, Qclt, Qcminus, Qcplus, Qcopp, Qcmult, Q2Qc in *;
  cbn [this] in *;
  rewrite ?Qred_correct in *;
  lra.

(** ** Ranges *)

Section arange.
Local Open Scope Qc_scope.

Lemma Qc_pos_ne_0 (x : Qc) : 0 < x → x ≠ 0.
Proof. intros Hx ->. by apply Qclt_not_eq in Hx. Qed.

Lemma Qc_ceiling_upper (q : Qc) : q ≤ Qc_of_Z (Qceiling q).
Proof. exact (Qle_ceiling q). Qed.

Lemma Qc_ceiling_lower (q : Qc) : Qc_of_Z (Qceiling q - 1) < q.
Proof. exact (Qceiling_lt q). Qed.

Lemma Qc_of_nat_lt_ceiling (i : nat) (q : Qc) :
  (i < Z.to_nat (Qceiling q))%nat → Qc_of_Z (Z.of_nat i) < q.
Proof.
  intros Hi. eapply Qcle_lt_trans; [|apply Qc_ceiling_lower].
  apply (proj1 (Z2Qc_inj_le (Z.of_nat i) (Qceiling q - 1))). lia.
Qed.

Lemma Qc_le_of_nat_ceiling (q : Qc) :
  q ≤ Qc_of_Z (Z.of_nat (Z.to_nat (Qceiling q))).
Proof.
  eapply Qcle_trans; [apply Qc_ceiling_upper|].
  apply (proj1 (Z2Qc_inj_le (Qceiling q) (Z.of_nat (Z.to_nat (Qceiling q))))). lia.
Qed.

Lemma arange_Ok start stop step :
  step ≠ 0 →
  arange start stop step =
    Ok (map (λ i : nat, start + Qc_of_Z (Z.of_nat i) * step)
            (seq 0 (arange_len start stop step))).
Proof. intros Hs. unfold arange. by rewrite bool_decide_eq_false_2. Qed.

(** Counting up: every sample is below [stop], the next one is not. *)
Lemma arange_up_below start stop step (i : nat) :
  0 < step → (i < arange_len start stop step)%nat →
  start + Qc_of_Z (Z.of_nat i) * step < stop.
Proof.
  intros Hs Hi. apply Qc_of_nat_lt_ceiling in Hi.
  apply (Qcmult_lt_compat_r _ _ step) in Hi; [|done].
  replace ((stop - start) / step * step) with (stop - start) in Hi
    by (field; by apply Qc_pos_ne_0).
  revert Hi. generalize (Qc_of_Z (Z.of_nat i) * step). intros p Hi. qc_lra.
Qed.

Lemma arange_up_past start stop step :
  0 < step →
  stop ≤ start + Qc_of_Z (Z.of_nat (arange_len start stop step)) * step.
Proof.
  intros Hs. pose proof (Qc_le_of_nat_ceiling ((stop - start) / step)) as Hn.
  apply (Qcmult_le_compat_r _ _ step) in Hn; [|by apply Qclt_le_weak].
  replace ((stop - start) / step * step) with (stop - start) in Hn
    by (field; by apply Qc_pos_ne_0).
  fold (arange_len start stop step) in Hn. revert Hn.
  generalize (Qc_of_Z (Z.of_nat (arange_len start stop step)) * step). intros p Hn. qc_lra.
Qed.

(** Counting down is counting up in the mirrored range. *)
Lemma arange_len_opp start stop step :
  step ≠ 0 → arange_len (- start) (- stop) (- step) = arange_len start stop step.
Proof.
  intros Hs. unfold arange_len. do 3 f_equal. field. split; [done|].
  intros Hn. apply Hs. rewrite <-(Qcopp_involutive step), Hn. ring.
Qed.

Lemma arange_down_above start stop step (i : nat) :
  0 < step → (i < arange_len start stop (- step))%nat →
  stop < start + Qc_of_Z (Z.of_nat i) * (- step).
Proof.
  intros Hs Hi.
  rewrite <-(Qcopp_involutive start), <-(Qcopp_involutive stop) in Hi.
  rewrite arange_len_opp in Hi by by apply Qc_pos_ne_0.
  apply arange_up_below in Hi; [|done].
  replace (Qc_of_Z (Z.of_nat i) * - step) with (- (Qc_of_Z (Z.of_nat i) * step)) by ring.
  revert Hi. generalize (Qc_of_Z (Z.of_nat i) * step). intros p Hi. qc_lra.
Qed.

Lemma arange_down_past start stop step :
  0 < step →
  start + Qc_of_Z (Z.of_nat (arange_len start stop (- step))) * (- step) ≤ stop.
Proof.
  intros Hs.
  pose proof (arange_up_past (- start) (- stop) step Hs) as Hn.
  rewrite <-(arange_len_opp start stop (- step)), Qcopp_involutive.
  2:{ intros Hz. apply (Qc_pos_ne_0 _ Hs). rewrite <-(Qcopp_involutive step), Hz. ring. }
  replace (Qc_of_Z (Z.of_nat (arange_len (- start) (- stop) step)) * - step)
    with (- (Qc_of_Z (Z.of_nat (arange_len (- start) (- stop) step)) * step)) by ring.
  revert Hn. generalize (Qc_of_Z (Z.of_nat (arange_len (- start) (- stop) step)) * step).
  intros p Hn. qc_lra.
Qed.

(** C2. With [tmin < 0 < tmax] the relative-time grid is the reversed
    negative branch [-dt, -2dt, ...], which stops with the last sample above
    [tmin - dt/2], followed by the branch [0, dt, ...], which stops with the
    last sample below [tmax + dt/2], and [0] is one of its samples; otherwise
    it is the single range [tmin, tmin + dt, ...] that stops with the last
    sample below [tmax + dt/2]. The step [dt] is positive. *)
Theorem epoch_times_grid (tmin tmax dt : Qc) :
  0 < dt →
  (tmin < 0 ∧ 0 < tmax →
   ∃ (k m : nat) (grid : list Qc),
     Epochs.epoch_times tmin tmax dt = Ok grid
     ∧ grid = rev (map (λ i : nat, - dt + Qc_of_Z (Z.of_nat i) * - dt) (seq 0 k))
              ++ map (λ j : nat, 0 + Qc_of_Z (Z.of_nat j) * dt) (seq 0 m)
     ∧ (∀ i : nat, (i < k)%nat → tmin - dt / 2 < - dt + Qc_of_Z (Z.of_nat i) * - dt)
     ∧ - dt + Qc_of_Z (Z.of_nat k) * - dt ≤ tmin - dt / 2
     ∧ (∀ j : nat, (j < m)%nat → 0 + Qc_of_Z (Z.of_nat j) * dt < tmax + dt / 2)
     ∧ tmax + dt / 2 ≤ 0 + Qc_of_Z (Z.of_nat m) * dt
     ∧ 0 ∈ grid)
  ∧ (¬ (tmin < 0 ∧ 0 < tmax) →
     ∃ n : nat,
       Epochs.epoch_times tmin tmax dt =
         Ok (map (λ i : nat, tmin + Qc_of_Z (Z.of_nat i) * dt) (seq 0 n))
       ∧ (∀ i : nat, (i < n)%nat → tmin + Qc_of_Z (Z.of_nat i) * dt < tmax + dt / 2)
       ∧ tmax + dt / 2 ≤ tmin + Qc_of_Z (Z.of_nat n) * dt).
Proof.
  intros Hdt.
  assert (dt ≠ 0) as Hne by by apply Qc_pos_ne_0.
  assert (- dt ≠ 0) as Hne'.
  { intros Hz. apply Hne. rewrite <-(Qcopp_involutive dt), Hz. ring. }
  unfold Epochs.epoch_times. split.
  - intros [Hmin Hmax].
    rewrite !bool_decide_eq_true_2 by done. cbn [andb].
    rewrite !arange_Ok by done. cbn [mbind result_bind].
    set (k := arange_len (- dt) (tmin - dt / 2) (- dt)).
    set (m := arange_len 0 (tmax + dt / 2) dt).
    exists k, m, (rev (map (λ i : nat, - dt + Qc_of_Z (Z.of_nat i) * - dt) (seq 0 k))
              ++ map (λ j : nat, 0 + Qc_of_Z (Z.of_nat j) * dt) (seq 0 m)).
    assert (tmax + dt / 2 ≤ 0 + Qc_of_Z (Z.of_nat m) * dt) as Hm
      by by apply arange_up_past.
    split_and!; try done.
    + intros i Hi. by apply arange_down_above.
    + by apply arange_down_past.
    + intros j Hj. by apply arange_up_below.
    + apply elem_of_app. right. apply list_elem_of_fmap. exists 0%nat. split.
      { change (Z.of_nat 0) with 0%Z. rewrite Z2Qc_inj_0. ring. }
      apply elem_of_seq. split; [lia|]. destruct m as [|m']; [|lia].
      exfalso. change (Z.of_nat 0) with 0%Z in Hm. rewrite Z2Qc_inj_0 in Hm.
      assert (0 < dt / 2) as Hhalf.
      { apply Qcmult_pos_pos; [done|]. by vm_compute. }
      revert Hm Hmax Hhalf. generalize (dt / 2). intros h ???.
      replace (0 + 0 * dt) with (Q2Qc 0) in * by ring. qc_lra.
  - intros Hnot.
    assert (bool_decide (tmin < 0) && bool_decide (0 < tmax) = false) as ->.
    { apply andb_false_iff. destruct (decide (tmin < 0)), (decide (0 < tmax));
        rewrite ?bool_decide_eq_false; tauto. }
    rewrite arange_Ok by done.
    exists (arange_len tmin (tmax + dt / 2) dt). split_and!; [done| |].
    + intros i Hi. by apply arange_up_below.
    + by apply arange_up_past.
Qed.

(** The window of the end-to-end scenario, [tmin = -2], [tmax = 6],
    [dt = 1]. *)
Lemma epoch_times_grid_witness :
  (Sample.z (-2) < 0 ∧ 0 < Sample.z 6 →
   ∃ (k m : nat) (grid : list Qc),
     Epochs.epoch_times (Sample.z (-2)) (Sample.z 6) (Sample.z 1) = Ok grid
     ∧ grid = rev (map (λ i : nat, - Sample.z 1 + Qc_of_Z (Z.of_nat i) * - Sample.z 1) (seq 0 k))
              ++ map (λ j : nat, 0 + Qc_of_Z (Z.of_nat j) * Sample.z 1) (seq 0 m)
     ∧ (∀ i : nat, (i < k)%nat →
          Sample.z (-2) - Sample.z 1 / 2 < - Sample.z 1 + Qc_of_Z (Z.of_nat i) * - Sample.z 1)
     ∧ - Sample.z 1 + Qc_of_Z (Z.of_nat k) * - Sample.z 1 ≤ Sample.z (-2) - Sample.z 1 / 2
     ∧ (∀ j : nat, (j < m)%nat →
          0 + Qc_of_Z (Z.of_nat j) * Sample.z 1 < Sample.z 6 + Sample.z 1 / 2)
     ∧ Sample.z 6 + Sample.z 1 / 2 ≤ 0 + Qc_of_Z (Z.of_nat m) * Sample.z 1
     ∧ 0 ∈ grid)
  ∧ (¬ (Sample.z (-2) < 0 ∧ 0 < Sample.z 6) →
     ∃ n : nat,
       Epochs.epoch_times (Sample.z (-2)) (Sample.z 6) (Sample.z 1) =
         Ok (map (λ i : nat, Sample.z (-2) + Qc_of_Z (Z.of_nat i) * Sample.z 1) (seq 0 n))
       ∧ (∀ i : nat, (i < n)%nat →
            Sample.z (-2) + Qc_of_Z (Z.of_nat i) * Sample.z 1 < Sample.z 6 + Sample.z 1 / 2)
       ∧ Sample.z 6 + Sample.z 1 / 2 ≤ Sample.z (-2) + Qc_of_Z (Z.of_nat n) * Sample.z 1).
Proof. apply (epoch_times_grid (Sample.z (-2)) (Sample.z 6) (Sample.z 1)). by vm_compute. Defined.

(** The grid of the scenario, computed. *)
Example epoch_times_scenario :
  Epochs.epoch_times (Sample.z (-2)) (Sample.z 6) (Sample.z 1) =
    Ok (map Sample.z [-2; -1; 0; 1; 2; 3; 4; 5; 6]%Z).
Proof. vm_compute. reflexivity. Qed.

End arange.

(** ** The constructor *)

Section constructor.
Local Open Scope Qc_scope.

Lemma bind_lift {A B} (r : result A) (k : A → M B) (h : heap) :
  bind (lift r) k h = match r with Ok a => k a h | Raise e => (Raise e, h) end.
Proof. unfold bind, lift. by destruct r. Qed.

Lemma bind_setitem {B} l key v (k : unit → M B) (h : heap) :
  bind (setitem l key v) k h = k () (<[l := <[key := v]> (default ∅ (h !! l))]> h).
Proof. done. Qed.

(** The grid can always be built when [dt] is not zero. *)
Lemma epoch_times_Ok tmin tmax dt :
  dt ≠ 0 → ∃ grid, Epochs.epoch_times tmin tmax dt = Ok grid.
Proof.
  intros Hdt. unfold Epochs.epoch_times.
  assert (- dt ≠ 0) as Hne'.
  { intros Hz. apply Hdt. rewrite <-(Qcopp_involutive dt), Hz. ring. }
  destruct (_ && _); rewrite !arange_Ok by done; cbn [mbind result_bind]; eauto.
Qed.

Lemma init_heap interp1d filt fmt raw events event_id tmin tmax baseline dt interp
    hamm conditions (h : heap) :
  dt ≠ 0 →
  (Epochs.__init__ interp1d filt fmt raw events event_id tmin tmax baseline dt interp
     hamm conditions h).2 =
  <[Raw.info raw := info_written raw tmin tmax baseline dt interp hamm conditions
                      (default ∅ (h !! Raw.info raw))]> h.
Proof.
  intros Hdt. unfold Epochs.__init__.
  rewrite bind_lift, bool_decide_eq_false_2 by done.
  rewrite !bind_setitem. rewrite !lookup_insert_eq, !insert_insert_eq. simpl.
  set (h' := <[Raw.info raw := _]> h).
  assert (h' = <[Raw.info raw := info_written raw tmin tmax baseline dt interp hamm
                   conditions (default ∅ (h !! Raw.info raw))]> h) as <-.
  { unfold h', info_written. by destruct conditions as [[]|]. }
  clearbody h'.
  rewrite bind_lift. destruct (Epochs.epoch_times _ _ _); [|done].
  rewrite bind_lift. destruct (match hamm with None => _ | Some _ => _ end); [|done].
  rewrite bind_lift. destruct (mapM _ _); [|done].
  rewrite bind_lift. destruct (create_base_corr_func _ _ _); [|done].
  rewrite bind_lift. by destruct (mapM _ events).
Qed.

Lemma init_info interp1d filt fmt raw events event_id tmin tmax baseline dt interp
    hamm conditions (h : heap) e :
  (Epochs.__init__ interp1d filt fmt raw events event_id tmin tmax baseline dt interp
     hamm conditions h).1 = Ok e →
  Epochs.info e = Raw.info raw.
Proof.
  unfold Epochs.__init__.
  rewrite bind_lift. case_bool_decide; [done|].
  rewrite !bind_setitem.
  rewrite bind_lift. destruct (Epochs.epoch_times _ _ _); [|done].
  rewrite bind_lift. destruct (match hamm with None => _ | Some _ => _ end); [|done].
  rewrite bind_lift. destruct (mapM _ _); [|done].
  rewrite bind_lift. destruct (create_base_corr_func _ _ _); [|done].
  rewrite bind_lift. destruct (mapM _ events); [|done].
  by intros [= <-].
Qed.

(** C10. The constructor keeps a reference to the recording's [info]
    dictionary and writes through it: afterwards the dictionary that the
    recording refers to has ['sfreq'] set to [1/dt] and the entries ['tmin'],
    ['tmax'], ['baseline'], ['interp'], ['hamm'], ['conditions'] and
    ['condition'], and the new collection refers to that same dictionary. *)
Theorem init_mutates_raw_info interp1d filt fmt raw events event_id tmin tmax baseline
    dt interp hamm conditions (h : heap) (d : gmap string pyval) :
  dt ≠ 0 →
  h !! Raw.info raw = Some d →
  let run := Epochs.__init__ interp1d filt fmt raw events event_id tmin tmax baseline
               dt interp hamm conditions h in
  (∀ e, run.1 = Ok e → Epochs.info e = Raw.info raw)
  ∧ ∃ d', run.2 !! Raw.info raw = Some d'
      ∧ d' = info_written raw tmin tmax baseline dt interp hamm conditions d
      ∧ d' !! "sfreq" = Some (VNum (1 / dt))
      ∧ d' !! "tmin" = Some (VNum tmin)
      ∧ d' !! "tmax" = Some (VNum tmax)
      ∧ d' !! "baseline" = Some (VBaseline baseline)
      ∧ d' !! "interp" = Some (VStr interp)
      ∧ is_Some (d' !! "hamm")
      ∧ is_Some (d' !! "conditions")
      ∧ d' !! "condition" = Some VNone.
Proof.
  intros Hdt Hd run. split.
  - intros e. apply init_info.
  - exists (info_written raw tmin tmax baseline dt interp hamm conditions d).
    unfold run. rewrite init_heap, Hd by done. rewrite lookup_insert_eq.
    unfold info_written. split_and!; try done; try (by simplify_map_eq).
    all: eexists; by simplify_map_eq.
Qed.

Lemma init_mutates_raw_info_witness :
  let run := Sample.construct Sample.ramp [Event (Sample.z 5) (Sample.z 0) 1]
               (Sample.z (-2)) (Sample.z 6) (Sample.z 1) Sample.heap0 in
  (∀ e, run.1 = Ok e → Epochs.info e = Raw.info Sample.ramp)
  ∧ ∃ d', run.2 !! Raw.info Sample.ramp = Some d'
      ∧ d' = info_written Sample.ramp (Sample.z (-2)) (Sample.z 6) (BaselineStr "none")
               (Sample.z 1) "linear" None None Sample.ramp_info
      ∧ d' !! "sfreq" = Some (VNum (1 / Sample.z 1))
      ∧ d' !! "tmin" = Some (VNum (Sample.z (-2)))
      ∧ d' !! "tmax" = Some (VNum (Sample.z 6))
      ∧ d' !! "baseline" = Some (VBaseline (BaselineStr "none"))
      ∧ d' !! "interp" = Some (VStr "linear")
      ∧ is_Some (d' !! "hamm")
      ∧ is_Some (d' !! "conditions")
      ∧ d' !! "condition" = Some VNone.
Proof.
  apply (init_mutates_raw_info Sample.interp1d Sample.filtfilt_hamming Sample.format_g
           Sample.ramp [Event (Sample.z 5) (Sample.z 0) 1] (Some Sample.cond_xy)
           (Sample.z (-2)) (Sample.z 6) (BaselineStr "none") (Sample.z 1) "linear"
           None None Sample.heap0 Sample.ramp_info).
  - apply (bool_decide_unpack _). by vm_compute.
  - reflexivity.
Defined.

(** C8, as the code has it. An event array without rows is no error: when
    [dt] is not zero and the smoothing, the interpolants and the baseline
    function can be built, the constructor returns a collection with no
    events and an empty tensor of [n_features] by [len(times)] inner
    extent. *)
Theorem init_without_events interp1d filt fmt raw event_id tmin tmax baseline dt interp
    hamm conditions (h : heap) x f grid bc :
  dt ≠ 0 →
  match hamm with
  | None => Ok (Raw.data raw)
  | Some n => mapM (filt n) (Raw.data raw)
  end = Ok x →
  mapM (λ row, interp1d (Raw.times raw) row interp) x = Ok f →
  Epochs.epoch_times tmin tmax dt = Ok grid →
  create_base_corr_func grid baseline None = Ok bc →
  (Epochs.__init__ interp1d filt fmt raw [] event_id tmin tmax baseline dt interp hamm
     conditions h).1 =
  Ok {| Epochs.events := []; Epochs.event_id := default ∅ event_id;
        Epochs.info := Raw.info raw; Epochs.times := grid;
        Epochs.data := {| n_features := Raw.n_features raw; n_times := length grid;
                          items := [] |} |}.
Proof.
  intros Hdt Hx Hf Hgrid Hbc. unfold Epochs.__init__.
  rewrite bind_lift, bool_decide_eq_false_2 by done.
  rewrite !bind_setitem.
  rewrite bind_lift, Hgrid. rewrite bind_lift, Hx. rewrite bind_lift, Hf.
  rewrite bind_lift, Hbc. rewrite bind_lift. cbn [mapM mret result_ret].
  by destruct event_id.
Qed.

Lemma init_without_events_witness :
  (Sample.construct Sample.ramp [] (Sample.z (-2)) (Sample.z 6) (Sample.z 1) Sample.heap0).1 =
  Ok {| Epochs.events := []; Epochs.event_id := Sample.cond_xy;
        Epochs.info := 0; Epochs.times := map Sample.z [-2; -1; 0; 1; 2; 3; 4; 5; 6]%Z;
        Epochs.data := {| n_features := 1; n_times := 9; items := [] |} |}.
Proof.
  apply (init_without_events Sample.interp1d Sample.filtfilt_hamming Sample.format_g
           Sample.ramp (Some Sample.cond_xy) (Sample.z (-2)) (Sample.z 6)
           (BaselineStr "none") (Sample.z 1) "linear" None None Sample.heap0
           (Raw.data Sample.ramp)
           [Sample.linear (Raw.times Sample.ramp)
              (map (λ i : nat, Some (Sample.z (Z.of_nat i))) (seq 0 10))]
           (map Sample.z [-2; -1; 0; 1; 2; 3; 4; 5; 6]%Z)
           (Some (λ _, Ok (λ x, x)))).
  - apply (bool_decide_unpack _). by vm_compute.
  - reflexivity.
  - reflexivity.
  - vm_compute. reflexivity.
  - reflexivity.
Defined.

(** C8 as stated does not hold: on the ramp recording with the window of the
    scenario, an event array without rows is accepted. *)
Lemma init_without_events_no_error :
  ¬ ∃ err, (Sample.construct Sample.ramp [] (Sample.z (-2)) (Sample.z 6) (Sample.z 1)
              Sample.heap0).1 = Raise err.
Proof. intros [err Herr]. vm_compute in Herr. discriminate. Qed.

(** C1 at a window whose [tmin] is not a whole number of steps: recording
    [x(t) = t], one event at second 5, [tmin = -3/2], [tmax = 2], [dt = 1].
    The grid is [-1, 0, 1, 2], the epoch is sampled at [3.5, 4.5, 5.5, 6.5],
    so the value stored at grid sample [0] is [9/2] while the interpolant at
    the onset is [5]. *)
Theorem epoch_at_zero_misaligned :
  ∃ e, (Sample.construct Sample.ramp [Event (Sample.z 5) (Sample.z 0) 1]
          (Sample.frac (-3) 2) (Sample.z 2) (Sample.z 1) Sample.heap0).1 = Ok e
     ∧ Epochs.times e = map Sample.z [-1; 0; 1; 2]%Z
     ∧ items (Epochs.data e) =
         [[[Some (Sample.frac 7 2); Some (Sample.frac 9 2);
            Some (Sample.frac 11 2); Some (Sample.frac 13 2)]]]
     ∧ Sample.linear (Raw.times Sample.ramp)
         (map (λ i : nat, Some (Sample.z (Z.of_nat i))) (seq 0 10)) (Sample.z 5)
       = Some (Sample.z 5).
Proof. eexists. split_and!; vm_compute; reflexivity. Qed.

(** With [tmin = -2], a whole number of steps, the value at grid sample [0]
    (the third of the grid [-2, ..., 6]) is the interpolant at the onset;
    the samples past the end of the recording are NaN. *)
Example epoch_at_zero_aligned :
  (λ e, (Epochs.times e !! 2%nat, items (Epochs.data e))) <$>
    (Sample.construct Sample.ramp [Event (Sample.z 5) (Sample.z 0) 1]
       (Sample.z (-2)) (Sample.z 6) (Sample.z 1) Sample.heap0).1
  = Ok (Some (Sample.z 0),
        [[[Some (Sample.z 3); Some (Sample.z 4); Some (Sample.z 5); Some (Sample.z 6);
           Some (Sample.z 7); Some (Sample.z 8); Some (Sample.z 9); None; None]]]).
Proof. vm_compute. reflexivity. Qed.

(** With [tmax = 12/5] instead, the grid has four samples and the epoch
    five: the assignment into the tensor raises. *)
Example epoch_shape_mismatch :
  (Sample.construct Sample.ramp [Event (Sample.z 5) (Sample.z 0) 1]
     (Sample.frac (-3) 2) (Sample.frac 12 5) (Sample.z 1) Sample.heap0).1 = Raise ValueError.
Proof. vm_compute. reflexivity. Qed.

End constructor.

(** ** Indexing *)

Section indexing.

Lemma mapM_Ok_Forall2 {A B} (f : A → result B) (l : list A) (k : list B) :
  mapM f l = Ok k ↔ Forall2 (λ x y, f x = Ok y) l k.
Proof.
  revert k. induction l as [|x l IH]; intros k.
  - cbn [mapM mret result_ret]. split.
    + intros [= <-]. constructor.
    + by intros ->%Forall2_nil_inv_l.
  - cbn [mapM]. split.
    + destruct (f x) as [y|] eqn:Hy; cbn [mbind result_bind]; [|done].
      destruct (mapM f l) as [k'|] eqn:Hk; cbn [mbind result_bind mret result_ret]; [|done].
      intros [= <-]. constructor; [done|]. by apply IH.
    + intros (y & k' & Hy & Hk & ->)%Forall2_cons_inv_l.
      rewrite Hy. cbn [mbind result_bind]. apply IH in Hk. rewrite Hk. done.
Qed.

Lemma norm_index_lt n j i : norm_index n j = Ok i → i < n.
Proof. unfold norm_index. repeat case_bool_decide; intros [= <-]; lia. Qed.

Lemma nonzero_from_bound i m : Forall (λ p, i ≤ p < i + length m) (nonzero_from i m).
Proof.
  revert i. induction m as [|b m IH]; intros i; [constructor|].
  cbn [nonzero_from length]. specialize (IH (S i)).
  assert (Forall (λ p, i ≤ p < i + S (length m)) (nonzero_from (S i) m)).
  { eapply Forall_impl; [exact IH|]. simpl. lia. }
  destruct b; [constructor; [lia|done]|done].
Qed.

(** The positions that an index resolves to lie on the axis. *)
Lemma resolve_lt ix n ps : resolve ix n = Ok ps → Forall (λ i, i < n) ps.
Proof.
  destruct ix as [a b|m|js]; cbn [resolve].
  - intros [= <-]. apply Forall_forall. intros i [? ?]%elem_of_seq.
    assert (slice_bound n n b ≤ n); [|lia].
    unfold slice_bound. destruct b as [j|]; [|lia]. case_bool_decide; lia.
  - destruct (length m =? n) eqn:Hlen; [|done]. intros [= <-].
    apply Nat.eqb_eq in Hlen. subst n.
    eapply Forall_impl; [apply (nonzero_from_bound 0 m)|]. simpl. lia.
  - intros H%mapM_Ok_Forall2. induction H as [|j i js ps Hi _ IH]; constructor; [|done].
    by eapply norm_index_lt.
Qed.

Lemma gather_length {A} (l : list A) ps :
  Forall (λ i, i < length l) ps → length (gather l ps) = length ps.
Proof.
  unfold gather. induction 1 as [|i ps Hi _ IH]; [done|].
  csimpl. destruct (lookup_lt_is_Some_2 l i Hi) as [x ->]. csimpl. by rewrite IH.
Qed.

Lemma gather_elem_of {A} (l : list A) ps x : x ∈ gather l ps → x ∈ l.
Proof.
  unfold gather. intros (i & _ & Hx)%list_elem_of_omap. by eapply list_elem_of_lookup_2.
Qed.

Lemma gather_seq_all {A} (pre l : list A) :
  gather (pre ++ l) (seq (length pre) (length l)) = l.
Proof.
  revert pre. induction l as [|x l IH]; intros pre; [done|].
  cbn [length seq]. unfold gather. csimpl.
  rewrite lookup_app_r, Nat.sub_diag by lia. csimpl. f_equal.
  specialize (IH (pre ++ [x])). rewrite length_app, <-app_assoc in IH.
  cbn [length] in IH. by replace (length pre + 1) with (S (length pre)) in IH by lia.
Qed.

Lemma gather_seq_all_0 {A} (l : list A) : gather l (seq 0 (length l)) = l.
Proof. apply (gather_seq_all [] l). Qed.

Lemma resolve_all n : resolve IxAll n = Ok (seq 0 n).
Proof. unfold IxAll. cbn [resolve slice_bound]. by rewrite Nat.sub_0_r. Qed.

Lemma index_axis0_all {A} (l : list A) : index_axis0 IxAll l = Ok l.
Proof.
  unfold index_axis0. rewrite resolve_all. cbn [mbind result_bind].
  f_equal. apply (gather_seq_all [] l).
Qed.

Lemma gather_nonzero_from {A} (pre l : list A) (m : list bool) :
  length m = length l →
  gather (pre ++ l) (nonzero_from (length pre) m) = compress m l.
Proof.
  revert pre l. induction m as [|b m IH]; intros pre [|x l] Hlen; try done.
  cbn [nonzero_from compress]. cbn [length] in Hlen.
  specialize (IH (pre ++ [x]) l ltac:(lia)). rewrite length_app, <-app_assoc in IH.
  cbn [length] in IH. replace (length pre + 1) with (S (length pre)) in IH by lia.
  destruct b; [|done]. unfold gather in *. csimpl.
  rewrite lookup_app_r, Nat.sub_diag by lia. csimpl. by f_equal.
Qed.

Lemma gather_nonzero_from_0 {A} (l : list A) (m : list bool) :
  length m = length l → gather l (flatnonzero m) = compress m l.
Proof. apply (gather_nonzero_from [] l). Qed.

(** Indexing with a boolean mask of the right length keeps the entries
    whose flag is set, in order. *)
Lemma index_axis0_mask {A} (m : list bool) (l : list A) :
  length m = length l → index_axis0 (IxMask m) l = Ok (compress m l).
Proof.
  intros Hlen. unfold index_axis0. cbn [resolve]. rewrite Hlen, Nat.eqb_refl.
  cbn [mbind result_bind]. f_equal. by apply (gather_nonzero_from [] l).
Qed.

Lemma compress_true {A} (l : list A) (m : list bool) :
  length m = length l → Forall (λ b, b = true) m → compress m l = l.
Proof.
  revert l. induction m as [|b m IH]; intros [|x l] Hlen Hm; try done.
  apply Forall_cons in Hm as [-> Hm]. cbn [compress]. f_equal. apply IH; [|done].
  cbn [length] in Hlen. lia.
Qed.

Lemma compress_app {A} (m1 m2 : list bool) (l1 l2 : list A) :
  length m1 = length l1 →
  compress (m1 ++ m2) (l1 ++ l2) = compress m1 l1 ++ compress m2 l2.
Proof.
  revert l1. induction m1 as [|b m1 IH]; intros [|x l1] Hlen; try done.
  cbn [length] in Hlen. cbn [app compress]. rewrite IH by lia. by destruct b.
Qed.

Lemma compress_length_le {A B} (m : list bool) (l : list A) (l' : list B) :
  length l = length l' → length (compress m l) = length (compress m l').
Proof.
  revert l l'. induction m as [|b m IH]; intros [|x l] [|y l'] Hlen; try done.
  cbn [length] in Hlen. cbn [compress]. destruct b; cbn [length]; rewrite (IH l l'); lia.
Qed.

Lemma compress_elem_of {A} (m : list bool) (l : list A) x :
  x ∈ compress m l ↔ ∃ i, m !! i = Some true ∧ l !! i = Some x.
Proof.
  revert l. induction m as [|b m IH]; intros l.
  - cbn [compress]. split; [by intros ?%elem_of_nil|]. by intros (i & ? & _).
  - destruct l as [|y l]; cbn [compress].
    + split; [by intros ?%elem_of_nil|]. by intros (i & _ & ?).
    + destruct b.
      * rewrite elem_of_cons, IH. split.
        -- intros [->|(i & ? & ?)]; [by exists 0|by exists (S i)].
        -- intros ([|i] & Hm & Hl); cbn in Hm, Hl; [left; congruence|right; eauto].
      * rewrite IH. split.
        -- intros (i & ? & ?). by exists (S i).
        -- intros ([|i] & Hm & Hl); cbn in Hm, Hl; [done|eauto].
Qed.

End indexing.

(** ** Baseline correction *)

Section baseline.
Local Open Scope Qc_scope.

Lemma compress_fmap {A B} (f : A → B) (m : list bool) (l : list A) :
  compress m (f <$> l) = f <$> compress m l.
Proof.
  revert l. induction m as [|b m IH]; intros [|x l]; simpl; try done.
  destruct b; simpl; by rewrite IH.
Qed.

Lemma omap_fsub_Some (x : list value) (mu : Qc) :
  omap id ((λ v, fsub v (Some mu)) <$> x) = (λ a, a - mu) <$> omap id x.
Proof.
  induction x as [|[a|] x IH]; csimpl; try done. by rewrite IH.
Qed.

Lemma qsum_cons (a : Qc) (v : list Qc) : qsum (a :: v) = a + qsum v.
Proof. done. Qed.

Lemma qsum_shift (v : list Qc) (mu : Qc) :
  qsum ((λ a, a - mu) <$> v) = qsum v - Qc_of_Z (Z.of_nat (length v)) * mu.
Proof.
  induction v as [|a v IH].
  - cbn [fmap list_fmap qsum foldr length]. change (Z.of_nat 0) with 0%Z.
    rewrite Z2Qc_inj_0. ring.
  - rewrite fmap_cons, !qsum_cons, IH. cbn [length].
    rewrite Nat2Z.inj_succ, <-Z.add_1_r, Z2Qc_inj_add, Z2Qc_inj_1. ring.
Qed.

Lemma Qc_of_length_ne_0 {A} (v : list A) : v ≠ [] → Qc_of_Z (Z.of_nat (length v)) ≠ 0.
Proof.
  intros Hv Hz. rewrite <-Z2Qc_inj_0 in Hz. apply Z2Qc_inj in Hz.
  destruct v; [done|]. simpl in Hz. lia.
Qed.

Lemma nanmean_finite (x : list value) :
  omap id x ≠ [] →
  nanmean x = Some (qsum (omap id x) / Qc_of_Z (Z.of_nat (length (omap id x)))).
Proof. unfold nanmean. by destruct (omap id x). Qed.

Lemma nanmean_Some_inv (x : list value) (mu : Qc) :
  nanmean x = Some mu →
  omap id x ≠ [] ∧ mu = qsum (omap id x) / Qc_of_Z (Z.of_nat (length (omap id x))).
Proof.
  intros Hmu. assert (omap id x ≠ []) as Hne.
  { intros Hnil. unfold nanmean in Hmu. by rewrite Hnil in Hmu. }
  rewrite nanmean_finite in Hmu by done. split; congruence.
Qed.

(** The mean of what is left after the mean was taken away is zero. *)
Lemma nanmean_centered (x : list value) (mu : Qc) :
  nanmean x = Some mu → nanmean ((λ v, fsub v (Some mu)) <$> x) = Some 0.
Proof.
  intros [Hne Hmu]%nanmean_Some_inv.
  rewrite nanmean_finite; rewrite omap_fsub_Some.
  - rewrite qsum_shift, length_fmap. f_equal.
    pose proof (Qc_of_length_ne_0 _ Hne) as Hn. rewrite Hmu. by field.
  - by destruct (omap id x).
Qed.

Lemma fsub_None_r (x : list value) :
  (λ v, fsub v None) <$> x = replicate (length x) None.
Proof. induction x as [|[a|] x IH]; csimpl; by rewrite ?IH. Qed.

Lemma fsub_zero_r (x : list value) : (λ v, fsub v (Some 0)) <$> x = x.
Proof.
  induction x as [|[a|] x IH]; csimpl; rewrite ?IH; try done.
  do 2 f_equal. ring.
Qed.

Lemma nanmean_replicate_None n : nanmean (replicate n None) = None.
Proof. unfold nanmean. by induction n. Qed.

(** Subtracting the mean of a selection that commutes with pointwise maps
    twice is subtracting it once. *)
Lemma subtract_mean_idem (sel : list value → list value) (x : list value) :
  (∀ (f : value → value) y, sel (f <$> y) = f <$> sel y) →
  let g := λ y : list value, (λ v, fsub v (nanmean (sel y))) <$> y in
  g (g x) = g x.
Proof.
  intros Hsel g. unfold g at 2 3. destruct (nanmean (sel x)) as [mu|] eqn:Hmu.
  - unfold g. rewrite Hsel, (nanmean_centered _ _ Hmu). apply fsub_zero_r.
  - unfold g. rewrite Hsel, !fsub_None_r, nanmean_replicate_None, fsub_None_r.
    by rewrite length_replicate.
Qed.

Lemma base_corr_idem times baseline f n g :
  create_base_corr_func times baseline None = Ok (Some f) → f n = Ok g →
  ∀ x, g (g x) = g x.
Proof.
  unfold create_base_corr_func. intros Hf Hg x.
  destruct baseline as [|s|lo hi]; cbn [default] in Hf.
  - rewrite bool_decide_eq_true_2 in Hf by done. by simplify_eq.
  - case_bool_decide; [by simplify_eq|].
    case_bool_decide; [|done]. simplify_eq.
    apply (subtract_mean_idem (λ y, y)). done.
  - destruct (match lo with None => _ | Some _ => _ end) as [tmin|]; [|done].
    cbn [mbind result_bind] in Hf.
    destruct (match hi with None => _ | Some _ => _ end) as [tmax|]; [|done].
    cbn [mbind result_bind] in Hf. simplify_eq. cbn beta in Hg.
    destruct (_ =? _); [|done]. simplify_eq.
    apply (subtract_mean_idem (compress _)). intros. apply compress_fmap.
Qed.

Lemma apply_baseline_run (e : Epochs.t) (baseline : baseline_spec) (h : heap) :
  Epochs.apply_baseline e baseline h =
  match create_base_corr_func (Epochs.times e) baseline None with
  | Raise err => (Raise err, h)
  | Ok None => (Raise TypeError, h)
  | Ok (Some f) =>
      match f (n_times (Epochs.data e)) with
      | Raise err => (Raise err, h)
      | Ok g =>
          (Ok {| Epochs.events := Epochs.events e; Epochs.event_id := Epochs.event_id e;
                 Epochs.info := Epochs.info e; Epochs.times := Epochs.times e;
                 Epochs.data := {| n_features := n_features (Epochs.data e);
                                   n_times := n_times (Epochs.data e);
                                   items := map (map g) (items (Epochs.data e)) |} |},
           <[Epochs.info e := <["baseline" := VBaseline baseline]>
                                (default ∅ (h !! Epochs.info e))]> h)
      end
  end.
Proof.
  unfold Epochs.apply_baseline. rewrite bind_lift.
  by destruct (create_base_corr_func _ _ _) as [[f|]|err].
Qed.

(** C5. Applying [apply_baseline] with the same baseline a second time
    yields the data tensor of the first application, for every collection
    and every baseline value (none, all, a window with either bound
    possibly open); where the first application raises, so does the
    second. Exact arithmetic. *)
Theorem apply_baseline_idempotent (e : Epochs.t) (baseline : baseline_spec) (h : heap) :
  Epochs.data <$>
    (bind (Epochs.apply_baseline e baseline)
          (λ e1, Epochs.apply_baseline e1 baseline) h).1
  = Epochs.data <$> (Epochs.apply_baseline e baseline h).1.
Proof.
  unfold bind. rewrite apply_baseline_run.
  destruct (create_base_corr_func (Epochs.times e) baseline None) as [[f|]|err] eqn:Hf;
    try done.
  destruct (f (n_times (Epochs.data e))) as [g|err] eqn:Hg; [|done].
  rewrite apply_baseline_run.
  cbn [Epochs.times Epochs.data n_times n_features items]. rewrite Hf, Hg.
  cbn [fst fmap result_fmap Epochs.data]. do 2 f_equal.
  rewrite <-list_fmap_compose. apply list_fmap_ext. intros _ m _.
  cbn [compose]. rewrite <-list_fmap_compose. apply list_fmap_ext. intros _ x _.
  cbn [compose]. by eapply base_corr_idem.
Qed.

(** On the sample collection, baseline [all] turns [1, 2, 6] into
    [-2, -1, 3] and leaves the NaN of the second epoch in place, and a second
    application changes nothing. *)
Example apply_baseline_all :
  items <$> (Epochs.data <$>
    (Epochs.apply_baseline Sample.epochs0 (BaselineStr "all") Sample.heap1).1)
  = Ok [[[Some (Sample.z (-2)); Some (Sample.z (-1)); Some (Sample.z 3)]];
        [[Some (Sample.z (-2)); None; Some (Sample.z 2)]]]
  ∧ items <$> (Epochs.data <$>
       (bind (Epochs.apply_baseline Sample.epochs0 (BaselineStr "all"))
             (λ e1, Epochs.apply_baseline e1 (BaselineStr "all")) Sample.heap1).1)
  = Ok [[[Some (Sample.z (-2)); Some (Sample.z (-1)); Some (Sample.z 3)]];
        [[Some (Sample.z (-2)); None; Some (Sample.z 2)]]].
Proof. split; vm_compute; reflexivity. Qed.

End baseline.

(** ** Selection *)

Section selection.

Lemma bind_ret {A B} (a : A) (k : A → M B) (h : heap) : bind (ret a) k h = k a h.
Proof. done. Qed.

Lemma bind_bind {A B C} (m : M A) (k : A → M B) (k' : B → M C) (h : heap) :
  bind (bind m k) k' h = bind m (λ a, bind (k a) k') h.
Proof. unfold bind. destruct (m h) as [[a|e] h']; [|done]. done. Qed.

(** The value of [pick] does not depend on the heap. *)
Lemma pick_fst self event feature time (h : heap) :
  (Epochs.pick self event feature time h).1 = pick_result self event feature time.
Proof.
  unfold Epochs.pick, pick_result, Epochs.copy, _copy.
  fold (sel_time_of (Epochs.times self) time).
  set (sel_feature := match feature with None => IxAll | Some ix => ix end).
  match goal with
  | |- (bind _ ?K _).1 = _ ≫= ?K' => set (k := K); set (k' := K')
  end.
  assert (∀ ix h', (k ix h').1 = k' ix) as Hk; [unfold k, k'|clearbody k k'].
  { intros sel_event h'.
    rewrite bind_lift. destruct (index_axis0 sel_event _) as [inst_events|]; [|done].
    cbn [mbind result_bind].
    rewrite bind_lift. destruct (index_axis0 _ (Epochs.times self)) as [inst_times|]; [|done].
    cbn [mbind result_bind].
    rewrite bind_lift. destruct (getitem inst_times 0) as [t0|]; [|done].
    cbn [mbind result_bind].
    rewrite bind_setitem, bind_lift. destruct (last inst_times) as [t1|]; [|done].
    cbn [mbind result_bind].
    rewrite bind_setitem, bind_lift. by destruct (index3 _ _ _ _). }
  unfold sel_event_of.
  destruct event as [[s|[|s l]|[a b|[|b m]|[|j js]]]|];
    rewrite ?bind_ret, ?bind_bind, ?bind_lift, ?Hk; try done.
  - destruct (Epochs._partial_match_event self [s]) as [m|]; [|done].
    by rewrite bind_bind, bind_setitem, bind_ret, Hk.
  - destruct (Epochs._partial_match_event self (s :: l)) as [m|]; [|done].
    by rewrite bind_bind, bind_setitem, bind_ret, Hk.
Qed.

(** C4 at the sample collection: selecting the times [0 <= t <= 1] returns a
    collection that refers to the [info] dictionary of its source, and the
    ['tmin'] entry of that dictionary, [-1] before the call, is [0] after
    it. *)
Theorem pick_writes_source_info :
  let run := Epochs.pick Sample.epochs0 None None
               (Some (Epochs.TimeBounds (Sample.z 0) (Sample.z 1))) Sample.heap1 in
  (∃ inst, run.1 = Ok inst ∧ Epochs.info inst = Epochs.info Sample.epochs0
           ∧ Epochs.times inst = map Sample.z [0; 1]%Z)
  ∧ Sample.heap1 !! Epochs.info Sample.epochs0 ≫= (.!! "tmin")
    = Some (VNum (Sample.z (-1)))
  ∧ run.2 !! Epochs.info Sample.epochs0 ≫= (.!! "tmin") = Some (VNum (Sample.z 0))
  ∧ Epochs.times Sample.epochs0 !! 0 = Some (Sample.z (-1)).
Proof.
  split_and!.
  - eexists. split_and!; vm_compute; reflexivity.
  - vm_compute. reflexivity.
  - vm_compute. reflexivity.
  - reflexivity.
Qed.

(** Selecting by name writes the query into the ['condition'] entry of the
    source's dictionary. *)
Example pick_writes_source_condition :
  (Epochs.pick Sample.epochs0 (Some (Epochs.EvName "Cond/X")) None None Sample.heap1).2
    !! Epochs.info Sample.epochs0 ≫= (.!! "condition") = Some (VStr "Cond/X").
Proof. vm_compute. reflexivity. Qed.

End selection.

(** ** Selection by label name *)

Section by_name.

Lemma any_axis0_map {A B} (f : A → B → bool) (keys : list A) (evs : list B) :
  Epochs.any_axis0 (length evs) (map (λ key, map (f key) evs) keys)
  = map (λ ev, existsb (λ key, f key ev) keys) evs.
Proof.
  unfold Epochs.any_axis0. induction keys as [|key keys IH].
  - cbn [map foldr existsb]. induction evs as [|ev evs IH]; [done|].
    cbn [length replicate map]. by rewrite IH.
  - cbn [map foldr]. rewrite IH. clear IH. induction evs as [|ev evs IH]; [done|].
    cbn [map zip_with existsb]. by rewrite IH.
Qed.

Lemma partial_match_Ok self keys :
  keys ≠ [] → Epochs._partial_match_event self keys = Ok (name_mask self keys).
Proof.
  intros Hkeys. unfold Epochs._partial_match_event, name_mask.
  rewrite <-(any_axis0_map (λ key ev, bool_decide (label ev ∈ Epochs.matched_id self key))).
  by destruct keys.
Qed.

Lemma elem_of_matched_id self key id :
  id ∈ Epochs.matched_id self key ↔
  ∃ name, Epochs.event_id self !! name = Some id ∧ split "/" key ⊆ split "/" name.
Proof.
  unfold Epochs.matched_id. rewrite list_elem_of_fmap. split.
  - intros ([name id'] & -> & [Hsub Hin%elem_of_map_to_list]%list_elem_of_filter).
    by exists name.
  - intros (name & Hin & Hsub). exists (name, id). split; [done|].
    apply list_elem_of_filter. split; [done|]. by apply elem_of_map_to_list.
Qed.

Lemma name_mask_lookup self keys i ev :
  Epochs.events self !! i = Some ev →
  name_mask self keys !! i = Some true ↔ selected_by (Epochs.event_id self) keys ev.
Proof.
  intros Hev. unfold name_mask. rewrite list_lookup_fmap, Hev. cbn [fmap option_fmap option_map].
  split.
  - intros [= Hex]. apply existsb_exists in Hex as (key & Hkey & Hin).
    apply bool_decide_eq_true in Hin. apply elem_of_matched_id in Hin as (name & ? & ?).
    exists key, name. split_and!; [by apply list_elem_of_In|done|done].
  - intros (key & name & Hkey & Hname & Hsub). f_equal. apply existsb_exists.
    exists key. split; [by apply list_elem_of_In|]. apply bool_decide_eq_true.
    apply elem_of_matched_id. eauto.
Qed.

Lemma sel_event_of_names self q keys :
  query_names q = Some keys → keys ≠ [] →
  sel_event_of self (Some q) = Ok (IxMask (name_mask self keys)).
Proof.
  intros Hq Hkeys. unfold sel_event_of.
  destruct q as [s|l|ix]; cbn [query_names] in Hq; simplify_eq.
  - by rewrite partial_match_Ok.
  - destruct keys; [done|]. by rewrite partial_match_Ok.
Qed.

Lemma getitem_0_Ok {A} (l : list A) : l ≠ [] → ∃ x, getitem l 0 = Ok x.
Proof. destruct l; [done|]. by eexists. Qed.

Lemma last_Ok {A} (l : list A) : l ≠ [] → ∃ x, last l = Some x.
Proof.
  intros Hl. destruct (last l) eqn:Hlast; [by eexists|]. by apply last_None in Hlast.
Qed.

(** C3. Selecting by one name or by a list of names keeps exactly the
    events, in their order, for which some query name has all its tokens
    among the tokens of a name that the dictionary maps to the event's
    label; the dictionary of the result holds the entries of the source
    whose label still occurs in the selected events, and every label of the
    selected events has an entry. The collection has a non-empty time grid
    and as many tensor rows as events. *)
Theorem pick_by_name (e : Epochs.t) (q : Epochs.event_arg) (keys : list string) (h : heap) :
  query_names q = Some keys → keys ≠ [] →
  Epochs.times e ≠ [] → rows_agree e →
  ∃ inst m,
    (Epochs.pick e (Some q) None None h).1 = Ok inst
    ∧ length m = length (Epochs.events e)
    ∧ (∀ i ev, Epochs.events e !! i = Some ev →
         m !! i = Some true ↔ selected_by (Epochs.event_id e) keys ev)
    ∧ Epochs.events inst = compress m (Epochs.events e)
    ∧ rows_agree inst
    ∧ (∀ name id, Epochs.event_id inst !! name = Some id ↔
         Epochs.event_id e !! name = Some id ∧ id ∈ labels (Epochs.events inst))
    ∧ (∀ id, id ∈ labels (Epochs.events inst) →
         ∃ name, Epochs.event_id inst !! name = Some id).
Proof.
  intros Hq Hkeys Htimes Hrows.
  set (m := name_mask e keys).
  assert (length m = length (Epochs.events e)) as Hlen
    by (unfold m, name_mask; by rewrite length_map).
  rewrite pick_fst. unfold pick_result.
  rewrite (sel_event_of_names e q keys Hq Hkeys). fold m. cbn [mbind result_bind].
  rewrite index_axis0_mask by done. cbn [mbind result_bind sel_time_of].
  rewrite index_axis0_all. cbn [mbind result_bind].
  destruct (getitem_0_Ok _ Htimes) as [t0 ->]. cbn [mbind result_bind].
  destruct (last_Ok _ Htimes) as [t1 ->]. cbn [mbind result_bind].
  unfold rows_agree in Hrows.
  unfold index3. cbn [resolve].
  replace (length (items (Epochs.data e))) with (length m) by lia.
  rewrite Nat.eqb_refl, !resolve_all.
  cbn [mbind result_bind].
  eexists _, m. split; [done|]. cbn [Epochs.events Epochs.event_id Epochs.data items].
  assert (∀ id, id ∈ labels (compress m (Epochs.events e)) →
            ∃ name, Epochs.event_id e !! name = Some id) as Hknown.
  { intros id (ev & -> & Hev)%list_elem_of_fmap.
    apply compress_elem_of in Hev as (i & Hm & Hev).
    apply (name_mask_lookup e keys i ev Hev) in Hm as (_ & name & _ & Hname & _).
    eauto. }
  split_and!.
  - done.
  - intros i ev Hev. by apply name_mask_lookup.
  - done.
  - unfold rows_agree. cbn [Epochs.events Epochs.data items].
    rewrite length_map. rewrite gather_nonzero_from_0 by lia.
    by apply compress_length_le.
  - intros name id. rewrite map_lookup_filter_Some. done.
  - intros id Hid. destruct (Hknown id Hid) as [name Hname]. exists name.
    by apply map_lookup_filter_Some.
Qed.

Lemma pick_by_name_witness :
  ∃ inst m,
    (Epochs.pick Sample.epochs0 (Some (Epochs.EvName "X")) None None Sample.heap1).1 = Ok inst
    ∧ length m = length (Epochs.events Sample.epochs0)
    ∧ (∀ i ev, Epochs.events Sample.epochs0 !! i = Some ev →
         m !! i = Some true ↔ selected_by (Epochs.event_id Sample.epochs0) ["X"] ev)
    ∧ Epochs.events inst = compress m (Epochs.events Sample.epochs0)
    ∧ rows_agree inst
    ∧ (∀ name id, Epochs.event_id inst !! name = Some id ↔
         Epochs.event_id Sample.epochs0 !! name = Some id
         ∧ id ∈ labels (Epochs.events inst))
    ∧ (∀ id, id ∈ labels (Epochs.events inst) →
         ∃ name, Epochs.event_id inst !! name = Some id).
Proof.
  apply (pick_by_name Sample.epochs0 (Epochs.EvName "X") ["X"] Sample.heap1).
  - reflexivity.
  - discriminate.
  - discriminate.
  - reflexivity.
Defined.

(** On the sample collection the token [X] selects the event labelled 1 and
    prunes the dictionary to its name; token order does not matter. *)
Example pick_by_token :
  view <$> (Epochs.pick Sample.epochs0 (Some (Epochs.EvName "X")) None None Sample.heap1).1
  = Ok ({| n_features := 1; n_times := 3;
           items := [[[Some (Sample.z 1); Some (Sample.z 2); Some (Sample.z 6)]]] |},
        [Event (Sample.z 5) (Sample.z 0) 1], {[ "Cond/X" := 1%Z ]})
  ∧ view <$> (Epochs.pick Sample.epochs0 (Some (Epochs.EvNames ["Y/Cond"; "Z"])) None None
                Sample.heap1).1
  = Ok ({| n_features := 1; n_times := 3;
           items := [[[Some (Sample.z 4); None; Some (Sample.z 8)]]] |},
        [Event (Sample.z 8) (Sample.z 0) 2], {[ "Cond/Y" := 2%Z ]}).
Proof. split; vm_compute; reflexivity. Qed.

End by_name.

(** ** Invariants of a collection *)

Section invariants.

Lemma index_axis0_inv {A} ix (l k : list A) :
  index_axis0 ix l = Ok k →
  ∃ ps, resolve ix (length l) = Ok ps ∧ k = gather l ps ∧ length k = length ps.
Proof.
  unfold index_axis0. destruct (resolve ix (length l)) as [ps|] eqn:Hps; [|done].
  cbn [mbind result_bind]. intros [= <-]. exists ps. split_and!; [done..|].
  apply gather_length. by eapply resolve_lt.
Qed.

Lemma index3_inv e f t a b :
  index3 e f t a = Ok b →
  ∃ pe, resolve e (length (items a)) = Ok pe ∧ length (items b) = length pe.
Proof.
  unfold index3. destruct (resolve e _) as [pe|] eqn:Hpe; [|done]. cbn [mbind result_bind].
  destruct (resolve f _) as [pf|]; [|done]. cbn [mbind result_bind].
  destruct (resolve t _) as [pt|]; [|done]. cbn [mbind result_bind].
  intros [= <-]. exists pe. split; [done|]. cbn [items]. rewrite length_map.
  apply gather_length. by eapply resolve_lt.
Qed.

Lemma pick_result_inv e event feature time c :
  pick_result e event feature time = Ok c →
  ∃ sel_event sel_feature sel_time,
    index_axis0 sel_event (Epochs.events e) = Ok (Epochs.events c)
    ∧ index3 sel_event sel_feature sel_time (Epochs.data e) = Ok (Epochs.data c)
    ∧ Epochs.event_id c =
        filter (λ p, p.2 ∈ labels (Epochs.events c)) (Epochs.event_id e).
Proof.
  unfold pick_result.
  destruct (sel_event_of e event) as [sel_event|]; [|done]. cbn [mbind result_bind].
  destruct (index_axis0 sel_event _) as [evs|] eqn:Hevs; [|done]. cbn [mbind result_bind].
  destruct (index_axis0 _ (Epochs.times e)) as [ts|]; [|done]. cbn [mbind result_bind].
  destruct (getitem ts 0); [|done]. cbn [mbind result_bind].
  destruct (last ts); [|done]. cbn [mbind result_bind].
  destruct (index3 _ _ _ _) as [d|] eqn:Hd; [|done]. cbn [mbind result_bind].
  intros [= <-]. eexists sel_event, _, _. split_and!; [done|exact Hd|done].
Qed.

Lemma pruned_labels_known (d : gmap string Z) (evs evs' : list event) :
  (∀ id, id ∈ labels evs → ∃ name, d !! name = Some id) →
  evs' ⊆ evs →
  ∀ id, id ∈ labels evs' →
    ∃ name, filter (λ p : string * Z, p.2 ∈ labels evs') d !! name = Some id.
Proof.
  intros Hknown Hsub id Hid.
  destruct (Hknown id) as [name Hname].
  { apply list_elem_of_fmap in Hid as (ev & -> & Hev). apply list_elem_of_fmap.
    exists ev. split; [done|]. by apply Hsub. }
  exists name. by apply map_lookup_filter_Some.
Qed.

Lemma delete_inv {A} (l k : list A) ids :
  Np.delete l ids = Ok k →
  ∃ ps, mapM (norm_index (length l)) ids = Ok ps
        ∧ k = gather l (filter (λ i, i ∉ ps) (seq 0 (length l)))
        ∧ length k = length (filter (λ i, i ∉ ps) (seq 0 (length l))).
Proof.
  unfold Np.delete. destruct (mapM _ ids) as [ps|]; [|done]. cbn [mbind result_bind].
  intros [= <-]. exists ps. split_and!; [done..|]. apply gather_length.
  apply Forall_forall. intros i [_ [_ ?]%elem_of_seq]%list_elem_of_filter. lia.
Qed.

(** The merged dictionary of a concatenation. *)
Lemma merged_lookup_Some (l : list Epochs.t) (acc : gmap string Z) name id :
  foldl (λ d e, Epochs.event_id e ∪ d) acc l !! name = Some id →
  acc !! name = Some id ∨ ∃ e, e ∈ l ∧ Epochs.event_id e !! name = Some id.
Proof.
  revert acc. induction l as [|e l IH]; intros acc; cbn [foldl]; [by left|].
  intros [Hacc|(e' & ? & ?)]%IH.
  - apply lookup_union_Some_raw in Hacc as [?|[_ ?]]; [|by left].
    right. exists e. split; [apply elem_of_cons; by left|done].
  - right. exists e'. split; [apply elem_of_cons; by right|done].
Qed.

Lemma merged_lookup_is_Some (l : list Epochs.t) (acc : gmap string Z) name :
  (is_Some (acc !! name) ∨ ∃ e, e ∈ l ∧ is_Some (Epochs.event_id e !! name)) →
  is_Some (foldl (λ d e, Epochs.event_id e ∪ d) acc l !! name).
Proof.
  revert acc. induction l as [|e l IH]; intros acc; cbn [foldl].
  - intros [?|(e & ?%elem_of_nil & _)]; done.
  - intros [Hacc|(e' & [->|He']%elem_of_cons & Hsome)]; apply IH.
    + left. apply lookup_union_is_Some. by right.
    + left. apply lookup_union_is_Some. by left.
    + right. eauto.
Qed.

Lemma concatenate_inv (l : list array3) a :
  concatenate l = Ok a → items a = concat (map items l).
Proof.
  unfold concatenate. destruct l as [|b l]; [done|].
  destruct (forallb _ _); [|done]. by intros [= <-].
Qed.

Lemma elem_of_concat {A} (x : A) (ls : list (list A)) :
  x ∈ concat ls ↔ ∃ l, l ∈ ls ∧ x ∈ l.
Proof.
  induction ls as [|l ls IH]; cbn [concat].
  - split; [by intros ?%elem_of_nil|]. by intros (l & ?%elem_of_nil & _).
  - rewrite elem_of_app, IH. split.
    + intros [?|(l' & ? & ?)]; [exists l|exists l']; rewrite elem_of_cons; eauto.
    + intros (l' & [->|?]%elem_of_cons & ?); eauto.
Qed.

Lemma concat_length_agree (l : list Epochs.t) :
  Forall rows_agree l →
  length (concat (map Epochs.events l)) = length (concat (map items (map Epochs.data l))).
Proof.
  induction 1 as [|e l He _ IH]; [done|].
  cbn [map concat]. rewrite !length_app, IH. unfold rows_agree in He. lia.
Qed.

Lemma pick_rows_agree e event feature time (h : heap) c :
  rows_agree e → (Epochs.pick e event feature time h).1 = Ok c → rows_agree c.
Proof.
  intros Hrows. rewrite pick_fst.
  intros (se & sf & st & Hev & Hd & _)%pick_result_inv.
  apply index_axis0_inv in Hev as (ps & Hps & _ & Hlen).
  apply index3_inv in Hd as (pe & Hpe & Hlen').
  unfold rows_agree in *. rewrite <-Hrows, Hps in Hpe. simplify_eq. congruence.
Qed.

Lemma pick_labels_known e event feature time (h : heap) c :
  labels_known e → (Epochs.pick e event feature time h).1 = Ok c → labels_known c.
Proof.
  intros Hknown. rewrite pick_fst.
  intros (se & sf & st & Hev & _ & Hid)%pick_result_inv.
  apply index_axis0_inv in Hev as (ps & _ & Hevs & _).
  unfold labels_known. rewrite Hid. apply pruned_labels_known with (Epochs.events e); [done|].
  rewrite Hevs. intros x. apply gather_elem_of.
Qed.

Lemma drop_events_rows_agree e ids c :
  rows_agree e → Epochs.drop_events e ids = Ok c → rows_agree c.
Proof.
  intros Hrows. unfold Epochs.drop_events, Epochs.copy, _copy.
  destruct (Np.delete (items _) ids) as [d|] eqn:Hd; [|done]. cbn [mbind result_bind].
  destruct (Np.delete (Epochs.events e) ids) as [evs|] eqn:Hevs; [|done].
  cbn [mbind result_bind]. intros [= <-].
  apply delete_inv in Hd as (ps & Hps & _ & Hlen).
  apply delete_inv in Hevs as (ps' & Hps' & Hevs & Hlen').
  unfold rows_agree in *. rewrite <-Hrows, Hps' in Hps. simplify_eq.
  cbn [Epochs.events Epochs.data items]. congruence.
Qed.

Lemma drop_events_labels_known e ids c :
  labels_known e → Epochs.drop_events e ids = Ok c → labels_known c.
Proof.
  intros Hknown. unfold Epochs.drop_events, Epochs.copy, _copy.
  destruct (Np.delete (items _) ids) as [d|]; [|done]. cbn [mbind result_bind].
  destruct (Np.delete (Epochs.events e) ids) as [evs|] eqn:Hevs; [|done].
  cbn [mbind result_bind]. intros [= <-].
  apply delete_inv in Hevs as (ps' & _ & Hevs & _).
  unfold labels_known. cbn [Epochs.events Epochs.event_id].
  apply pruned_labels_known with (Epochs.events e); [done|].
  rewrite Hevs. intros x. apply gather_elem_of.
Qed.

Lemma concatinate_rows_agree l c :
  Forall rows_agree l → concatinate_epochs l = Ok c → rows_agree c.
Proof.
  intros Hrows. unfold concatinate_epochs.
  destruct (getitem l 0) as [first|]; [|done]. cbn [mbind result_bind].
  destruct (concatenate _) as [d|] eqn:Hd; [|done]. cbn [mbind result_bind].
  intros [= <-]. apply concatenate_inv in Hd.
  unfold rows_agree. cbn [Epochs.events Epochs.data]. rewrite Hd.
  by apply concat_length_agree.
Qed.

Lemma concatinate_labels_known l c :
  Forall labels_known l → dicts_agree l →
  concatinate_epochs l = Ok c → labels_known c.
Proof.
  intros Hknown Hagree. unfold concatinate_epochs.
  destruct (getitem l 0) as [first|]; [|done]. cbn [mbind result_bind].
  destruct (concatenate _) as [d|] eqn:Hd; [|done]. cbn [mbind result_bind].
  intros [= <-].
  unfold labels_known. cbn [Epochs.events Epochs.event_id].
  intros id (ev & -> & Hev)%list_elem_of_fmap.
  apply elem_of_concat in Hev as (evs & (e & -> & He)%list_elem_of_fmap & Hev).
  rewrite Forall_forall in Hknown.
  destruct (Hknown e He (label ev)) as [name Hname].
  { apply list_elem_of_fmap. eauto. }
  exists name.
  destruct (merged_lookup_is_Some l ∅ name) as [id' Hid'].
  { right. exists e. eauto. }
  rewrite Hid'. f_equal.
  apply merged_lookup_Some in Hid' as [?|(e' & He' & Hname')]; [done|].
  by eapply (Hagree e' e).
Qed.

(** C9, as the code has it. Whatever [pick], [drop_events] or
    [concatinate_epochs] returns has as many tensor rows as event rows
    whenever the collections it was given have, on no further condition. It
    has a dictionary entry for every label of its events array when the
    collections it was given have one and no name stands for two different
    labels in their dictionaries (which is no condition for the single
    collection of [pick] and [drop_events]). *)
Theorem operations_preserve_invariants (l : list Epochs.t) (c : Epochs.t) :
  produced_by l c →
  (Forall rows_agree l → rows_agree c)
  ∧ (Forall labels_known l → dicts_agree l → labels_known c).
Proof.
  intros [e ev f t h c' Hc|e ids c' Hc|l' c' Hc]; split.
  - intros Hrows%Forall_inv. by eapply pick_rows_agree.
  - intros Hknown%Forall_inv _. by eapply pick_labels_known.
  - intros Hrows%Forall_inv. by eapply drop_events_rows_agree.
  - intros Hknown%Forall_inv _. by eapply drop_events_labels_known.
  - intros Hrows. by eapply concatinate_rows_agree.
  - intros Hknown Hagree. by eapply concatinate_labels_known.
Qed.

Lemma sample_labels_known : labels_known Sample.epochs0.
Proof.
  intros id Hid. unfold labels in Hid. cbn in Hid.
  apply elem_of_cons in Hid as [->|Hid]; [by exists "Cond/X"|].
  apply elem_of_cons in Hid as [->|Hid]; [by exists "Cond/Y"|].
  by apply elem_of_nil in Hid.
Defined.

Lemma operations_preserve_invariants_witness :
  rows_agree Sample.run_a12 ∧ labels_known Sample.epochs0_x.
Proof.
  split.
  - apply (operations_preserve_invariants [Sample.run_a1; Sample.run_a2] Sample.run_a12).
    + apply by_concatenation. vm_compute. reflexivity.
    + repeat constructor.
  - apply (operations_preserve_invariants [Sample.epochs0] Sample.epochs0_x).
    + apply (by_pick Sample.epochs0 (Some (Epochs.EvName "Cond/X")) None None Sample.heap1).
      vm_compute. reflexivity.
    + constructor; [exact sample_labels_known|constructor].
    + intros e1 e2 name id1 id2 He1 He2.
      apply list_elem_of_singleton in He1, He2. subst e1 e2. congruence.
Defined.

(** C9 as stated does not hold for concatenation: two runs that each have
    both properties but use the name ["A"] for the labels 1 and 2 are
    concatenated into a collection whose dictionary has no entry for the
    label 1 of its first event. *)
Lemma concatenation_loses_label :
  ¬ (∀ c, produced_by [Sample.run_a1; Sample.run_a2] c →
          Forall rows_agree [Sample.run_a1; Sample.run_a2] →
          Forall labels_known [Sample.run_a1; Sample.run_a2] →
          rows_agree c ∧ labels_known c).
Proof.
  intros Hclaim.
  destruct (Hclaim Sample.run_a12) as [_ Hknown].
  - apply by_concatenation. vm_compute. reflexivity.
  - repeat constructor.
  - constructor; [|constructor; [|constructor]].
    + intros id Hid. unfold labels in Hid. cbn in Hid.
      apply list_elem_of_singleton in Hid as ->. by exists "A".
    + intros id Hid. unfold labels in Hid. cbn in Hid.
      apply list_elem_of_singleton in Hid as ->. by exists "A".
  - destruct (Hknown 1%Z) as [name Hname].
    + unfold labels. cbn. apply elem_of_cons. by left.
    + cbn in Hname. apply lookup_singleton_Some in Hname as [_ ?]. done.
Qed.

End invariants.

(** ** Concatenation and selection *)

Section concatenation.

Lemma mapM_M_fst {A B} (f : A → M B) (g : A → result B) (l : list A) (h : heap) :
  (∀ x h', (f x h').1 = g x) → (mapM_M f l h).1 = mapM g l.
Proof.
  intros Hfg. revert h. induction l as [|x l IH]; intros h; [done|].
  cbn [mapM_M mapM]. unfold bind at 1. specialize (Hfg x h).
  destruct (f x h) as [[y|err] h']; cbn [fst] in Hfg; rewrite <-Hfg; [|done].
  cbn [mbind result_bind]. unfold bind. specialize (IH h').
  destruct (mapM_M f l h') as [[ys|err] h'']; cbn [fst] in IH; by rewrite <-IH.
Qed.

Lemma compress_flag_all {A} (evs : list event) (l : list A) :
  length evs = length l → compress (map (λ _ : event, true) evs) l = l.
Proof.
  intros Hlen. apply compress_true; [by rewrite length_map|].
  apply Forall_forall. by intros b (? & -> & _)%list_elem_of_fmap.
Qed.

(** What [pick] returns for a selection by label is the selection of the
    flagged rows within the frame. *)
Lemma pick_result_frame e event feature time rflag :
  event_flag (Epochs.event_id e) event = Some rflag → rows_agree e →
  pick_result e event feature time =
    flag ← rflag;
    frame ← selection_frame (Epochs.times e) (n_features (Epochs.data e))
               (n_times (Epochs.data e)) feature time;
    Ok (select_rows flag frame e).
Proof.
  intros Hflag Hrows. unfold rows_agree in Hrows.
  assert (∀ flag sel_event,
    sel_event_of e event = Ok sel_event →
    sel_event = IxMask (map flag (Epochs.events e)) ∨
    (sel_event = IxAll ∧ flag = λ _, true) →
    pick_result e event feature time =
      frame ← selection_frame (Epochs.times e) (n_features (Epochs.data e))
                 (n_times (Epochs.data e)) feature time;
      Ok (select_rows flag frame e)) as Hmain.
  { intros flag sel_event Hsel Hcase. unfold pick_result, selection_frame, index3.
    assert (index_axis0 sel_event (Epochs.events e)
            = Ok (compress (map flag (Epochs.events e)) (Epochs.events e))) as Hev.
    { destruct Hcase as [->|[-> ->]].
      - apply index_axis0_mask. by rewrite length_map.
      - by rewrite index_axis0_all, compress_flag_all. }
    assert (∃ pe, resolve sel_event (length (items (Epochs.data e))) = Ok pe
            ∧ gather (items (Epochs.data e)) pe
              = compress (map flag (Epochs.events e)) (items (Epochs.data e)))
      as (pe & Hpe & Hit).
    { destruct Hcase as [->|[-> ->]].
      - eexists. cbn [resolve]. rewrite length_map, Hrows, Nat.eqb_refl. split; [done|].
        apply gather_nonzero_from_0. by rewrite length_map.
      - eexists. rewrite resolve_all. split; [done|].
        rewrite gather_seq_all_0. by rewrite compress_flag_all. }
    rewrite Hsel. cbn [mbind result_bind]. rewrite Hev, Hpe. cbn [mbind result_bind].
    destruct (index_axis0 _ (Epochs.times e)) as [ts'|]; cbn [mbind result_bind]; [|done].
    destruct (getitem ts' 0); cbn [mbind result_bind]; [|done].
    destruct (last ts'); cbn [mbind result_bind]; [|done].
    destruct (resolve _ (n_features _)) as [pf|]; cbn [mbind result_bind]; [|done].
    destruct (resolve _ (n_times _)) as [pt|]; cbn [mbind result_bind]; [|done].
    unfold select_rows. by rewrite Hit. }
  unfold event_flag in Hflag.
  destruct event as [[s|[|s l]|ix]|]; simplify_eq; cbn [mbind result_bind].
  - eapply Hmain; [unfold sel_event_of; by rewrite partial_match_Ok|]. by left.
  - unfold pick_result, sel_event_of. done.
  - eapply Hmain; [unfold sel_event_of; by rewrite partial_match_Ok|]. by left.
  - eapply Hmain; [done|]. by right.
Qed.

Lemma merged_same (d : gmap string Z) (l : list Epochs.t) (acc : gmap string Z) :
  l ≠ [] → Forall (λ e, Epochs.event_id e = d) l →
  foldl (λ m e, Epochs.event_id e ∪ m) acc l = d ∪ acc.
Proof.
  intros Hl Hd. revert acc. induction Hd as [|e l He Hd IH]; [done|]. intros acc.
  cbn [foldl]. rewrite He. destruct l as [|e' l]; [done|].
  rewrite IH by done. by rewrite (assoc_L (∪)), (idemp_L (∪)).
Qed.

(** Concatenation of collections with the same inner extents. *)
Lemma concatinate_Ok (l : list Epochs.t) (r0 : Epochs.t) (nf nt : nat) :
  l !! 0 = Some r0 →
  Forall (λ e, n_features (Epochs.data e) = nf ∧ n_times (Epochs.data e) = nt) l →
  concatinate_epochs l =
    Ok {| Epochs.events := concat (map Epochs.events l);
          Epochs.event_id := foldl (λ m e, Epochs.event_id e ∪ m) ∅ l;
          Epochs.info := Epochs.info r0; Epochs.times := Epochs.times r0;
          Epochs.data := {| n_features := nf; n_times := nt;
                            items := concat (map items (map Epochs.data l)) |} |}.
Proof.
  intros Hr0 Hdims. unfold concatinate_epochs, Epochs.copy, _copy, getitem.
  rewrite Hr0. cbn [mbind result_bind].
  assert (concatenate (map Epochs.data l)
          = Ok {| n_features := nf; n_times := nt;
                  items := concat (map items (map Epochs.data l)) |}) as ->; [|done].
  unfold concatenate. destruct l as [|r l']; [done|]. cbn in Hr0. simplify_eq.
  pose proof (Forall_inv Hdims) as [Hf Ht].
  assert (forallb (λ b, (n_features b =? n_features (Epochs.data r0)) &&
                        (n_times b =? n_times (Epochs.data r0)))
                  (map Epochs.data (r0 :: l')) = true) as Hall.
  { apply forallb_forall. intros b (e & <- & He)%in_map_iff.
    rewrite Forall_forall in Hdims. destruct (Hdims e) as [-> ->].
    - by apply list_elem_of_In.
    - by rewrite Hf, Ht, !Nat.eqb_refl. }
  cbn [map] in Hall |- *. rewrite Hall. by rewrite Hf, Ht.
Qed.

Lemma compress_concat {A} (flag : event → bool) (get : Epochs.t → list A)
    (l : list Epochs.t) :
  Forall (λ e, length (Epochs.events e) = length (get e)) l →
  compress (map flag (concat (map Epochs.events l))) (concat (map get l))
  = concat (map (λ e, compress (map flag (Epochs.events e)) (get e)) l).
Proof.
  induction 1 as [|e l He _ IH]; [done|].
  cbn [map concat]. rewrite map_app, compress_app by by rewrite length_map.
  by rewrite IH.
Qed.

Lemma mapM_frame {A B C} (r : result A) (fr : result B) (g : A → B → C → C)
    (x : C) (l : list C) :
  mapM (λ e, a ← r; b ← fr; Ok (g a b e)) (x :: l)
  = a ← r; b ← fr; Ok (map (g a b) (x :: l)).
Proof.
  destruct r as [a|]; [|done]. destruct fr as [b|]; [|done].
  cbn [mbind result_bind]. generalize (x :: l). intros k.
  induction k as [|y k IH]; [done|].
  cbn [mapM map mbind result_bind]. unfold mbind in IH. rewrite IH. done.
Qed.

Lemma labels_concat (ls : list (list event)) id :
  id ∈ labels (concat ls) ↔ ∃ evs, evs ∈ ls ∧ id ∈ labels evs.
Proof.
  unfold labels. rewrite list_elem_of_fmap. split.
  - intros (ev & -> & (evs & ? & ?)%elem_of_concat). exists evs. split; [done|].
    apply list_elem_of_fmap. eauto.
  - intros (evs & Hevs & (ev & -> & Hev)%list_elem_of_fmap). exists ev. split; [done|].
    apply elem_of_concat. eauto.
Qed.

(** The merged dictionary of the per-run selections is the dictionary
    pruned to the labels of all selected events. *)
Lemma merged_pruned (d : gmap string Z) (sel : Epochs.t → list event) (f : Epochs.t → Epochs.t)
    (l : list Epochs.t) :
  (∀ e, e ∈ l → Epochs.event_id (f e) = filter (λ p, p.2 ∈ labels (sel e)) d) →
  foldl (λ m e, Epochs.event_id e ∪ m) ∅ (map f l)
  = filter (λ p, p.2 ∈ labels (concat (map sel l))) d.
Proof.
  intros Hf. apply map_eq. intros name. apply option_eq. intros id.
  rewrite map_lookup_filter_Some. cbn [snd].
  assert (∀ id', foldl (λ m e, Epochs.event_id e ∪ m) ∅ (map f l) !! name = Some id' →
            d !! name = Some id' ∧ id' ∈ labels (concat (map sel l))) as Hfwd.
  { intros id' [?|(e' & (e & -> & He)%list_elem_of_fmap & Hlook)]%merged_lookup_Some; [done|].
    rewrite Hf in Hlook by done. apply map_lookup_filter_Some in Hlook as [? ?].
    split; [done|]. apply labels_concat. exists (sel e). split; [|done].
    apply list_elem_of_fmap. eauto. }
  split; [apply Hfwd|].
  intros [Hd (evs & (e & -> & He)%list_elem_of_fmap & Hid)%labels_concat].
  destruct (merged_lookup_is_Some (map f l) ∅ name) as [id' Hid'].
  { right. exists (f e). split; [apply list_elem_of_fmap; eauto|].
    rewrite Hf by done. exists id. by apply map_lookup_filter_Some. }
  rewrite Hid'. f_equal. apply Hfwd in Hid' as [? _]. congruence.
Qed.

(** Selecting the flagged rows of a concatenation is concatenating the
    selections. *)
Lemma select_rows_concat flag frame (d : gmap string Z) (ts : list Qc) (nf nt : nat)
    (l : list Epochs.t) (r0 c : Epochs.t) :
  l !! 0 = Some r0 →
  Forall (same_dataset d ts nf nt) l →
  concatinate_epochs l = Ok c →
  view <$> concatinate_epochs (map (select_rows flag frame) l)
  = Ok (view (select_rows flag frame c)).
Proof.
  intros Hr0 Hsame Hc.
  assert (Forall (λ e, n_features (Epochs.data e) = nf ∧ n_times (Epochs.data e) = nt) l)
    as Hdims.
  { eapply Forall_impl; [exact Hsame|]. by intros e (_ & _ & ? & ? & _). }
  assert (Forall (λ e, length (Epochs.events e) = length (items (Epochs.data e))) l)
    as Hrows.
  { eapply Forall_impl; [exact Hsame|]. by intros e (_ & _ & _ & _ & ?). }
  assert (foldl (λ m e, Epochs.event_id e ∪ m) ∅ l = d) as Hmerged.
  { rewrite (merged_same d); [by rewrite (right_id_L ∅ (∪))|by intros ->|].
    eapply Forall_impl; [exact Hsame|]. by intros e (? & _). }
  rewrite (concatinate_Ok l r0 nf nt Hr0 Hdims) in Hc. injection Hc as <-.
  destruct frame as [[ts' pf] pt].
  rewrite (concatinate_Ok _ (select_rows flag (ts', pf, pt) r0) (length pf) (length pt)).
  2:{ by rewrite list_lookup_fmap, Hr0. }
  2:{ apply Forall_forall. by intros e (e' & -> & _)%list_elem_of_fmap. }
  cbn [fmap result_fmap]. f_equal. unfold view.
  cbn [Epochs.data Epochs.events Epochs.event_id select_rows n_features n_times items].
  rewrite Hmerged. f_equal; [f_equal|].
  - f_equal. rewrite !map_map. cbn [Epochs.data items select_rows].
    rewrite (compress_concat flag (λ e, items (Epochs.data e))) by done.
    rewrite concat_map, !map_map. done.
  - rewrite map_map. cbn [Epochs.events select_rows].
    rewrite (compress_concat flag Epochs.events); [done|].
    by apply Forall_forall.
  - rewrite (merged_pruned d (λ e, compress (map flag (Epochs.events e)) (Epochs.events e))).
    + f_equal. rewrite (compress_concat flag Epochs.events); [done|].
      by apply Forall_forall.
    + intros e He. rewrite Forall_forall in Hsame. by destruct (Hsame e He) as (<- & _).
Qed.

Lemma mapM_ext_in {A B} (f g : A → result B) (l : list A) :
  (∀ x, x ∈ l → f x = g x) → mapM f l = mapM g l.
Proof.
  induction l as [|x l IH]; intros Hfg; [done|]. cbn [mapM].
  rewrite Hfg by (apply elem_of_cons; by left).
  rewrite IH; [done|]. intros y Hy. apply Hfg, elem_of_cons. by right.
Qed.

Lemma bind_fst_lift {A B} (m : M A) (g : A → result B) (h : heap) :
  (bind m (λ a, lift (g a)) h).1 = (m h).1 ≫= g.
Proof. unfold bind, lift. by destruct (m h) as [[a|err] h']. Qed.

(** C6, as the code has it. For per-run collections of one dataset (one
    dictionary, one relative-time grid, the same inner extents, as many
    tensor rows as events in each run) and a selection whose event part is
    absent or given by label names, with any feature and time selection,
    concatenating and then selecting gives the same data tensor, events
    array and pruned dictionary as selecting in each run and then
    concatenating, in run order; when one side raises, the other raises the
    same exception. *)
Theorem concatenate_then_select (runs : list Epochs.t) (event : option Epochs.event_arg)
    (feature : option pyindex) (time : option Epochs.time_arg)
    (d : gmap string Z) (ts : list Qc) (nf nt : nat) (h : heap) :
  runs ≠ [] →
  Forall (same_dataset d ts nf nt) runs →
  by_label event →
  view <$> (bind (lift (concatinate_epochs runs))
                 (λ c, Epochs.pick c event feature time) h).1
  = view <$> (bind (mapM_M (λ r, Epochs.pick r event feature time) runs)
                   (λ rs, lift (concatinate_epochs rs)) h).1.
Proof.
  intros Hne Hsame Hlabel.
  destruct (runs !! 0) as [r0|] eqn:Hr0; [|by destruct runs].
  assert (Forall (λ e, n_features (Epochs.data e) = nf ∧ n_times (Epochs.data e) = nt) runs)
    as Hdims.
  { eapply Forall_impl; [exact Hsame|]. by intros e (_ & _ & ? & ? & _). }
  assert (Forall rows_agree runs) as Hrows.
  { eapply Forall_impl; [exact Hsame|]. by intros e (_ & _ & _ & _ & ?). }
  assert (foldl (λ m e, Epochs.event_id e ∪ m) ∅ runs = d) as Hmerged.
  { rewrite (merged_same d); [by rewrite (right_id_L ∅ (∪))|done|].
    eapply Forall_impl; [exact Hsame|]. by intros e (? & _). }
  assert (Epochs.times r0 = ts) as Hts.
  { rewrite Forall_forall in Hsame. apply (Hsame r0). by eapply list_elem_of_lookup_2. }
  assert (∃ rflag, event_flag d event = Some rflag) as [rflag Hflag].
  { unfold event_flag. destruct event as [[s|[|s l]|ix]|]; by eauto. }
  pose proof (concatinate_Ok runs r0 nf nt Hr0 Hdims) as Hc.
  rewrite bind_lift, bind_fst_lift.
  rewrite (mapM_M_fst _ (λ r, pick_result r event feature time))
    by (intros; apply pick_fst).
  rewrite (mapM_ext_in _ (λ r, flag ← rflag; frame ← selection_frame ts nf nt feature time;
                               Ok (select_rows flag frame r))).
  2:{ intros r Hr. rewrite Forall_forall in Hsame.
      destruct (Hsame r Hr) as (Hd & Ht & Hf & Hn & Hra).
      rewrite (pick_result_frame r event feature time rflag), Ht, Hf, Hn; [done| |done].
      by rewrite Hd. }
  rewrite Hc, pick_fst.
  rewrite (pick_result_frame _ event feature time rflag).
  2:{ cbn [Epochs.event_id]. by rewrite Hmerged. }
  2:{ unfold rows_agree. cbn [Epochs.events Epochs.data items].
      by apply concat_length_agree. }
  cbn [Epochs.times Epochs.data n_features n_times]. rewrite Hts.
  destruct runs as [|r runs']; [done|]. rewrite mapM_frame.
  destruct rflag as [flag|err]; [|done]. cbn [mbind result_bind].
  destruct (selection_frame ts nf nt feature time) as [frame|err]; [|done].
  cbn [mbind result_bind]. rewrite Hts in Hc. symmetry.
  exact (select_rows_concat flag frame d ts nf nt _ r0 _ Hr0 Hsame Hc).
Qed.

Lemma concatenate_then_select_witness :
  view <$> (bind (lift (concatinate_epochs [Sample.epochs0; Sample.run_b]))
                 (λ c, Epochs.pick c (Some (Epochs.EvName "Cond/X")) None None)
                 Sample.heap2).1
  = view <$> (bind (mapM_M (λ r, Epochs.pick r (Some (Epochs.EvName "Cond/X")) None None)
                           [Sample.epochs0; Sample.run_b])
                   (λ rs, lift (concatinate_epochs rs)) Sample.heap2).1.
Proof.
  apply (concatenate_then_select [Sample.epochs0; Sample.run_b]
           (Some (Epochs.EvName "Cond/X")) None None Sample.cond_xy
           (map Sample.z [-1; 0; 1]%Z) 1 3 Sample.heap2).
  - discriminate.
  - repeat constructor.
  - exact I.
Defined.

(** The two sides of the scenario: the events labelled 1 of both runs, in
    run order, and the dictionary pruned to ["Cond/X"]. *)
Example concatenate_then_select_scenario :
  view <$> (bind (lift (concatinate_epochs [Sample.epochs0; Sample.run_b]))
                 (λ c, Epochs.pick c (Some (Epochs.EvName "Cond/X")) None None)
                 Sample.heap2).1
  = Ok ({| n_features := 1; n_times := 3;
           items := [[[Some (Sample.z 1); Some (Sample.z 2); Some (Sample.z 6)]];
                     [[Some (Sample.z 0); Some (Sample.z 1); Some (Sample.z 2)]]] |},
        [Event (Sample.z 5) (Sample.z 0) 1; Event (Sample.z 7) (Sample.z 0) 1],
        {[ "Cond/X" := 1%Z ]}).
Proof. vm_compute. reflexivity. Qed.

(** C6 as stated does not hold for a selection by position: the index
    list [[0]] picks one event of the concatenation, but one event of every
    run. *)
Lemma concatenate_then_index_differs :
  view <$> (bind (lift (concatinate_epochs [Sample.epochs0; Sample.run_b]))
                 (λ c, Epochs.pick c (Some (Epochs.EvIx (IxInts [0%Z]))) None None)
                 Sample.heap2).1
  ≠ view <$> (bind (mapM_M (λ r, Epochs.pick r (Some (Epochs.EvIx (IxInts [0%Z]))) None None)
                           [Sample.epochs0; Sample.run_b])
                   (λ rs, lift (concatinate_epochs rs)) Sample.heap2).1.
Proof. vm_compute. intros [=]. Qed.

End concatenation.

(** ** read_events *)

Section timing_files.

Variable float : string → option Qc.

Lemma getitem_error {A} (l : list A) i err : getitem l i = Raise err → err = IndexError.
Proof. unfold getitem. destruct (l !! i); by intros [= <-]. Qed.

Lemma read_line_error eid rid line st err :
  read_line float eid rid line st = Raise err → err = IndexError ∨ err = ValueError.
Proof.
  unfold read_line. case_bool_decide; [done|].
  destruct (negb _); [|done].
  destruct (mapM _ _) as [t_run|err'] eqn:Hparse; cbn [mbind result_bind].
  - destruct (getitem (if eid =? 0 then st.1 ++ [[]] else st.1) rid) as [t_rid|err'] eqn:Ht;
      cbn [mbind result_bind].
    + destruct (getitem (if eid =? 0 then st.2 ++ [[]] else st.2) rid) as [e_rid|err']
        eqn:He; cbn [mbind result_bind]; [done|].
      intros [= <-]. left. by eapply getitem_error.
    + intros [= <-]. left. by eapply getitem_error.
  - intros [= <-]. right. revert err' Hparse.
    induction (split_ws (strip line)) as [|tok toks IH]; intros err' Hparse; [done|].
    cbn [mapM] in Hparse. destruct (float tok); cbn [mbind result_bind] in Hparse.
    + destruct (mapM _ toks) as [|err'']; cbn [mbind result_bind] in Hparse; [done|].
      simplify_eq. by eapply IH.
    + by simplify_eq.
Qed.

Lemma read_line_length eid rid line st st' :
  eid ≠ 0 → read_line float eid rid line st = Ok st' → length st'.1 = length st.1.
Proof.
  intros Heid. unfold read_line. case_bool_decide; [by intros [= <-]|].
  rewrite (proj2 (Nat.eqb_neq eid 0)) by done.
  destruct (negb _); [|by intros [= <-]].
  destruct (mapM _ _) as [t_run|]; cbn [mbind result_bind]; [|done].
  destruct (getitem st.1 rid); cbn [mbind result_bind]; [|done].
  destruct (getitem st.2 rid); cbn [mbind result_bind]; [|done].
  intros [= <-]. cbn [fst]. by rewrite length_insert.
Qed.

Lemma read_line_length_first rid line st st' :
  read_line float 0 rid line st = Ok st' →
  length st'.1 = length st.1 + run_count [line].
Proof.
  unfold read_line, run_count. cbn [filter list_filter Nat.eqb].
  case_bool_decide as Hblank.
  - intros [= <-]. rewrite decide_False by (by intros ?). cbn [length]. lia.
  - rewrite decide_True by done. cbn [length].
    destruct (negb _).
    + destruct (mapM _ _) as [t_run|]; cbn [mbind result_bind]; [|done].
      destruct (getitem (st.1 ++ [[]]) rid); cbn [mbind result_bind]; [|done].
      destruct (getitem (st.2 ++ [[]]) rid); cbn [mbind result_bind]; [|done].
      intros [= <-]. cbn [fst]. rewrite length_insert, length_app. cbn [length]. lia.
    + intros [= <-]. cbn [fst]. rewrite length_app. cbn [length]. lia.
Qed.

(** An onset line of a later file beyond the known runs raises. *)
Lemma read_line_beyond eid rid line st :
  eid ≠ 0 → onset_line line → length st.1 ≤ rid →
  ∃ err, read_line float eid rid line st = Raise err.
Proof.
  intros Heid [Hblank Hstar] Hlen. unfold read_line.
  rewrite bool_decide_eq_false_2 by done.
  rewrite (proj2 (Nat.eqb_neq eid 0)) by done. rewrite Hstar. cbn [negb].
  destruct (mapM _ _) as [t_run|err]; cbn [mbind result_bind]; [|by eexists].
  unfold getitem. rewrite (lookup_ge_None_2 st.1 rid) by done. by eexists.
Qed.

Lemma read_lines_length eid rid lines st st' :
  eid ≠ 0 → read_lines float eid rid lines st = Ok st' → length st'.1 = length st.1.
Proof.
  intros Heid. revert rid st. induction lines as [|line lines IH]; intros rid st.
  - by intros [= <-].
  - cbn [read_lines]. destruct (read_line _ _ _ _ _) as [st1|] eqn:Hline;
      cbn [mbind result_bind]; [|done].
    intros ->%IH. by eapply read_line_length.
Qed.

Lemma run_count_cons line lines : run_count (line :: lines) = run_count [line] + run_count lines.
Proof.
  unfold run_count. cbn [filter list_filter]. by destruct (decide _).
Qed.

Lemma read_lines_length_first rid lines st st' :
  read_lines float 0 rid lines st = Ok st' →
  length st'.1 = length st.1 + run_count lines.
Proof.
  revert rid st. induction lines as [|line lines IH]; intros rid st.
  - intros [= <-]. unfold run_count. cbn. lia.
  - cbn [read_lines]. destruct (read_line _ _ _ _ _) as [st1|] eqn:Hline;
      cbn [mbind result_bind]; [|done].
    intros ->%IH. apply read_line_length_first in Hline. rewrite Hline.
    rewrite (run_count_cons line lines). lia.
Qed.

Lemma read_lines_beyond eid rid lines st i line :
  eid ≠ 0 → lines !! i = Some line → onset_line line → length st.1 ≤ rid + i →
  ∃ err, read_lines float eid rid lines st = Raise err.
Proof.
  intros Heid. revert rid st i. induction lines as [|l lines IH]; intros rid st i; [done|].
  cbn [read_lines]. destruct i as [|i]; cbn [lookup list_lookup].
  - intros [= ->] Honset Hlen.
    destruct (read_line_beyond eid rid line st) as [err ->]; [done|done|lia|].
    by eexists.
  - intros Hi Honset Hlen.
    destruct (read_line _ _ _ _ _) as [st1|err] eqn:Hline; cbn [mbind result_bind];
      [|by eexists].
    apply (IH (S rid) st1 i Hi Honset).
    apply read_line_length in Hline; [|done]. lia.
Qed.

Lemma read_lines_error eid rid lines st err :
  read_lines float eid rid lines st = Raise err → err = IndexError ∨ err = ValueError.
Proof.
  revert rid st. induction lines as [|l lines IH]; intros rid st; [done|].
  cbn [read_lines]. destruct (read_line _ _ _ _ _) as [st1|err'] eqn:Hline;
    cbn [mbind result_bind].
  - apply IH.
  - intros [= <-]. by eapply read_line_error.
Qed.

Lemma read_files_error eid files st d err :
  read_files float eid files st d = Raise err → err = IndexError ∨ err = ValueError.
Proof.
  revert eid st d. induction files as [|[name lines] files IH]; intros eid st d; [done|].
  cbn [read_files]. destruct (read_lines _ _ _ _ _) as [st1|err'] eqn:Hlines;
    cbn [mbind result_bind].
  - apply IH.
  - intros [= <-]. by eapply read_lines_error.
Qed.

Lemma read_files_beyond eid files st d k name lines i line :
  eid ≠ 0 → files !! k = Some (name, lines) →
  lines !! i = Some line → onset_line line → length st.1 ≤ i →
  ∃ err, read_files float eid files st d = Raise err.
Proof.
  intros Heid. revert eid Heid st d k.
  induction files as [|[name' lines'] files IH]; intros eid Heid st d k; [done|].
  cbn [read_files]. destruct k as [|k]; cbn [lookup list_lookup].
  - intros [= -> ->] Hi Honset Hlen.
    destruct (read_lines_beyond eid 0 lines st i line) as [err ->]; [done..|].
    by eexists.
  - intros Hk Hi Honset Hlen.
    destruct (read_lines _ _ _ _ _) as [st1|err] eqn:Hlines; cbn [mbind result_bind];
      [|by eexists].
    apply (IH (S eid) ltac:(lia) st1 _ k Hk Hi Honset).
    apply read_lines_length in Hlines; [|done]. lia.
Qed.

End timing_files.

(** ** The epoch at the onset, for a window that starts on the grid *)

Section on_grid.
Local Open Scope Qc_scope.

Lemma Qc_ceiling_unique (q : Qc) (n : Z) :
  Qc_of_Z (n - 1) < q → q ≤ Qc_of_Z n → Qceiling q = n.
Proof.
  intros Hlo Hhi. apply Z.le_antisymm.
  - rewrite <-(Qceiling_Z n). by apply Qceiling_resp_le.
  - assert (Qc_of_Z (n - 1) < Qc_of_Z (Qceiling q)) as Hlt
      by (eapply Qclt_le_trans; [exact Hlo|apply Qc_ceiling_upper]).
    apply (proj2 (Z2Qc_inj_lt (n - 1) (Qceiling q))) in Hlt. lia.
Qed.

Lemma Qc_half_pos : 0 < 1 / 2.
Proof. by vm_compute. Qed.

Lemma Qc_half_lt_1 : 1 / 2 < 1.
Proof. by vm_compute. Qed.

(** The negative branch of the grid has [k] samples when [tmin = -k dt]. *)
Lemma arange_len_negative_branch (k : nat) (dt : Qc) :
  0 < dt →
  arange_len (- dt) (- (Qc_of_Z (Z.of_nat k) * dt) - dt / 2) (- dt) = k.
Proof.
  intros Hdt. unfold arange_len.
  replace ((- (Qc_of_Z (Z.of_nat k) * dt) - dt / 2 - - dt) / - dt)
    with (Qc_of_Z (Z.of_nat k) - 1 / 2).
  2:{ field. split; [by vm_compute|].
      intros Hz. apply (Qc_pos_ne_0 _ Hdt). rewrite <-(Qcopp_involutive dt), Hz. ring. }
  rewrite (Qc_ceiling_unique _ (Z.of_nat k)); [lia| |].
  - rewrite Z2Qc_inj_sub, Z2Qc_inj_1. pose proof Qc_half_lt_1.
    generalize dependent (1 / 2). intros half ?. qc_lra.
  - pose proof Qc_half_pos. generalize dependent (1 / 2). intros half ?. qc_lra.
Qed.

(** The non-negative branch of the grid is not empty. *)
Lemma arange_len_positive_branch (tmax dt : Qc) :
  0 < dt → 0 < tmax → (0 < arange_len 0 (tmax + dt / 2) dt)%nat.
Proof.
  intros Hdt Hmax.
  pose proof (arange_up_past 0 (tmax + dt / 2) dt Hdt) as Hpast.
  destruct (arange_len 0 (tmax + dt / 2) dt) as [|m]; [|lia].
  exfalso. change (Z.of_nat 0) with 0%Z in Hpast. rewrite Z2Qc_inj_0 in Hpast.
  assert (0 < dt / 2) as Hhalf by (apply Qcmult_pos_pos; [done|by vm_compute]).
  replace (0 + 0 * dt) with (Q2Qc 0) in Hpast by ring.
  revert Hpast Hhalf. generalize (dt / 2). intros half ??. qc_lra.
Qed.

(** The range of an epoch has more than [k] samples. *)
Lemma arange_len_epoch (k : nat) (t tmax dt : Qc) :
  0 < dt → 0 < tmax →
  (k < arange_len (t + - (Qc_of_Z (Z.of_nat k) * dt)) (t + tmax + dt / 2) dt)%nat.
Proof.
  intros Hdt Hmax.
  pose proof (arange_up_past (t + - (Qc_of_Z (Z.of_nat k) * dt)) (t + tmax + dt / 2) dt Hdt)
    as Hpast.
  set (n := arange_len _ _ _) in *.
  destruct (decide (k < n)%nat) as [|Hge]; [done|]. exfalso.
  assert (Qc_of_Z (Z.of_nat n) ≤ Qc_of_Z (Z.of_nat k)) as Hnk
    by (apply (proj1 (Z2Qc_inj_le (Z.of_nat n) (Z.of_nat k))); lia).
  apply (Qcmult_le_compat_r _ _ dt) in Hnk; [|by apply Qclt_le_weak].
  assert (0 < dt / 2) as Hhalf by (apply Qcmult_pos_pos; [done|by vm_compute]).
  revert Hpast Hnk Hhalf.
  generalize (Qc_of_Z (Z.of_nat n) * dt) (Qc_of_Z (Z.of_nat k) * dt) (dt / 2).
  intros a b half ???. qc_lra.
Qed.

Lemma mapM_Ok_lookup {A B} (f : A → result B) (l : list A) (k : list B) i x :
  mapM f l = Ok k → l !! i = Some x → ∃ y, k !! i = Some y ∧ f x = Ok y.
Proof.
  intros H%mapM_Ok_Forall2 Hx.
  destruct (Forall2_lookup_l _ _ _ _ _ H Hx) as (y & ? & ?). eauto.
Qed.

(** With [tmin = -k dt] the grid has its sample [0] at position [k]. *)
Lemma epoch_times_on_grid (k : nat) (tmax dt : Qc) :
  0 < dt → 0 < tmax → (0 < k)%nat →
  ∃ grid, Epochs.epoch_times (- (Qc_of_Z (Z.of_nat k) * dt)) tmax dt = Ok grid
          ∧ grid !! k = Some 0.
Proof.
  intros Hdt Hmax Hk.
  assert (dt ≠ 0) as Hne by by apply Qc_pos_ne_0.
  assert (- dt ≠ 0) as Hne'.
  { intros Hz. apply Hne. rewrite <-(Qcopp_involutive dt), Hz. ring. }
  assert (- (Qc_of_Z (Z.of_nat k) * dt) < 0) as Hmin.
  { assert (0 < Qc_of_Z (Z.of_nat k) * dt) as Hpos.
    { apply Qcmult_pos_pos; [|done]. rewrite <-Z2Qc_inj_0.
      apply (proj1 (Z2Qc_inj_lt 0 (Z.of_nat k))). lia. }
    revert Hpos. generalize (Qc_of_Z (Z.of_nat k) * dt). intros p ?. qc_lra. }
  unfold Epochs.epoch_times.
  rewrite !bool_decide_eq_true_2 by done. cbn [andb].
  rewrite !arange_Ok by done. cbn [mbind result_bind].
  rewrite arange_len_negative_branch by done.
  eexists. split; [done|].
  rewrite lookup_app_r; rewrite length_rev, length_map, length_seq; [|done].
  rewrite Nat.sub_diag.
  pose proof (arange_len_positive_branch tmax dt Hdt Hmax) as Hpos.
  destruct (arange_len 0 (tmax + dt / 2) dt) as [|m]; [lia|].
  cbn [seq map lookup list_lookup]. change (Z.of_nat 0) with 0%Z.
  rewrite Z2Qc_inj_0. f_equal. all: ring.
Qed.

(** On every recording, for every event and feature: when [tmin] is [k]
    whole steps before the onset ([k > 0]), [tmax] and [dt] are positive and
    the baseline is none, the grid has its sample [0] at position [k], and
    the epoch's value there is the interpolant of the feature at the
    onset. *)
Lemma epoch_at_zero_on_grid (interp1d : list Qc → list value → string → result (Qc → value))
    (filt : Z → list value → result (list value)) (fmt : Z → string)
    (raw : Raw.t) (events : list event) event_id (k : nat) (tmax dt : Qc) interp
    (hamm : option Z) conditions (h : heap) (e : Epochs.t) :
  0 < dt → 0 < tmax → (0 < k)%nat →
  (Epochs.__init__ interp1d filt fmt raw events event_id
     (- (Qc_of_Z (Z.of_nat k) * dt)) tmax (BaselineStr "none") dt interp hamm conditions h).1
  = Ok e →
  Epochs.times e !! k = Some 0
  ∧ ∃ (x : list (list value)) (f : list (Qc → value)),
      match hamm return result (list (list value)) with
      | None => Ok (Raw.data raw)
      | Some n => mapM (filt n) (Raw.data raw)
      end = Ok x
      ∧ mapM (λ row, interp1d (Raw.times raw) row interp) x = Ok f
      ∧ ∀ (i : nat) (ev : event) (j : nat) (fj : Qc → value),
          events !! i = Some ev → f !! j = Some fj →
          ∃ (m : list (list value)) (r : list value),
            items (Epochs.data e) !! i = Some m ∧ m !! j = Some r
            ∧ r !! k = Some (fj (onset ev)).
Proof.
  intros Hdt Hmax Hk.
  assert (dt ≠ 0) as Hne by by apply Qc_pos_ne_0.
  destruct (epoch_times_on_grid k tmax dt Hdt Hmax Hk) as (grid & Hgrid & Hzero).
  pose proof (λ t, arange_len_epoch k t tmax dt Hdt Hmax) as Hlen.
  assert (∀ t, t + - (Qc_of_Z (Z.of_nat k) * dt) + Qc_of_Z (Z.of_nat k) * dt = t) as Hback
    by (intros t; ring).
  revert Hgrid Hlen Hback. generalize (- (Qc_of_Z (Z.of_nat k) * dt)).
  intros tmin Hgrid Hlen Hback.
  unfold Epochs.__init__.
  rewrite bind_lift, bool_decide_eq_false_2 by done. rewrite !bind_setitem.
  rewrite bind_lift, Hgrid.
  rewrite bind_lift.
  destruct (match hamm with None => _ | Some _ => _ end) as [x|] eqn:Hx; [|done].
  rewrite bind_lift. destruct (mapM _ x) as [f|] eqn:Hf; [|done].
  rewrite bind_lift. cbn [create_base_corr_func default].
  rewrite bool_decide_eq_true_2 by done.
  rewrite bind_lift. destruct (mapM _ events) as [rows|] eqn:Hrows; [|done].
  unfold ret. cbn [fst]. intros [= <-]. cbn [Epochs.times Epochs.data items].
  split; [done|]. exists x, f. split_and!; [done..|].
  intros i ev j fj Hev Hfj.
  destruct (mapM_Ok_lookup _ _ _ _ _ Hrows Hev) as (row & Hlook & Hrow).
  exists row. cbn beta in Hrow.
  rewrite arange_Ok in Hrow by done. cbn [mbind result_bind] in Hrow.
  unfold call_base_corr in Hrow. cbn [mbind result_bind] in Hrow.
  rewrite !length_map, !length_seq in Hrow.
  specialize (Hlen (onset ev)). specialize (Hback (onset ev)).
  revert Hrow Hlen. generalize (arange_len (onset ev + tmin) (onset ev + tmax + dt / 2) dt).
  intros n' Hrow Hlen.
  unfold Epochs.setitem_row in Hrow.
  destruct (Nat.eqb_spec n' (length grid)) as [_|_].
  - rewrite map_id in Hrow. injection Hrow as <-. eexists. split; [done|].
    rewrite list_lookup_fmap, Hfj. cbn [fmap option_fmap option_map]. split; [done|].
    rewrite list_lookup_fmap, list_lookup_fmap, lookup_seq_lt by done.
    cbn [fmap option_fmap option_map]. by rewrite Nat.add_0_l, Hback.
  - destruct (Nat.eqb_spec n' 1) as [Hone|_]; [lia|done].
Qed.

End on_grid.

(** ** The grid of the constructor is one arithmetic progression *)

Section progression.
Local Open Scope Qc_scope.

Lemma Qc_of_nat_S (k : nat) : Qc_of_Z (Z.of_nat (S k)) = Qc_of_Z (Z.of_nat k) + 1.
Proof. rewrite Nat2Z.inj_succ, <- Z.add_1_r. apply Z2Qc_inj_add. Qed.

Lemma negative_branch_progression (dt : Qc) (k m : nat) :
  rev (map (λ i : nat, - dt + Qc_of_Z (Z.of_nat i) * - dt) (seq 0 k))
    ++ map (λ j : nat, 0 + Qc_of_Z (Z.of_nat j) * dt) (seq 0 m)
  = map (λ i : nat, - (Qc_of_Z (Z.of_nat k) * dt) + Qc_of_Z (Z.of_nat i) * dt)
        (seq 0 (k + m)).
Proof.
  induction k as [|k IH].
  - cbn [seq map rev app Nat.add]. apply map_ext. intros i.
    change (Z.of_nat 0) with 0%Z. rewrite Z2Qc_inj_0. ring.
  - rewrite seq_S, map_app, rev_app_distr. cbn [map rev app Nat.add].
    rewrite IH. cbn [seq map]. f_equal.
    + rewrite Qc_of_nat_S. change (Z.of_nat 0) with 0%Z. rewrite Z2Qc_inj_0. ring.
    + rewrite <- seq_shift, map_map. apply map_ext. intros i.
      rewrite !Qc_of_nat_S. ring.
Qed.

Lemma epoch_times_progression (tmin tmax dt : Qc) (grid : list Qc) :
  0 < dt → Epochs.epoch_times tmin tmax dt = Ok grid →
  ∃ base, grid = map (λ i : nat, base + Qc_of_Z (Z.of_nat i) * dt) (seq 0 (length grid)).
Proof.
  intros Hdt. pose proof (Qc_pos_ne_0 dt Hdt) as Hne.
  assert (- dt ≠ 0) as Hne'.
  { intros H. apply Hne. rewrite <- (Qcopp_involutive dt), H. reflexivity. }
  unfold Epochs.epoch_times.
  destruct (bool_decide (tmin < Q2Qc 0) && bool_decide (Q2Qc 0 < tmax)).
  - rewrite (arange_Ok _ _ _ Hne'), (arange_Ok _ _ _ Hne). cbn [mbind result_bind].
    intros [= <-]. eexists. rewrite negative_branch_progression.
    by rewrite length_map, length_seq.
  - rewrite (arange_Ok _ _ _ Hne). intros [= <-]. exists tmin.
    by rewrite length_map, length_seq.
Qed.

Lemma progression_lookup (base dt : Qc) (n i : nat) (a : Qc) :
  map (λ i : nat, base + Qc_of_Z (Z.of_nat i) * dt) (seq 0 n) !! i = Some a →
  a = base + Qc_of_Z (Z.of_nat i) * dt.
Proof.
  intros H. apply list_lookup_fmap_Some in H as (j & -> & Hj).
  apply lookup_seq in Hj as [-> _]. reflexivity.
Qed.

Lemma Qc_of_nat_lt (i j : nat) : (i < j)%nat → Qc_of_Z (Z.of_nat i) < Qc_of_Z (Z.of_nat j).
Proof. intros H. apply (proj1 (Z2Qc_inj_lt _ _)). lia. Qed.

(** X1: the two branches of the grid join into one progression, so that
    neighbouring samples are [dt] apart everywhere and the samples
    increase. *)
Theorem epoch_times_increasing (tmin tmax dt : Qc) (grid : list Qc) :
  0 < dt → Epochs.epoch_times tmin tmax dt = Ok grid →
  (∀ (i : nat) (a b : Qc), grid !! i = Some a → grid !! S i = Some b → b = a + dt)
  ∧ (∀ (i j : nat) (a b : Qc), (i < j)%nat →
       grid !! i = Some a → grid !! j = Some b → a < b).
Proof.
  intros Hdt Hgrid.
  destruct (epoch_times_progression _ _ _ _ Hdt Hgrid) as [base Heq].
  split.
  - intros i a b Ha Hb. rewrite Heq in Ha, Hb.
    apply progression_lookup in Ha, Hb. subst a b. rewrite Qc_of_nat_S. ring.
  - intros i j a b Hij Ha Hb. rewrite Heq in Ha, Hb.
    apply progression_lookup in Ha, Hb. subst a b.
    pose proof (Qcmult_lt_compat_r _ _ dt Hdt (Qc_of_nat_lt i j Hij)) as H.
    revert H. generalize (Qc_of_Z (Z.of_nat i) * dt) (Qc_of_Z (Z.of_nat j) * dt).
    clear. intros p q H. qc_lra.
Qed.

Lemma epoch_times_increasing_witness :
  (∀ (i : nat) (a b : Qc),
     map Sample.z [-2; -1; 0; 1; 2; 3; 4; 5; 6]%Z !! i = Some a →
     map Sample.z [-2; -1; 0; 1; 2; 3; 4; 5; 6]%Z !! S i = Some b → b = a + Sample.z 1)
  ∧ (∀ (i j : nat) (a b : Qc), (i < j)%nat →
       map Sample.z [-2; -1; 0; 1; 2; 3; 4; 5; 6]%Z !! i = Some a →
       map Sample.z [-2; -1; 0; 1; 2; 3; 4; 5; 6]%Z !! j = Some b → a < b).
Proof.
  apply (epoch_times_increasing (Sample.z (-2)) (Sample.z 6) (Sample.z 1)).
  - reflexivity.
  - vm_compute. reflexivity.
Defined.

End progression.

(** ** The shape of the tensor *)

Section shape.

Lemma mapM_Ok_length {A B} (f : A → result B) (l : list A) (k : list B) :
  mapM f l = Ok k → length k = length l.
Proof. intros H%mapM_Ok_Forall2. symmetry. by eapply Forall2_length. Qed.

Lemma base_corr_length times baseline method f n g :
  create_base_corr_func times baseline method = Ok (Some f) → f n = Ok g →
  ∀ x, length (g x) = length x.
Proof.
  unfold create_base_corr_func.
  destruct baseline as [|s|lo hi].
  - rewrite bool_decide_eq_true_2 by done. intros [= <-] [= <-]. done.
  - case_bool_decide.
    { intros [= <-] [= <-]. done. }
    case_bool_decide; [|done].
    intros [= <-] [= <-] x. by rewrite length_map.
  - destruct (match lo with None => _ | Some _ => _ end) as [t0|]; [|done].
    cbn [mbind result_bind].
    destruct (match hi with None => _ | Some _ => _ end) as [t1|]; [|done].
    cbn [mbind result_bind]. intros [= <-].
    destruct (_ =? _); [|done]. intros [= <-] x. by rewrite length_map.
Qed.

Lemma setitem_row_shape (n n' : nat) (y y' : list (list value)) :
  Epochs.setitem_row n n' y = Ok y' → Forall (λ r, length r = n') y →
  length y' = length y ∧ Forall (λ r, length r = n) y'.
Proof.
  unfold Epochs.setitem_row. intros Hset Hy.
  destruct (Nat.eqb_spec n' n) as [->|_]; [by simplify_eq|].
  destruct (Nat.eqb_spec n' 1) as [->|_]; [|done]. simplify_eq.
  rewrite length_map. split; [done|].
  apply List.Forall_map. eapply Forall_impl; [exact Hy|].
  intros [|v r] Hr; [done|]. by rewrite length_replicate.
Qed.

Lemma epoch_row_shape times baseline bc (f : list (Qc → value)) (grid : list Qc)
    (T : nat) (y : list (list value)) :
  create_base_corr_func times baseline None = Ok bc →
  (y0 ← call_base_corr bc (length grid) (map (λ fj, map fj grid) f);
   Epochs.setitem_row T (length grid) y0) = Ok y →
  length y = length f ∧ Forall (λ r, length r = T) y.
Proof.
  intros Hbc. unfold call_base_corr. destruct bc as [fb|]; [|done].
  destruct (fb (length grid)) as [g|] eqn:Hg; [|done]. cbn [mbind result_bind].
  intros Hset. apply setitem_row_shape in Hset.
  - by rewrite !length_map in Hset.
  - apply List.Forall_map, List.Forall_map, Forall_forall. intros fj _.
    by rewrite (base_corr_length _ _ _ _ _ _ Hbc Hg), length_map.
Qed.

Lemma init_rows interp1d filt fmt raw events event_id tmin tmax baseline dt interp
    hamm conditions (h : heap) e :
  (Epochs.__init__ interp1d filt fmt raw events event_id tmin tmax baseline dt interp
     hamm conditions h).1 = Ok e →
  Epochs.events e = events ∧ rows_agree e ∧ well_shaped e
  ∧ n_features (Epochs.data e) = length (Raw.data raw).
Proof.
  unfold Epochs.__init__.
  rewrite bind_lift. case_bool_decide; [done|].
  rewrite !bind_setitem.
  rewrite bind_lift. destruct (Epochs.epoch_times _ _ _) as [grid|]; [|done].
  rewrite bind_lift.
  destruct (match hamm with None => _ | Some _ => _ end) as [x|] eqn:Hx; [|done].
  rewrite bind_lift. destruct (mapM _ x) as [f|] eqn:Hf; [|done].
  rewrite bind_lift. destruct (create_base_corr_func _ _ _) as [bc|] eqn:Hbc; [|done].
  rewrite bind_lift. destruct (mapM _ events) as [rows|] eqn:Hrows; [|done].
  unfold ret. cbn [fst]. intros [= <-].
  assert (length x = length (Raw.data raw)) as Hlx.
  { destruct hamm; [by apply mapM_Ok_length in Hx|by simplify_eq]. }
  apply mapM_Ok_length in Hf.
  unfold rows_agree, well_shaped, Raw.n_features.
  cbn [Epochs.events Epochs.data Epochs.times items n_features n_times].
  split_and!; [done|by rewrite (mapM_Ok_length _ _ _ Hrows)|done| |done].
  apply mapM_Ok_Forall2 in Hrows. clear -Hrows Hbc Hf Hlx.
  induction Hrows as [|ev y events rows Hy _ IH]; constructor; [|done].
  destruct (arange _ _ _) as [g|]; [|done]. cbn [mbind result_bind] in Hy.
  apply (epoch_row_shape _ _ _ _ _ _ _ Hbc) in Hy as [Hl Hr]. split; [congruence|done].
Qed.

(** X2: when the constructor returns, the collection has the events it was
    given in the order given, one tensor row per event, and every tensor
    row is [n_features] rows of [len(times)] values, [n_features] being that
    of the recording. *)
Theorem init_shape interp1d filt fmt raw events event_id tmin tmax baseline dt interp
    hamm conditions (h : heap) e :
  (Epochs.__init__ interp1d filt fmt raw events event_id tmin tmax baseline dt interp
     hamm conditions h).1 = Ok e →
  Epochs.events e = events ∧ rows_agree e ∧ well_shaped e
  ∧ n_features (Epochs.data e) = length (Raw.data raw).
Proof. apply init_rows. Qed.

Lemma init_shape_witness :
  let e := {| Epochs.events := [Event (Sample.z 5) (Sample.z 0) 1];
              Epochs.event_id := Sample.cond_xy; Epochs.info := 0;
              Epochs.times := map Sample.z [-2; -1; 0; 1; 2; 3; 4; 5; 6]%Z;
              Epochs.data :=
                {| n_features := 1; n_times := 9;
                   items := [[[Some (Sample.z 3); Some (Sample.z 4); Some (Sample.z 5);
                               Some (Sample.z 6); Some (Sample.z 7); Some (Sample.z 8);
                               Some (Sample.z 9); None; None]]] |} |} in
  Epochs.events e = [Event (Sample.z 5) (Sample.z 0) 1] ∧ rows_agree e ∧ well_shaped e
  ∧ n_features (Epochs.data e) = length (Raw.data Sample.ramp).
Proof.
  apply (init_shape Sample.interp1d Sample.filtfilt_hamming Sample.format_g Sample.ramp
           [Event (Sample.z 5) (Sample.z 0) 1] (Some Sample.cond_xy)
           (Sample.z (-2)) (Sample.z 6) (BaselineStr "none") (Sample.z 1) "linear"
           None None Sample.heap0).
  vm_compute. reflexivity.
Defined.

Lemma index3_shape e f t a b :
  index3 e f t a = Ok b →
  Forall (λ m, length m = n_features a ∧ Forall (λ r, length r = n_times a) m) (items a) →
  Forall (λ m, length m = n_features b ∧ Forall (λ r, length r = n_times b) m) (items b)
  ∧ ∃ pt, resolve t (n_times a) = Ok pt ∧ n_times b = length pt.
Proof.
  unfold index3. intros Hix Ha.
  destruct (resolve e _) as [pe|]; [|done]. cbn [mbind result_bind] in Hix.
  destruct (resolve f _) as [pf|] eqn:Hpf; [|done]. cbn [mbind result_bind] in Hix.
  destruct (resolve t _) as [pt|] eqn:Hpt; [|done]. cbn [mbind result_bind] in Hix.
  simplify_eq. cbn [items n_features n_times]. split; [|by exists pt].
  apply resolve_lt in Hpf, Hpt.
  apply List.Forall_map, Forall_forall. intros m Hm%gather_elem_of.
  rewrite Forall_forall in Ha. destruct (Ha m Hm) as [Hlm Hrm].
  rewrite length_map, gather_length by by rewrite Hlm. split; [done|].
  apply List.Forall_map, Forall_forall. intros r Hr%gather_elem_of.
  rewrite Forall_forall in Hrm. apply gather_length. by rewrite (Hrm r Hr).
Qed.

Lemma pick_shape e event feature time (h : heap) c :
  well_shaped e → (Epochs.pick e event feature time h).1 = Ok c → well_shaped c.
Proof.
  intros [Hlen Hitems]. rewrite pick_fst. unfold pick_result.
  destruct (sel_event_of e event) as [se|]; [|done]. cbn [mbind result_bind].
  destruct (index_axis0 se _) as [evs|]; [|done]. cbn [mbind result_bind].
  destruct (index_axis0 _ (Epochs.times e)) as [ts|] eqn:Hts; [|done].
  cbn [mbind result_bind].
  destruct (getitem ts 0); [|done]. cbn [mbind result_bind].
  destruct (last ts); [|done]. cbn [mbind result_bind].
  destruct (index3 _ _ _ _) as [d|] eqn:Hd; [|done]. cbn [mbind result_bind].
  intros [= <-].
  apply index3_shape in Hd as [Hd (pt & Hpt & Hn)]; [|done].
  apply index_axis0_inv in Hts as (ps & Hps & _ & Hl).
  rewrite Hlen, Hpt in Hps. simplify_eq.
  split; cbn [Epochs.times Epochs.data]; [congruence|done].
Qed.

Lemma drop_events_shape e ids c :
  well_shaped e → Epochs.drop_events e ids = Ok c → well_shaped c.
Proof.
  intros [Hlen Hitems]. unfold Epochs.drop_events, Epochs.copy, _copy.
  destruct (Np.delete (items _) ids) as [d|] eqn:Hd; [|done]. cbn [mbind result_bind].
  destruct (Np.delete (Epochs.events e) ids) as [evs|]; [|done].
  cbn [mbind result_bind]. intros [= <-].
  apply delete_inv in Hd as (ps & _ & -> & _).
  split; cbn [Epochs.times Epochs.data items n_features n_times]; [done|].
  apply Forall_forall. intros m Hm%gather_elem_of.
  rewrite Forall_forall in Hitems. by apply Hitems.
Qed.

Lemma concatinate_shape l c :
  Forall well_shaped l → concatinate_epochs l = Ok c → well_shaped c.
Proof.
  intros Hl. unfold concatinate_epochs, Epochs.copy, _copy, getitem.
  destruct l as [|e0 l]; [done|]. cbn [lookup list_lookup mbind result_bind].
  unfold concatenate. cbn [map].
  destruct (forallb _ _) eqn:Hall; [|done]. cbn [mbind result_bind]. intros [= <-].
  pose proof (Forall_inv Hl) as [Hlen0 _].
  split; cbn [Epochs.times Epochs.data items n_features n_times]; [done|].
  change (Forall ?P _) with (Forall P (concat (map items (map Epochs.data (e0 :: l))))).
  apply Forall_concat, List.Forall_map, List.Forall_map.
  rewrite forallb_forall in Hall.
  change (Epochs.data e0 :: map Epochs.data l) with (map Epochs.data (e0 :: l)) in *.
  rewrite Forall_forall in Hl |- *. intros e He.
  destruct (Hl e He) as [_ Hitems].
  specialize (Hall (Epochs.data e)).
  rewrite andb_true_iff, !Nat.eqb_eq in Hall.
  destruct Hall as [Hf Ht]; [apply in_map, list_elem_of_In, He|].
  by rewrite Hf, Ht in Hitems.
Qed.

Lemma gather_nil {A} (ps : list nat) : gather ([] : list A) ps = [].
Proof. unfold gather. induction ps as [|p ps IH]; [done|]. by csimpl. Qed.

Lemma index3_feature_list e k t a :
  index3_feature e k t a
  = (λ b, map (λ m, default [] (m !! 0)) (items b)) <$> index3 e (IxInts [k]) t a.
Proof.
  unfold index3_feature, index3. cbn [resolve mapM].
  destruct (resolve e _) as [pe|]; [|done]. cbn [mbind result_bind].
  destruct (norm_index _ k) as [i|]; [|done]. cbn [mbind result_bind mret result_ret].
  destruct (resolve t _) as [pt|]; [|done]. cbn [mbind result_bind fmap result_fmap items].
  f_equal. rewrite map_map. apply map_ext. intros m.
  unfold gather at 3. csimpl. destruct (m !! i) as [r|]; csimpl; [done|apply gather_nil].
Qed.

Lemma bind_fmap_fst {A B C} (f : B → C) (m : M A) (K : A → M B) (K' : A → M C) (h : heap) :
  (∀ a h', K' a h' = (f <$> (K a h').1, (K a h').2)) →
  bind m K' h = (f <$> (bind m K h).1, (bind m K h).2).
Proof. intros HK. unfold bind. destruct (m h) as [[a|e] h']; [apply HK|done]. Qed.

(** [pick] with the integer [k] as [feature] is [pick] with the list [[k]],
    the feature axis removed: the same writes, and the same exception or
    the same result. *)
Lemma pick_feature_list self event k time (h : heap) :
  pick_feature self event k time h
  = (squeeze <$> (Epochs.pick self event (Some (IxInts [k])) time h).1,
     (Epochs.pick self event (Some (IxInts [k])) time h).2).
Proof.
  unfold pick_feature, Epochs.pick, Epochs.copy, _copy.
  apply bind_fmap_fst. intros sel_event h1.
  apply bind_fmap_fst. intros inst_events h2.
  apply bind_fmap_fst. intros inst_times h3.
  apply bind_fmap_fst. intros t0 h4.
  apply bind_fmap_fst. intros [] h5.
  apply bind_fmap_fst. intros t1 h6.
  apply bind_fmap_fst. intros [] h7.
  rewrite !bind_lift, index3_feature_list.
  by destruct (index3 _ _ _ _).
Qed.

Lemma pick_result_data e event f time c :
  pick_result e event (Some f) time = Ok c →
  ∃ se st, index3 se f st (Epochs.data e) = Ok (Epochs.data c).
Proof.
  unfold pick_result.
  destruct (sel_event_of e event) as [se|]; [|done]. cbn [mbind result_bind].
  destruct (index_axis0 se _) as [evs|]; [|done]. cbn [mbind result_bind].
  destruct (index_axis0 _ (Epochs.times e)) as [ts|]; [|done]. cbn [mbind result_bind].
  destruct (getitem ts 0); [|done]. cbn [mbind result_bind].
  destruct (last ts); [|done]. cbn [mbind result_bind].
  destruct (index3 _ _ _ _) as [d|] eqn:Hd; [|done]. cbn [mbind result_bind].
  intros [= <-]. by eexists _, _.
Qed.

Lemma index3_one_feature e k t a b :
  index3 e (IxInts [k]) t a = Ok b → n_features b = 1.
Proof.
  unfold index3. cbn [resolve mapM].
  destruct (resolve e _) as [pe|]; [|done]. cbn [mbind result_bind].
  destruct (norm_index _ k) as [i|]; [|done]. cbn [mbind result_bind mret result_ret].
  destruct (resolve t _) as [pt|]; [|done]. cbn [mbind result_bind].
  by intros [= <-].
Qed.

Lemma pick_feature_shape e event k time (h : heap) r :
  well_shaped e → (pick_feature e event k time h).1 = Ok r →
  Forall (λ row, length row = length (picked_times r)) (picked_data r).
Proof.
  intros He. rewrite pick_feature_list. cbn [fst].
  destruct (Epochs.pick e event (Some (IxInts [k])) time h).1 as [c|] eqn:Hc; [|done].
  cbn [fmap result_fmap]. intros [= <-].
  destruct (pick_shape e event (Some (IxInts [k])) time h c He Hc) as [Hlen Hitems].
  rewrite pick_fst in Hc. apply pick_result_data in Hc as (se & st & Hd).
  apply index3_one_feature in Hd.
  cbn [squeeze picked_times picked_data]. rewrite Hlen.
  apply List.Forall_map, Forall_forall. intros m Hm.
  rewrite Forall_forall in Hitems. destruct (Hitems m Hm) as [Hf Hrows].
  destruct m as [|r0 m]; [cbn in Hf; lia|]. cbn. by apply Forall_inv in Hrows.
Qed.

(** X3: selection by slices, masks and lists of integers, removal of events
    and concatenation return a tensor of the extents it declares, on a grid
    of as many samples, when they are given such collections. Selection of
    one feature by an integer does not: it writes, raises and returns as
    selection by the list of that integer does, but what it returns has the
    feature axis removed, one row of as many values as the grid has samples
    in place of each tensor row. *)
Theorem operations_preserve_shape :
  (∀ l c, produced_by l c → Forall well_shaped l → well_shaped c)
  ∧ (∀ e event k time (h : heap),
       pick_feature e event k time h
       = (squeeze <$> (Epochs.pick e event (Some (IxInts [k])) time h).1,
          (Epochs.pick e event (Some (IxInts [k])) time h).2)
       ∧ ∀ r, well_shaped e → (pick_feature e event k time h).1 = Ok r →
           Forall (λ row, length row = length (picked_times r)) (picked_data r)).
Proof.
  split.
  - intros l c [e event feature time h c' Hc|e ids c' Hc|l' c' Hc] Hl.
    + apply Forall_inv in Hl. by eapply pick_shape.
    + apply Forall_inv in Hl. by eapply drop_events_shape.
    + by eapply concatinate_shape.
  - intros e event k time h. split; [apply pick_feature_list|].
    intros r He Hr. by eapply pick_feature_shape.
Qed.

Lemma operations_preserve_shape_witness :
  well_shaped Sample.epochs0_x
  ∧ Forall (λ row, length row = length (picked_times (squeeze Sample.epochs0)))
           (picked_data (squeeze Sample.epochs0)).
Proof.
  split.
  - apply (proj1 operations_preserve_shape [Sample.epochs0] Sample.epochs0_x).
    + apply (by_drop_events Sample.epochs0 [1%Z]). vm_compute. reflexivity.
    + constructor; [|constructor]. split; [reflexivity|]. repeat constructor.
  - apply (proj2 (proj2 operations_preserve_shape Sample.epochs0 None 0%Z None Sample.heap1)
             (squeeze Sample.epochs0)).
    + split; [reflexivity|]. repeat constructor.
    + vm_compute. reflexivity.
Defined.

(** The two events of the sample collection, their one feature selected by
    its number: two rows of three samples. *)
Example pick_feature_sample :
  picked_data <$> (pick_feature Sample.epochs0 None 0 None Sample.heap1).1
  = Ok [[Some (Sample.z 1); Some (Sample.z 2); Some (Sample.z 6)];
        [Some (Sample.z 4); None; Some (Sample.z 8)]].
Proof. vm_compute. reflexivity. Qed.

End shape.

(** ** What baseline correction does to a row *)

Section correction.
Local Open Scope Qc_scope.

Lemma nanmean_fsub (x : list value) (d : Qc) :
  nanmean ((λ v, fsub v (Some d)) <$> x) = fsub (nanmean x) (Some d).
Proof.
  destruct (nanmean x) as [mu|] eqn:Hmu.
  - apply nanmean_Some_inv in Hmu as [Hne Hmu].
    rewrite nanmean_finite; rewrite omap_fsub_Some.
    + rewrite qsum_shift, length_fmap. cbn [fsub]. f_equal.
      pose proof (Qc_of_length_ne_0 _ Hne) as Hn. rewrite Hmu. by field.
    + by destruct (omap id x).
  - unfold nanmean in *. rewrite omap_fsub_Some.
    by destruct (omap id x).
Qed.

Lemma subtract_mean_offset (sel : list value → list value) (x : list value) (d : Qc) :
  (∀ (f : value → value) y, sel (f <$> y) = f <$> sel y) →
  let g := λ y : list value, (λ v, fsub v (nanmean (sel y))) <$> y in
  g ((λ v, fsub v (Some d)) <$> x) = g x.
Proof.
  intros Hsel g. unfold g. rewrite Hsel, nanmean_fsub, <- list_fmap_compose.
  apply list_fmap_ext. intros _ [a|] _; [|done]. unfold compose.
  destruct (nanmean (sel x)) as [mu|]; [|done]. cbn [fsub]. f_equal. ring.
Qed.

(** X4: a correction that subtracts a mean, over a window or over the whole
    row, returns the same row when a constant is taken off every sample
    first. *)
Theorem base_corr_offset_invariant times baseline f n g (d : Qc) (x : list value) :
  create_base_corr_func times baseline None = Ok (Some f) → f n = Ok g →
  subtracts_mean baseline = true →
  g ((λ v, fsub v (Some d)) <$> x) = g x.
Proof.
  unfold create_base_corr_func, subtracts_mean. intros Hf Hg Hb.
  destruct baseline as [|s|lo hi]; cbn [default] in Hf; [done| |].
  - apply bool_decide_eq_true_1 in Hb.
    rewrite bool_decide_eq_false_2 in Hf by by rewrite Hb.
    rewrite bool_decide_eq_true_2 in Hf by done. simplify_eq.
    apply (subtract_mean_offset (λ y, y)). done.
  - destruct (match lo with None => _ | Some _ => _ end) as [tmin|]; [|done].
    cbn [mbind result_bind] in Hf.
    destruct (match hi with None => _ | Some _ => _ end) as [tmax|]; [|done].
    cbn [mbind result_bind] in Hf. simplify_eq. cbn beta in Hg.
    destruct (_ =? _); [|done]. simplify_eq.
    apply (subtract_mean_offset (compress _)). intros. apply compress_fmap.
Qed.

Lemma base_corr_offset_invariant_witness :
  (λ y : list value, map (λ v, fsub v (nanmean (compress [true; true; false] y))) y)
    ((λ v, fsub v (Some (Sample.z 7))) <$> [Some (Sample.z 1); None; Some (Sample.z 6)])
  = (λ y : list value, map (λ v, fsub v (nanmean (compress [true; true; false] y))) y)
      [Some (Sample.z 1); None; Some (Sample.z 6)].
Proof.
  apply (base_corr_offset_invariant (map Sample.z [-1; 0; 1]%Z)
           (BaselineWin (Some (Sample.z (-1))) (Some (Sample.z 0)))
           (λ n, if 3 =? n
                 then Ok (λ y : list value,
                            map (λ v, fsub v (nanmean (compress [true; true; false] y))) y)
                 else Raise IndexError)
           3%nat _ (Sample.z 7) [Some (Sample.z 1); None; Some (Sample.z 6)]).
  - reflexivity.
  - reflexivity.
  - reflexivity.
Defined.

(** X5: the baseline ['all'], in any spelling of its letters, never raises,
    and in the corrected tensor the mean over the samples that are not NaN
    is zero in every row that has such a sample; a row that has none is
    all NaN. *)
Theorem baseline_all_centred (e : Epochs.t) (s : string) (h : heap) :
  lower s = "all" →
  ∃ c, (Epochs.apply_baseline e (BaselineStr s) h).1 = Ok c
     ∧ Forall2 (Forall2 (λ x y : list value,
                  (is_Some (nanmean x) → nanmean y = Some 0)
                  ∧ (nanmean x = None → y = replicate (length x) None)))
               (items (Epochs.data e)) (items (Epochs.data c)).
Proof.
  intros Hs. rewrite apply_baseline_run. unfold create_base_corr_func.
  rewrite bool_decide_eq_false_2 by by rewrite Hs.
  rewrite bool_decide_eq_true_2 by done.
  eexists. split; [reflexivity|]. cbn [Epochs.data items fst].
  apply Forall2_fmap_r, Forall_Forall2_diag, Forall_forall. intros m _.
  apply Forall2_fmap_r, Forall_Forall2_diag, Forall_forall. intros x _. split.
  - intros [mu Hmu]. rewrite Hmu. by apply nanmean_centered.
  - intros ->. apply fsub_None_r.
Qed.

Lemma baseline_all_centred_witness :
  ∃ c, (Epochs.apply_baseline Sample.epochs0 (BaselineStr "All") Sample.heap1).1 = Ok c
     ∧ Forall2 (Forall2 (λ x y : list value,
                  (is_Some (nanmean x) → nanmean y = Some 0)
                  ∧ (nanmean x = None → y = replicate (length x) None)))
               (items (Epochs.data Sample.epochs0)) (items (Epochs.data c)).
Proof. apply (baseline_all_centred Sample.epochs0 "All" Sample.heap1). reflexivity. Defined.

(** X6: on a grid whose samples lie between its first and its last one, the
    window [(None, None)] corrects a well-shaped tensor as ['all'] does. *)
Theorem baseline_open_window_is_all (e : Epochs.t) (h : heap) (t0 t1 : Qc) :
  Epochs.times e !! 0%nat = Some t0 → last (Epochs.times e) = Some t1 →
  Forall (λ t, t0 ≤ t ∧ t ≤ t1) (Epochs.times e) →
  well_shaped e →
  Epochs.data <$> (Epochs.apply_baseline e (BaselineWin None None) h).1
  = Epochs.data <$> (Epochs.apply_baseline e (BaselineStr "all") h).1.
Proof.
  intros H0 H1 Hin [Hlen Hitems]. rewrite !apply_baseline_run.
  unfold create_base_corr_func, getitem. rewrite H0, H1. cbn [mbind result_bind default].
  rewrite bool_decide_eq_false_2 by done. rewrite bool_decide_eq_true_2 by done.
  rewrite length_map, Hlen, Nat.eqb_refl. cbn [fst fmap result_fmap Epochs.data].
  f_equal. f_equal.
  apply Forall_fmap_ext_1. eapply Forall_impl; [exact Hitems|].
  intros m [_ Hm]. apply Forall_fmap_ext_1. eapply Forall_impl; [exact Hm|].
  intros x Hx. cbn beta. rewrite compress_true; [done|by rewrite length_map, Hlen|].
  apply List.Forall_map. eapply Forall_impl; [exact Hin|].
  intros t [Ha Hb]. cbn beta. by rewrite !bool_decide_eq_true_2.
Qed.

Lemma baseline_open_window_is_all_witness :
  Epochs.data <$> (Epochs.apply_baseline Sample.epochs0 (BaselineWin None None)
                     Sample.heap1).1
  = Epochs.data <$> (Epochs.apply_baseline Sample.epochs0 (BaselineStr "all")
                       Sample.heap1).1.
Proof.
  apply (baseline_open_window_is_all Sample.epochs0 Sample.heap1
           (Sample.z (-1)) (Sample.z 1)).
  - reflexivity.
  - reflexivity.
  - repeat constructor; by vm_compute.
  - split; [reflexivity|]. repeat constructor.
Defined.

(** X7: a baseline given as a string other than ['none'] and ['all'] makes
    [apply_baseline] raise [TypeError] before anything is written. *)
Theorem apply_baseline_unknown_string (e : Epochs.t) (s : string) (h : heap) :
  lower s ≠ "none" → lower s ≠ "all" →
  Epochs.apply_baseline e (BaselineStr s) h = (Raise TypeError, h).
Proof.
  intros Hn Ha. rewrite apply_baseline_run. unfold create_base_corr_func.
  by rewrite !bool_decide_eq_false_2.
Qed.

Lemma apply_baseline_unknown_string_witness :
  Epochs.apply_baseline Sample.epochs0 (BaselineStr "mean") Sample.heap1
  = (Raise TypeError, Sample.heap1).
Proof.
  apply (apply_baseline_unknown_string Sample.epochs0 "mean" Sample.heap1); discriminate.
Defined.

End correction.

(** ** What read_events returns *)

Section timing_result.

Variable float : string → option Qc.

Lemma read_files_length eid files st d st' d' :
  eid ≠ 0 → read_files float eid files st d = Ok (st', d') → length st'.1 = length st.1.
Proof.
  revert eid st d. induction files as [|[name lines] files IH]; intros eid st d Heid.
  - by intros [= <- _].
  - cbn [read_files].
    destruct (read_lines _ _ _ _ _) as [st1|] eqn:Hlines; cbn [mbind result_bind]; [|done].
    intros ->%IH; [|lia]. by eapply read_lines_length.
Qed.

Lemma parse_tokens (toks : list string) (l : list Qc) :
  mapM (λ tok, match float tok with Some q => Ok q | None => Raise ValueError end) toks
  = Ok l → l = omap float toks.
Proof.
  revert l. induction toks as [|tok toks IH]; intros l; cbn [mapM].
  - by intros [= <-].
  - csimpl. destruct (float tok) as [q|]; cbn [mbind result_bind]; [|done].
    destruct (mapM _ toks) as [l'|]; cbn [mbind result_bind]; [|done].
    intros [= <-]. by rewrite (IH l').
Qed.

Lemma run_rows_snoc (t : list (list Qc)) (e : list (list Z)) (r : nat) :
  length t = length e → run_rows (t ++ [[]], e ++ [[]]) r = run_rows (t, e) r.
Proof.
  intros Hlen. unfold run_rows. cbn [fst snd].
  destruct (decide (r < length t)) as [Hr|Hr].
  - by rewrite !lookup_app_l by lia.
  - rewrite (lookup_ge_None_2 t), (lookup_ge_None_2 e) by lia. cbn.
    destruct (decide (r = length t)) as [->|Hne].
    + rewrite list_lookup_middle by done. cbn. rewrite Hlen.
      by rewrite list_lookup_middle by done.
    + by rewrite !lookup_ge_None_2 by (rewrite length_app; cbn [length]; lia).
Qed.

Lemma aligned_snoc (t : list (list Qc)) (e : list (list Z)) :
  aligned (t, e) → aligned (t ++ [[]], e ++ [[]]).
Proof. intros H. apply Forall2_app; [done|]. by repeat constructor. Qed.

Lemma read_line_rows eid rid line st st' :
  aligned st → read_line float eid rid line st = Ok st' →
  aligned st'
  ∧ ∀ r, run_rows st' r
         = run_rows st r ++ (if decide (r = rid) then line_events float eid line else []).
Proof.
  intros Hst. unfold read_line, line_events.
  case_bool_decide as Hblank.
  { intros [= <-]. split; [done|]. intros r. cbn [orb]. by destruct (decide (r = rid)); rewrite app_nil_r. }
  cbn [orb].
  set (t := if eid =? 0 then st.1 ++ [[]] else st.1).
  set (e := if eid =? 0 then st.2 ++ [[]] else st.2).
  assert (aligned (t, e) ∧ ∀ r, run_rows (t, e) r = run_rows st r) as [Hte Hrows].
  { unfold t, e. destruct st as [t0 e0]. destruct (eid =? 0); [|done]. split.
    - by apply aligned_snoc.
    - intros r. apply run_rows_snoc. by eapply Forall2_length. }
  clearbody t e. unfold aligned in Hte. cbn [fst snd] in Hte.
  destruct (startswith _ _); cbn [negb].
  { intros [= <-]. split; [done|]. intros r. rewrite Hrows. by destruct (decide (r = rid)); rewrite app_nil_r. }
  destruct (mapM _ _) as [t_run|] eqn:Hparse; cbn [mbind result_bind]; [|done].
  apply parse_tokens in Hparse as ->.
  unfold getitem.
  destruct (t !! rid) as [t_rid|] eqn:Ht; cbn [mbind result_bind]; [|done].
  destruct (e !! rid) as [e_rid|] eqn:He; cbn [mbind result_bind]; [|done].
  intros [= <-].
  pose proof (Forall2_lookup_lr _ _ _ _ _ _ Hte Ht He) as Hlen. cbn beta in Hlen.
  split.
  - apply Forall2_insert; [done|]. rewrite !length_app, length_replicate. lia.
  - intros r. rewrite <- Hrows. unfold run_rows. cbn [fst snd].
    destruct (decide (r = rid)) as [->|Hne].
    + rewrite !list_lookup_insert_eq by by eapply lookup_lt_Some.
      rewrite Ht, He. cbn. rewrite zip_with_app by done. f_equal.
      generalize (omap float (split_ws (strip line))). intros l.
      induction l as [|q l IH]; [done|]. cbn. by rewrite IH.
    + rewrite !list_lookup_insert_ne by done. by rewrite app_nil_r.
Qed.

Lemma read_lines_rows eid rid lines st st' :
  aligned st → read_lines float eid rid lines st = Ok st' →
  aligned st'
  ∧ ∀ r, run_rows st' r
         = run_rows st r ++ (if decide (rid ≤ r)
                             then default [] (line_events float eid <$> lines !! (r - rid))
                             else []).
Proof.
  revert rid st. induction lines as [|l lines IH]; intros rid st Hst.
  - intros [= <-]. split; [done|]. intros r. by destruct (decide _); rewrite app_nil_r.
  - cbn [read_lines]. destruct (read_line _ _ _ _ _) as [st1|] eqn:Hline;
      cbn [mbind result_bind]; [|done].
    intros Hrest. apply read_line_rows in Hline as [Hst1 Hrows1]; [|done].
    apply IH in Hrest as [Hst' Hrows']; [|done]. split; [done|].
    intros r. rewrite Hrows', Hrows1, <- app_assoc. f_equal.
    destruct (decide (r = rid)) as [->|Hne].
    + rewrite decide_False, decide_True by lia. rewrite Nat.sub_diag. cbn.
      by rewrite app_nil_r.
    + destruct (decide (S rid ≤ r)).
      * rewrite decide_True by lia. cbn [app].
        by replace (r - rid) with (S (r - S rid)) by lia.
      * by rewrite decide_False by lia.
Qed.

Lemma read_files_rows eid files st d st' d' :
  aligned st → read_files float eid files st d = Ok (st', d') →
  aligned st'
  ∧ ∀ r, run_rows st' r
         = run_rows st r
           ++ concat (imap (λ k f, default [] (line_events float (eid + k) <$> f.2 !! r))
                           files).
Proof.
  revert eid st d. induction files as [|[name lines] files IH]; intros eid st d Hst.
  - intros [= <- _]. split; [done|]. intros r. cbn. by rewrite app_nil_r.
  - cbn [read_files]. destruct (read_lines _ _ _ _ _) as [st1|] eqn:Hlines;
      cbn [mbind result_bind]; [|done].
    intros Hrest. apply read_lines_rows in Hlines as [Hst1 Hrows1]; [|done].
    apply IH in Hrest as [Hst' Hrows']; [|done]. split; [done|]. intros r.
    rewrite Hrows', Hrows1, <- app_assoc. f_equal.
    rewrite decide_True by lia. rewrite Nat.sub_0_r. cbn [imap concat snd].
    rewrite Nat.add_0_r. f_equal. f_equal. apply imap_ext. intros k f _. cbn.
    by rewrite Nat.add_succ_r.
Qed.

Lemma read_events_inv files evs d :
  read_events float files = Ok (evs, d) →
  ∃ t e, read_files float 0 files ([], []) ∅ = Ok (t, e, d)
         ∧ evs = zip_with (events_run) t e.
Proof.
  unfold read_events.
  destruct (read_files _ _ _ _ _) as [[[t e] d']|]; cbn [mbind result_bind]; [|done].
  intros [= <- <-]. by exists t, e.
Qed.

Lemma onset_le_trans : Transitive onset_le.
Proof. intros a b c. unfold onset_le. apply Qcle_trans. Qed.

Lemma onset_le_total : Total onset_le.
Proof.
  intros a b. unfold onset_le. destruct (Qclt_le_dec (onset a) (onset b)); [left|by right].
  by apply Qclt_le_weak.
Qed.

(** X8: the result has one array of events for each line of the first file
    that is not blank, whatever the other files hold. *)
Theorem read_events_run_count (name0 : string) (first : list string)
    (rest : list (string * list string)) (evs : list (list event)) (d : gmap string Z) :
  read_events float ((name0, first) :: rest) = Ok (evs, d) →
  length evs = run_count first.
Proof.
  intros (t & e & Hfiles & ->)%read_events_inv.
  assert (aligned ([], [])) as Hnil by constructor.
  destruct (read_files_rows _ _ _ _ _ _ Hnil Hfiles) as [Hal _].
  apply Forall2_length in Hal. cbn [fst snd] in Hal.
  rewrite length_zip_with, <- Hal, Nat.min_id.
  cbn [read_files] in Hfiles.
  destruct (read_lines _ _ _ _ _) as [st1|] eqn:Hfirst; cbn [mbind result_bind] in Hfiles;
    [|done].
  apply read_files_length in Hfiles; [|done]. cbn [fst] in Hfiles.
  apply read_lines_length_first in Hfirst. cbn [fst length] in Hfirst. lia.
Qed.

(** X9: the array of run [r] holds the events that line [r] of each file
    lists, the label being the position of the file counted from 1 and the
    duration 0, in the order of their onsets. *)
Theorem read_events_runs (files : list (string * list string)) (evs : list (list event))
    (d : gmap string Z) (r : nat) (run : list event) :
  read_events float files = Ok (evs, d) → evs !! r = Some run →
  StronglySorted onset_le run ∧ run ≡ₚ listed_events float files r.
Proof.
  intros (t & e & Hfiles & ->)%read_events_inv Hr.
  apply read_files_rows in Hfiles as [_ Hrows]; [|by constructor].
  apply lookup_zip_with_Some in Hr as (tr & er & -> & Ht & He).
  specialize (Hrows r). unfold run_rows in Hrows. cbn [fst snd] in Hrows.
  rewrite Ht, He in Hrows. cbn in Hrows. unfold events_run. split.
  - apply (@StronglySorted_merge_sort _ onset_le _ onset_le_trans onset_le_total).
  - by rewrite merge_sort_Permutation, Hrows.
Qed.

Lemma read_files_dict_frame eid files st d st' d' name :
  read_files float eid files st d = Ok (st', d') → name ∉ files.*1 →
  d' !! name = d !! name.
Proof.
  revert eid st d. induction files as [|[name0 lines] files IH]; intros eid st d.
  - by intros [= _ <-].
  - cbn [read_files]. destruct (read_lines _ _ _ _ _) as [st1|]; cbn [mbind result_bind];
      [|done].
    intros Hrest Hname. rewrite fmap_cons, not_elem_of_cons in Hname.
    cbn [fst] in Hname. destruct Hname as [Hne Hname]. rewrite (IH _ _ _ Hrest Hname).
    by rewrite lookup_insert_ne.
Qed.

Lemma read_files_dict eid files st d st' d' k name lines :
  NoDup files.*1 → read_files float eid files st d = Ok (st', d') →
  files !! k = Some (name, lines) → d' !! name = Some (Z.of_nat (eid + k) + 1)%Z.
Proof.
  revert eid st d k. induction files as [|[name0 lines0] files IH]; intros eid st d k; [done|].
  rewrite fmap_cons, NoDup_cons. intros [Hfresh Hnodup]. cbn [fst] in Hfresh.
  cbn [read_files].
  destruct (read_lines _ _ _ _ _) as [st1|]; cbn [mbind result_bind]; [|done].
  intros Hrest. destruct k as [|k]; cbn [lookup list_lookup].
  - intros [= -> ->]. rewrite (read_files_dict_frame _ _ _ _ _ _ _ Hrest Hfresh).
    by rewrite lookup_insert_eq, Nat.add_0_r.
  - intros Hk. rewrite (IH _ _ _ _ Hnodup Hrest Hk). f_equal. lia.
Qed.

Lemma read_events_dict files evs d name id :
  NoDup files.*1 → read_events float files = Ok (evs, d) →
  d !! name = Some id ↔
  ∃ k lines, files !! k = Some (name, lines) ∧ id = (Z.of_nat k + 1)%Z.
Proof.
  intros Hnodup (t & e & Hfiles & _)%read_events_inv. split.
  - intros Hid. destruct (decide (name ∈ files.*1)) as [Hin|Hout].
    + apply list_elem_of_fmap in Hin as ([name' lines] & -> & Hin). cbn [fst] in *.
      apply list_elem_of_lookup in Hin as [k Hk]. exists k, lines. split; [done|].
      rewrite (read_files_dict _ _ _ _ _ _ _ _ _ Hnodup Hfiles Hk) in Hid.
      by simplify_eq.
    + by rewrite (read_files_dict_frame _ _ _ _ _ _ _ Hfiles Hout) in Hid.
  - intros (k & lines & Hk & ->). by rewrite (read_files_dict _ _ _ _ _ _ _ _ _ Hnodup Hfiles Hk).
Qed.

(** X10: for files under distinct names, as the keys of a dictionary are,
    the dictionary returned maps the name of each file to its position,
    counted from 1, and holds nothing else. *)
Theorem read_events_event_id (files : list (string * list string))
    (evs : list (list event)) (d : gmap string Z) (name : string) (id : Z) :
  NoDup files.*1 → read_events float files = Ok (evs, d) →
  d !! name = Some id ↔
  ∃ k lines, files !! k = Some (name, lines) ∧ id = (Z.of_nat k + 1)%Z.
Proof. apply read_events_dict. Qed.

Lemma line_events_label k line ev :
  ev ∈ line_events float k line → label ev = (Z.of_nat k + 1)%Z.
Proof.
  unfold line_events. destruct (_ || _); [by intros ?%elem_of_nil|].
  intros (q & -> & _)%list_elem_of_fmap. done.
Qed.

(** X11: every label in the arrays returned is a value of the dictionary
    returned. *)
Theorem read_events_labels_known (files : list (string * list string))
    (evs : list (list event)) (d : gmap string Z) (run : list event) (id : Z) :
  NoDup files.*1 → read_events float files = Ok (evs, d) →
  run ∈ evs → id ∈ labels run → ∃ name, d !! name = Some id.
Proof.
  intros Hnodup Hread [r Hr]%list_elem_of_lookup (ev & -> & Hev)%list_elem_of_fmap.
  pose proof Hread as (t & e & Hfiles & ->)%read_events_inv.
  apply read_files_rows in Hfiles as [_ Hrows]; [|by constructor].
  apply lookup_zip_with_Some in Hr as (tr & er & -> & Ht & He).
  specialize (Hrows r). unfold run_rows in Hrows. cbn [fst snd] in Hrows.
  rewrite Ht, He in Hrows. cbn in Hrows. unfold events_run in Hev.
  rewrite merge_sort_Permutation, Hrows in Hev.
  apply elem_of_concat in Hev as (l & Hl & Hev).
  apply elem_of_lookup_imap in Hl as (k & [name lines] & -> & Hk).
  cbn [snd] in Hev. destruct (lines !! r) as [line|]; [|by apply elem_of_nil in Hev].
  cbn in Hev. apply line_events_label in Hev. exists name.
  apply (read_events_dict _ _ _ _ _ Hnodup Hread). by exists k, lines.
Qed.

End timing_result.

Lemma read_events_run_count_witness :
  length [[Event (Sample.z 1) (Sample.z 0) 1; Event (Sample.z 2) (Sample.z 0) 1;
           Event (Sample.z 4) (Sample.z 0) 2];
          [Event (Sample.z 3) (Sample.z 0) 1]]
  = run_count Sample.file_a.
Proof.
  apply (read_events_run_count Sample.float "A" Sample.file_a [("B", Sample.file_b1)]
           _ {[ "A" := 1%Z; "B" := 2%Z ]}).
  vm_compute. reflexivity.
Defined.

Lemma read_events_runs_witness :
  StronglySorted onset_le
    [Event (Sample.z 1) (Sample.z 0) 1; Event (Sample.z 2) (Sample.z 0) 1;
     Event (Sample.z 4) (Sample.z 0) 2]
  ∧ [Event (Sample.z 1) (Sample.z 0) 1; Event (Sample.z 2) (Sample.z 0) 1;
     Event (Sample.z 4) (Sample.z 0) 2]
    ≡ₚ listed_events Sample.float [("A", Sample.file_a); ("B", Sample.file_b1)] 0.
Proof.
  apply (read_events_runs Sample.float [("A", Sample.file_a); ("B", Sample.file_b1)]
           [[Event (Sample.z 1) (Sample.z 0) 1; Event (Sample.z 2) (Sample.z 0) 1;
             Event (Sample.z 4) (Sample.z 0) 2];
            [Event (Sample.z 3) (Sample.z 0) 1]]
           {[ "A" := 1%Z; "B" := 2%Z ]} 0).
  - vm_compute. reflexivity.
  - reflexivity.
Defined.

Lemma read_events_event_id_witness :
  ({[ "A" := 1%Z; "B" := 2%Z ]} : gmap string Z) !! "B" = Some 2%Z ↔
  ∃ k lines, [("A", Sample.file_a); ("B", Sample.file_b1)] !! k = Some ("B", lines)
             ∧ 2%Z = (Z.of_nat k + 1)%Z.
Proof.
  apply (read_events_event_id Sample.float [("A", Sample.file_a); ("B", Sample.file_b1)]
           [[Event (Sample.z 1) (Sample.z 0) 1; Event (Sample.z 2) (Sample.z 0) 1;
             Event (Sample.z 4) (Sample.z 0) 2];
            [Event (Sample.z 3) (Sample.z 0) 1]]).
  - apply (bool_decide_unpack _). by vm_compute.
  - vm_compute. reflexivity.
Defined.

Lemma read_events_labels_known_witness :
  ∃ name, ({[ "A" := 1%Z; "B" := 2%Z ]} : gmap string Z) !! name = Some 2%Z.
Proof.
  apply (read_events_labels_known Sample.float
           [("A", Sample.file_a); ("B", Sample.file_b1)]
           [[Event (Sample.z 1) (Sample.z 0) 1; Event (Sample.z 2) (Sample.z 0) 1;
             Event (Sample.z 4) (Sample.z 0) 2];
            [Event (Sample.z 3) (Sample.z 0) 1]]
           {[ "A" := 1%Z; "B" := 2%Z ]}
           [Event (Sample.z 1) (Sample.z 0) 1; Event (Sample.z 2) (Sample.z 0) 1;
            Event (Sample.z 4) (Sample.z 0) 2] 2%Z).
  - apply (bool_decide_unpack _). by vm_compute.
  - vm_compute. reflexivity.
  - apply list_elem_of_here.
  - unfold labels. cbn [map label]. do 2 apply list_elem_of_further. apply list_elem_of_here.
Defined.


(** ** Where read_events fails *)

Section timing_faults.

Variable float : string → option Qc.

Lemma parse_numeric (toks : list string) :
  Forall (λ tok, is_Some (float tok)) toks →
  ∃ l, mapM (λ tok, match float tok with Some q => Ok q | None => Raise ValueError end) toks
       = Ok l.
Proof.
  induction 1 as [|tok toks [q Hq] _ [l IH]]; [by exists []|].
  exists (q :: l). cbn [mapM]. rewrite Hq. cbn [mbind result_bind]. by rewrite IH.
Qed.

Lemma parse_not_numeric (toks : list string) :
  ¬ Forall (λ tok, is_Some (float tok)) toks →
  mapM (λ tok, match float tok with Some q => Ok q | None => Raise ValueError end) toks
  = Raise ValueError.
Proof.
  induction toks as [|tok toks IH]; intros Hnot; [by destruct Hnot|].
  cbn [mapM]. destruct (float tok) as [q|] eqn:Hq; [|done]. cbn [mbind result_bind].
  rewrite IH; [done|]. intros Hrest. apply Hnot. constructor; [by rewrite Hq|done].
Qed.

Lemma run_count_le (lines : list string) : run_count lines ≤ length lines.
Proof. apply length_filter. Qed.

Lemma run_count_onset (line : string) : onset_line line → run_count [line] = 1.
Proof.
  intros [Hblank _]. unfold run_count. cbn [filter list_filter].
  by rewrite decide_True.
Qed.

Lemma read_line_ok eid rid line st :
  length st.2 = length st.1 →
  (onset_line line → numeric float line ∧ rid < length st.1 + grows eid [line]) →
  ∃ st', read_line float eid rid line st = Ok st'
         ∧ length st'.2 = length st'.1
         ∧ length st'.1 = length st.1 + grows eid [line].
Proof.
  intros Hlen Hfine. unfold read_line, grows, run_count in *.
  cbn [filter list_filter] in *.
  case_bool_decide as Hblank.
  { exists st. rewrite decide_False by (by intros ?). cbn [length].
    split_and!; [done|done|destruct (eid =? 0); lia]. }
  rewrite decide_True in * by done. cbn [length] in *.
  destruct (startswith "*" (strip line)) eqn:Hstar; cbn [negb].
  { eexists. split; [done|]. cbn [fst snd].
    destruct (eid =? 0); rewrite ?length_app; cbn [length]; lia. }
  destruct Hfine as [Hnum Hrid]; [done|].
  destruct (parse_numeric _ Hnum) as [t_run ->]. cbn [mbind result_bind].
  unfold getitem.
  destruct (lookup_lt_is_Some_2 (if eid =? 0 then st.1 ++ [[]] else st.1) rid) as [t_rid ->].
  { destruct (eid =? 0); rewrite ?length_app; cbn [length]; lia. }
  cbn [mbind result_bind].
  destruct (lookup_lt_is_Some_2 (if eid =? 0 then st.2 ++ [[]] else st.2) rid) as [e_rid ->].
  { destruct (eid =? 0); rewrite ?length_app; cbn [length]; lia. }
  cbn [mbind result_bind]. eexists. split; [done|]. cbn [fst snd].
  rewrite !length_insert. destruct (eid =? 0); rewrite ?length_app; cbn [length]; lia.
Qed.

Lemma read_line_fault eid rid line st :
  onset_line line →
  ¬ (numeric float line ∧ rid < length st.1 + grows eid [line]) →
  read_line float eid rid line st
  = Raise (if decide (numeric float line) then IndexError else ValueError).
Proof.
  intros [Hblank Hstar] Hfault. unfold read_line.
  rewrite bool_decide_eq_false_2 by done. rewrite Hstar. cbn [negb].
  destruct (decide (numeric float line)) as [Hnum|Hnum].
  - destruct (parse_numeric _ Hnum) as [t_run ->]. cbn [mbind result_bind].
    unfold getitem.
    rewrite (lookup_ge_None_2 (if eid =? 0 then st.1 ++ [[]] else st.1) rid); [done|].
    assert (¬ rid < length st.1 + grows eid [line]) as Hrid by tauto.
    unfold grows in Hrid. rewrite (run_count_onset line) in Hrid by done.
    destruct (eid =? 0); rewrite ?length_app; cbn [length]; lia.
  - by rewrite parse_not_numeric.
Qed.

Lemma grows_cons eid line lines : grows eid (line :: lines) = grows eid [line] + grows eid lines.
Proof. unfold grows. destruct (eid =? 0); [apply run_count_cons|done]. Qed.

Lemma read_lines_ok eid rid lines st :
  length st.2 = length st.1 →
  (∀ i line, lines !! i = Some line → onset_line line →
     numeric float line ∧ rid + i < length st.1 + grows eid (take (S i) lines)) →
  ∃ st', read_lines float eid rid lines st = Ok st'
         ∧ length st'.2 = length st'.1
         ∧ length st'.1 = length st.1 + grows eid lines.
Proof.
  revert rid st. induction lines as [|l lines IH]; intros rid st Hlen Hfine.
  - exists st. split_and!; [done..|]. unfold grows, run_count. destruct (eid =? 0); cbn; lia.
  - cbn [read_lines].
    destruct (read_line_ok eid rid l st Hlen) as (st1 & -> & Hlen1 & Hgrow1).
    { intros Honset. destruct (Hfine 0 l eq_refl Honset) as [? Hr].
      cbn [firstn] in Hr; rewrite ?take_0 in Hr. split; [done|lia]. }
    cbn [mbind result_bind].
    destruct (IH (S rid) st1 Hlen1) as (st' & -> & Hlen' & Hgrow').
    { intros i line Hi Honset. destruct (Hfine (S i) line Hi Honset) as [? Hr].
      split; [done|]. cbn [firstn] in Hr; rewrite ?take_0 in Hr. rewrite grows_cons in Hr. lia. }
    exists st'. split_and!; [done..|]. rewrite grows_cons. lia.
Qed.

Lemma read_lines_fault eid rid lines st i line :
  length st.2 = length st.1 →
  lines !! i = Some line → onset_line line →
  ¬ (numeric float line ∧ rid + i < length st.1 + grows eid (take (S i) lines)) →
  (∀ j line', j < i → lines !! j = Some line' → onset_line line' →
     numeric float line' ∧ rid + j < length st.1 + grows eid (take (S j) lines)) →
  read_lines float eid rid lines st
  = Raise (if decide (numeric float line) then IndexError else ValueError).
Proof.
  revert rid st i. induction lines as [|l lines IH]; intros rid st i Hlen; [done|].
  cbn [read_lines]. destruct i as [|i]; cbn [lookup list_lookup].
  - intros [= ->] Honset Hfault _. rewrite read_line_fault; [done..|].
    cbn [firstn] in Hfault; rewrite ?take_0 in Hfault. intros [? ?]. apply Hfault. split; [done|lia].
  - intros Hi Honset Hfault Hbefore.
    destruct (read_line_ok eid rid l st Hlen) as (st1 & -> & Hlen1 & Hgrow1).
    { intros Honset'. destruct (Hbefore 0 l ltac:(lia) eq_refl Honset') as [? Hr].
      cbn [firstn] in Hr; rewrite ?take_0 in Hr. split; [done|lia]. }
    cbn [mbind result_bind]. apply (IH (S rid) st1 i Hlen1 Hi Honset).
    + intros [? Hr]. apply Hfault. split; [done|].
      cbn [firstn]. rewrite grows_cons. lia.
    + intros j line' Hj Hline' Honset'.
      destruct (Hbefore (S j) line' ltac:(lia) Hline' Honset') as [? Hr].
      split; [done|]. cbn [firstn] in Hr; rewrite ?take_0 in Hr. rewrite grows_cons in Hr. lia.
Qed.

(** In the first file, read from its first line into no runs, a line has a
    run to extend exactly when no blank line comes before it. *)
Lemma in_range_first (first : list string) (i : nat) (line : string) :
  first !! i = Some line → onset_line line →
  in_range first 0 i ↔ 0 + i < length (([], []) : list (list Qc) * list (list Z)).1
                                + grows 0 (take (S i) first).
Proof.
  intros Hi Honset. cbn [in_range fst length grows Nat.eqb].
  rewrite (take_S_r _ _ _ Hi). unfold run_count at 2. rewrite filter_app, length_app.
  fold (run_count (take i first)). fold (run_count [line]).
  rewrite (run_count_onset line Honset).
  pose proof (run_count_le (take i first)) as Hle. rewrite length_take in Hle. lia.
Qed.

Lemma read_files_ok eid files st d :
  eid ≠ 0 → length st.2 = length st.1 →
  (∀ k name lines i line, files !! k = Some (name, lines) → lines !! i = Some line →
     onset_line line → numeric float line ∧ i < length st.1) →
  ∃ st' d', read_files float eid files st d = Ok (st', d').
Proof.
  revert eid st d. induction files as [|[name lines] files IH]; intros eid st d Heid Hlen Hfine.
  - by exists st, d.
  - cbn [read_files].
    destruct (read_lines_ok eid 0 lines st Hlen) as (st1 & -> & Hlen1 & Hgrow1).
    { intros i line Hi Honset. destruct (Hfine 0 name lines i line eq_refl Hi Honset).
      split; [done|lia]. }
    cbn [mbind result_bind]. unfold grows in Hgrow1.
    rewrite (proj2 (Nat.eqb_neq eid 0)) in Hgrow1 by done.
    apply IH; [lia|done|]. intros k name' lines' i line Hk Hi Honset.
    destruct (Hfine (S k) name' lines' i line Hk Hi Honset). split; [done|lia].
Qed.

Lemma read_files_fault eid files st d k name lines i line :
  eid ≠ 0 → length st.2 = length st.1 →
  files !! k = Some (name, lines) → lines !! i = Some line → onset_line line →
  ¬ (numeric float line ∧ i < length st.1) →
  (∀ k' name' lines' i' line', files !! k' = Some (name', lines') →
     lines' !! i' = Some line' → k' < k ∨ (k' = k ∧ i' < i) → onset_line line' →
     numeric float line' ∧ i' < length st.1) →
  read_files float eid files st d
  = Raise (if decide (numeric float line) then IndexError else ValueError).
Proof.
  revert eid st d k. induction files as [|[name' lines'] files IH];
    intros eid st d k Heid Hlen; [done|].
  assert (grows eid = λ _, 0) as Hgrows.
  { unfold grows. by rewrite (proj2 (Nat.eqb_neq eid 0)). }
  cbn [read_files]. destruct k as [|k]; cbn [lookup list_lookup].
  - intros [= -> ->] Hi Honset Hfault Hbefore.
    rewrite (read_lines_fault eid 0 lines st i line); [done..| |].
    + rewrite Hgrows. intros [? ?]. apply Hfault. split; [done|lia].
    + intros j line' Hj Hline' Honset'. rewrite Hgrows.
      destruct (Hbefore 0 name lines j line' eq_refl Hline' ltac:(lia) Honset').
      split; [done|lia].
  - intros Hk Hi Honset Hfault Hbefore.
    destruct (read_lines_ok eid 0 lines' st Hlen) as (st1 & -> & Hlen1 & Hgrow1).
    { intros i' line' Hi' Honset'. rewrite Hgrows.
      destruct (Hbefore 0 name' lines' i' line' eq_refl Hi' ltac:(lia) Honset').
      split; [done|lia]. }
    cbn [mbind result_bind]. rewrite Hgrows in Hgrow1.
    apply (IH (S eid) st1 _ k ltac:(lia) Hlen1 Hk Hi Honset).
    + intros [? ?]. apply Hfault. split; [done|lia].
    + intros k' name'' lines'' i' line' Hk' Hi' Hord Honset'.
      destruct (Hbefore (S k') name'' lines'' i' line' Hk' Hi' ltac:(lia) Honset').
      split; [done|lia].
Qed.

(** C7, as the code has it. [read_events] does not compare run counts and
    has no error of its own. It returns when every line with onsets has
    numbers for tokens and a run to extend, whatever the numbers of non-blank
    lines of the files. Otherwise the first line, in reading order, that has
    not decides: it raises [ValueError] when one of its tokens is not a
    number, and [IndexError] when the tokens are numbers and the run is
    missing, which for a file after the first is a line index at or beyond
    the number of non-blank lines of the first file. *)
Theorem read_events_beyond_runs (name0 : string) (first : list string)
    (rest : list (string * list string)) :
  ((∀ k name lines i line,
      ((name0, first) :: rest) !! k = Some (name, lines) → lines !! i = Some line →
      readable float first k i line) →
   ∃ evs d, read_events float ((name0, first) :: rest) = Ok (evs, d))
  ∧ (∀ k name lines i line,
       ((name0, first) :: rest) !! k = Some (name, lines) → lines !! i = Some line →
       onset_line line → ¬ (numeric float line ∧ in_range first k i) →
       (∀ k' name' lines' i' line',
          ((name0, first) :: rest) !! k' = Some (name', lines') →
          lines' !! i' = Some line' → k' < k ∨ (k' = k ∧ i' < i) →
          readable float first k' i' line') →
       read_events float ((name0, first) :: rest)
       = Raise (if decide (numeric float line) then IndexError else ValueError)).
Proof.
  unfold read_events. cbn [read_files]. split.
  - intros Hfine.
    destruct (read_lines_ok 0 0 first ([], [])) as (st1 & -> & Hlen1 & Hgrow1); [done| |].
    { intros i line Hi Honset.
      destruct (Hfine 0 name0 first i line eq_refl Hi Honset) as [Hnum Hin].
      split; [done|]. by apply (in_range_first first i line Hi Honset). }
    cbn [mbind result_bind]. cbn [fst length grows Nat.eqb] in Hgrow1.
    destruct (read_files_ok 1 rest st1 (<[name0 := (Z.of_nat 0 + 1)%Z]> ∅))
      as (st' & d' & ->); [done|done| |].
    + intros k name lines i line Hk Hi Honset.
      destruct (Hfine (S k) name lines i line Hk Hi Honset) as [Hnum Hin].
      split; [done|]. cbn [in_range] in Hin. lia.
    + cbn [mbind result_bind]. destruct st'. by eexists _, _.
  - intros k name lines i line Hk Hi Honset Hfault Hbefore. destruct k as [|k].
    + cbn [lookup list_lookup] in Hk. injection Hk as <- <-.
      rewrite (read_lines_fault 0 0 first ([], []) i line); [done..| |].
      * intros [? Hr]. apply Hfault. split; [done|]. by apply (in_range_first first i line Hi Honset).
      * intros j line' Hj Hline' Honset'.
        destruct (Hbefore 0 name0 first j line' eq_refl Hline' ltac:(lia) Honset').
        split; [done|]. by apply (in_range_first first j line' Hline' Honset').
    + cbn [lookup list_lookup] in Hk.
      destruct (read_lines_ok 0 0 first ([], [])) as (st1 & -> & Hlen1 & Hgrow1); [done| |].
      { intros i' line' Hi' Honset'.
        destruct (Hbefore 0 name0 first i' line' eq_refl Hi' ltac:(lia) Honset').
        split; [done|]. by apply (in_range_first first i' line' Hi' Honset'). }
      cbn [mbind result_bind]. cbn [fst length grows Nat.eqb] in Hgrow1.
      rewrite (read_files_fault 1 rest st1 _ k name lines i line); [done..| |].
      * intros [? ?]. apply Hfault. split; [done|]. cbn [in_range]. lia.
      * intros k' name' lines' i' line' Hk' Hi' Hord Honset'.
        destruct (Hbefore (S k') name' lines' i' line' Hk' Hi' ltac:(lia) Honset') as [? Hin].
        split; [done|]. cbn [in_range] in Hin. lia.
Qed.

Lemma read_line_raise eid rid line st err :
  read_line float eid rid line st = Raise err →
  onset_line line ∧ err = if decide (numeric float line) then IndexError else ValueError.
Proof.
  unfold read_line. case_bool_decide as Hblank; [done|].
  destruct (startswith "*" (strip line)) eqn:Hstar; cbn [negb]; [done|].
  intros Hraise. split; [done|]. destruct (decide (numeric float line)) as [Hnum|Hnum].
  - destruct (parse_numeric _ Hnum) as [t_run Ht]. rewrite Ht in Hraise.
    cbn [mbind result_bind] in Hraise.
    destruct (getitem (if eid =? 0 then st.1 ++ [[]] else st.1) rid) eqn:H1;
      cbn [mbind result_bind] in Hraise.
    + destruct (getitem (if eid =? 0 then st.2 ++ [[]] else st.2) rid) eqn:H2;
        cbn [mbind result_bind] in Hraise; [done|].
      injection Hraise as <-. by eapply getitem_error.
    + injection Hraise as <-. by eapply getitem_error.
  - rewrite parse_not_numeric in Hraise by done. by injection Hraise as <-.
Qed.

Lemma read_lines_gap rid lines st i line :
  lines !! i = Some line → onset_line line →
  length st.1 + run_count (take i lines) < rid + i →
  (∀ j line', j ≤ i → lines !! j = Some line' → onset_line line' → numeric float line') →
  read_lines float 0 rid lines st = Raise IndexError.
Proof.
  revert rid st i. induction lines as [|l lines IH]; intros rid st i; [done|].
  cbn [read_lines]. destruct i as [|i]; cbn [lookup list_lookup].
  - intros [= ->] Honset Hlen Hnum. rewrite read_line_fault; [|done|].
    + rewrite decide_True; [done|]. by apply (Hnum 0 line).
    + intros [_ Hr]. cbn [grows Nat.eqb] in Hr. rewrite take_0 in Hlen.
      rewrite (run_count_onset line) in Hr by done. unfold run_count in Hlen.
      cbn in Hlen. lia.
  - intros Hi Honset Hlen Hnum.
    destruct (read_line float 0 rid l st) as [st1|err] eqn:Hline; cbn [mbind result_bind].
    + apply (IH (S rid) st1 i Hi Honset).
      * apply read_line_length_first in Hline. cbn [firstn] in Hlen.
        rewrite run_count_cons in Hlen. lia.
      * intros j line' Hj. apply (Hnum (S j)). lia.
    + apply read_line_raise in Hline as [Honset' ->].
      rewrite decide_True; [done|]. by apply (Hnum 0 l); [lia|..].
Qed.

(** X12: blank lines are skipped but still counted: a line with onsets in
    the first file that comes after a blank line has no run to extend, and
    [read_events] raises [IndexError] when the tokens read up to that line
    are numbers. *)
Theorem read_events_blank_line (name0 : string) (first : list string)
    (rest : list (string * list string)) (j i : nat) (blank line : string) :
  first !! j = Some blank → strip blank = EmptyString → j < i →
  first !! i = Some line → onset_line line →
  (∀ i' line', i' ≤ i → first !! i' = Some line' → onset_line line' →
     numeric float line') →
  read_events float ((name0, first) :: rest) = Raise IndexError.
Proof.
  intros Hj Hblank Hji Hi Honset Hnum.
  unfold read_events. cbn [read_files].
  rewrite (read_lines_gap 0 first ([], []) i line Hi Honset); [done| |done].
  cbn [fst length]. apply Nat.lt_le_trans with (length (take i first)).
  - apply (length_filter_lt _ _ blank); [|by intros ?].
    apply list_elem_of_lookup. exists j. by rewrite lookup_take_lt.
  - rewrite length_take. lia.
Qed.

End timing_faults.

Lemma read_events_beyond_runs_witness :
  read_events Sample.float [("A", Sample.file_a); ("B", Sample.file_b3)] = Raise IndexError.
Proof.
  pose proof (proj2 (read_events_beyond_runs Sample.float "A" Sample.file_a
                       [("B", Sample.file_b3)])
                1 "B" Sample.file_b3 2 ("7" +:+ String "010" "")) as H.
  rewrite decide_True in H by (apply (bool_decide_unpack _); by vm_compute).
  apply H.
  - reflexivity.
  - reflexivity.
  - split; [discriminate|reflexivity].
  - intros [_ Hin]. vm_compute in Hin. lia.
  - intros k' name' lines' i' line' Hk' Hi' Hord Honset.
    destruct k' as [|[|k']]; cbn [lookup list_lookup] in Hk'; [| |lia].
    + injection Hk' as <- <-.
      destruct i' as [|[|i']]; [| |done]; injection Hi' as <-;
        (split; [apply (bool_decide_unpack _); by vm_compute|by vm_compute]).
    + injection Hk' as <- <-.
      destruct i' as [|[|i']]; [| |lia]; injection Hi' as <-;
        destruct Honset as [_ Hstar]; discriminate Hstar.
Defined.

Lemma read_events_blank_line_witness :
  read_events Sample.float [("A", [String "010" ""; "1" +:+ String "010" ""])]
  = Raise IndexError.
Proof.
  apply (read_events_blank_line Sample.float "A" [String "010" ""; "1" +:+ String "010" ""]
           [] 0 1 (String "010" "") ("1" +:+ String "010" "")).
  - reflexivity.
  - reflexivity.
  - lia.
  - reflexivity.
  - split; [discriminate|reflexivity].
  - intros i' line' Hi' Hline' [Hblank _].
    destruct i' as [|[|i']]; [| |lia]; injection Hline' as <-.
    + by destruct Hblank.
    + apply (bool_decide_unpack _). by vm_compute.
Defined.

(** The files of the first witness, evaluated. *)
Example read_events_index_error :
  read_events Sample.float [("A", Sample.file_a); ("B", Sample.file_b3)] = Raise IndexError.
Proof. vm_compute. reflexivity. Qed.

(** Fewer runs are not enough to be accepted: a second file with two
    non-blank lines, against three in the first, has the second of them on
    its fourth line. *)
Example read_events_fewer_runs_rejected :
  run_count ["4" +:+ String "010" ""; String "010" ""; String "010" "";
             "5" +:+ String "010" ""] = 2
  ∧ run_count ["1" +:+ String "010" ""; "2" +:+ String "010" ""; "3" +:+ String "010" ""] = 3
  ∧ read_events Sample.float
      [("A", ["1" +:+ String "010" ""; "2" +:+ String "010" ""; "3" +:+ String "010" ""]);
       ("B", ["4" +:+ String "010" ""; String "010" ""; String "010" "";
              "5" +:+ String "010" ""])]
    = Raise IndexError.
Proof. split_and!; [by vm_compute..|]. vm_compute. reflexivity. Qed.

(** A token that is not a number on a line that could be stored. *)
Example read_events_value_error :
  read_events Sample.float [("A", ["1 x" +:+ String "010" ""])] = Raise ValueError.
Proof. vm_compute. reflexivity. Qed.

(** C7 as stated does not hold: condition A describes two runs, condition B
    one, and [read_events] returns two runs, the second without events of
    condition B. *)
Lemma read_events_accepts_fewer_runs :
  run_count Sample.file_a ≠ run_count Sample.file_b1
  ∧ read_events Sample.float [("A", Sample.file_a); ("B", Sample.file_b1)]
    = Ok ([[Event (Sample.z 1) (Sample.z 0) 1; Event (Sample.z 2) (Sample.z 0) 1;
            Event (Sample.z 4) (Sample.z 0) 2];
           [Event (Sample.z 3) (Sample.z 0) 1]],
          {[ "A" := 1%Z; "B" := 2%Z ]}).
Proof. split; [by vm_compute|]. vm_compute. reflexivity. Qed.

(** ** What a selection writes, and what it returns for a window of time *)

Section selection_effects.

Lemma differs_at_refl l keys (h : heap) : differs_at l keys h h.
Proof. by split. Qed.

Lemma differs_at_trans l keys (h1 h2 h3 : heap) :
  differs_at l keys h1 h2 → differs_at l keys h2 h3 → differs_at l keys h1 h3.
Proof.
  intros [Ha Hb] [Ha' Hb']. split.
  - intros l' Hl. by rewrite Ha', Ha.
  - intros k Hk. by rewrite Hb', Hb.
Qed.

Lemma differs_at_setitem l keys k v (h : heap) :
  k ∈ keys → differs_at l keys h (setitem l k v h).2.
Proof.
  intros Hk. unfold setitem. cbn [snd]. split.
  - intros l' Hl. by rewrite lookup_insert_ne.
  - intros k' Hk'. rewrite lookup_insert_eq. cbn.
    rewrite lookup_insert_ne by (intros ->; done). by destruct (h !! l).
Qed.

Lemma differs_at_bind {A B} l keys (m : M A) (k : A → M B) :
  (∀ h, differs_at l keys h (m h).2) → (∀ a h, differs_at l keys h (k a h).2) →
  ∀ h, differs_at l keys h (bind m k h).2.
Proof.
  intros Hm Hk h. unfold bind. specialize (Hm h). destruct (m h) as [[a|err] h']; [|done].
  cbn [snd] in Hm. eapply differs_at_trans; [exact Hm|apply Hk].
Qed.

Ltac differs_step :=
  first [ apply differs_at_bind; [|intros ?]
        | intros ?; apply differs_at_refl
        | intros ?; apply differs_at_setitem;
          repeat first [apply list_elem_of_here | apply list_elem_of_further] ].

(** X13: whatever it is asked and whether it returns or raises, [pick]
    leaves every other dictionary as it was, and in the [info] dictionary of
    its collection it touches the entries [condition], [tmin] and [tmax]
    only. *)
Theorem pick_writes_within (e : Epochs.t) (event : option Epochs.event_arg)
    (feature : option pyindex) (time : option Epochs.time_arg) (h : heap) :
  differs_at (Epochs.info e) ["condition"; "tmin"; "tmax"] h
    (Epochs.pick e event feature time h).2.
Proof.
  revert h. unfold Epochs.pick, Epochs.copy, _copy.
  apply differs_at_bind.
  - destruct event as [[s|[|s l]|[a b|[|b m]|[|j js]]]|]; repeat differs_step.
  - intros sel_event. repeat differs_step.
Qed.

Lemma pick_bounds_written e event feature time (h : heap) c :
  (Epochs.pick e event feature time h).1 = Ok c →
  ∃ t0 t1 d,
    Epochs.times c !! 0 = Some t0 ∧ last (Epochs.times c) = Some t1
    ∧ Epochs.info c = Epochs.info e
    ∧ (Epochs.pick e event feature time h).2 !! Epochs.info e = Some d
    ∧ d !! "tmin" = Some (VNum t0) ∧ d !! "tmax" = Some (VNum t1).
Proof.
  unfold Epochs.pick, Epochs.copy, _copy.
  match goal with |- context [bind _ ?K h] => set (k := K) end.
  assert (∀ ix h', (k ix h').1 = Ok c →
    ∃ t0 t1 d,
      Epochs.times c !! 0 = Some t0 ∧ last (Epochs.times c) = Some t1
      ∧ Epochs.info c = Epochs.info e
      ∧ (k ix h').2 !! Epochs.info e = Some d
      ∧ d !! "tmin" = Some (VNum t0) ∧ d !! "tmax" = Some (VNum t1)) as Hk;
    [unfold k|clearbody k].
  { intros sel_event h'.
    rewrite bind_lift. destruct (index_axis0 sel_event _) as [inst_events|]; [|done].
    rewrite bind_lift. destruct (index_axis0 _ (Epochs.times e)) as [inst_times|]; [|done].
    rewrite bind_lift. unfold getitem.
    destruct (inst_times !! 0) as [t0|] eqn:H0; [|done].
    rewrite bind_setitem, bind_lift. destruct (last inst_times) as [t1|] eqn:H1; [|done].
    rewrite bind_setitem, bind_lift. destruct (index3 _ _ _ _) as [d|]; [|done].
    unfold ret. cbn [fst snd]. intros [= <-]. cbn [Epochs.times Epochs.info].
    eexists t0, t1, _. split_and!; [done|done|done|apply lookup_insert_eq|..].
    - rewrite lookup_insert_eq. cbn. by rewrite lookup_insert_ne, lookup_insert_eq.
    - by rewrite lookup_insert_eq. }
  destruct event as [[s|[|s l]|[a b|[|b m]|[|j js]]]|];
    rewrite ?bind_ret, ?bind_bind, ?bind_lift; try done; exact (Hk _ _).
Qed.

(** X14: when [pick] returns, the [info] dictionary of the collection it
    returns holds the first sample of its grid under [tmin] and the last
    one under [tmax]. *)
Theorem pick_updates_bounds (e : Epochs.t) (event : option Epochs.event_arg)
    (feature : option pyindex) (time : option Epochs.time_arg) (h : heap) (c : Epochs.t) :
  (Epochs.pick e event feature time h).1 = Ok c →
  ∃ t0 t1 d,
    Epochs.times c !! 0 = Some t0 ∧ last (Epochs.times c) = Some t1
    ∧ (Epochs.pick e event feature time h).2 !! Epochs.info c = Some d
    ∧ d !! "tmin" = Some (VNum t0) ∧ d !! "tmax" = Some (VNum t1).
Proof.
  intros (t0 & t1 & d & H0 & H1 & Hinfo & Hd & Hmin & Hmax)%pick_bounds_written.
  exists t0, t1, d. by rewrite Hinfo.
Qed.

Lemma pick_updates_bounds_witness :
  ∃ t0 t1 d,
    Epochs.times Sample.epochs0_x !! 0 = Some t0
    ∧ last (Epochs.times Sample.epochs0_x) = Some t1
    ∧ (Epochs.pick Sample.epochs0 (Some (Epochs.EvName "Cond/X")) None None Sample.heap1).2
        !! Epochs.info Sample.epochs0_x = Some d
    ∧ d !! "tmin" = Some (VNum t0) ∧ d !! "tmax" = Some (VNum t1).
Proof.
  apply (pick_updates_bounds Sample.epochs0 (Some (Epochs.EvName "Cond/X")) None None
           Sample.heap1 Sample.epochs0_x).
  vm_compute. reflexivity.
Defined.

End selection_effects.

Section selection_results.
Local Open Scope Qc_scope.

Lemma compress_filter {A} (P : A → Prop) `{!∀ x, Decision (P x)} (f : A → bool)
    (l : list A) :
  (∀ x, f x = true ↔ P x) → compress (map f l) l = filter P l.
Proof.
  intros Hf. induction l as [|x l IH]; [done|]. cbn [map compress].
  destruct (f x) eqn:Hx.
  - rewrite filter_cons_True by by apply Hf. by rewrite IH.
  - rewrite filter_cons_False; [done|]. intros HP%Hf. congruence.
Qed.

Lemma window_mask (lo hi : Qc) (ts : list Qc) :
  compress (map (λ x, bool_decide (lo ≤ x) && bool_decide (x ≤ hi)) ts) ts
  = filter (λ t, lo ≤ t ∧ t ≤ hi) ts.
Proof.
  apply compress_filter. intros x.
  by rewrite andb_true_iff, !bool_decide_eq_true.
Qed.

Lemma flatnonzero_length {A} (m : list bool) (l : list A) :
  length m = length l → length (flatnonzero m) = length (compress m l).
Proof.
  intros Hlen. rewrite <- (gather_nonzero_from_0 l m Hlen), gather_length; [done|].
  eapply Forall_impl; [apply (nonzero_from_bound 0 m)|]. intros p. cbn beta. lia.
Qed.

(** X15: a selection by a pair of bounds keeps the samples of the grid that
    lie between them, both included, whatever else is selected; and with
    nothing else selected it returns as soon as one sample does. *)
Theorem pick_time_window (e : Epochs.t) (event : option Epochs.event_arg)
    (feature : option pyindex) (lo hi : Qc) (h : heap) :
  let kept := filter (λ t, lo ≤ t ∧ t ≤ hi) (Epochs.times e) in
  (∀ c, (Epochs.pick e event feature (Some (Epochs.TimeBounds lo hi)) h).1 = Ok c →
     Epochs.times c = kept ∧ kept ≠ [] ∧ n_times (Epochs.data c) = length kept)
  ∧ (length (Epochs.times e) = n_times (Epochs.data e) → kept ≠ [] →
     ∃ c, (Epochs.pick e None None (Some (Epochs.TimeBounds lo hi)) h).1 = Ok c).
Proof.
  intros kept. split.
  - intros c. rewrite pick_fst. unfold pick_result.
    destruct (sel_event_of e event) as [se|]; [|done]. cbn [mbind result_bind].
    destruct (index_axis0 se _) as [evs|]; [|done]. cbn [mbind result_bind].
    cbn [sel_time_of Epochs.time_bounds].
    rewrite index_axis0_mask by by rewrite length_map. cbn [mbind result_bind].
    rewrite window_mask. fold kept.
    destruct (getitem kept 0) as [t0|] eqn:H0; [|done]. cbn [mbind result_bind].
    destruct (last kept) as [t1|]; [|done]. cbn [mbind result_bind].
    unfold index3.
    destruct (resolve se _) as [pe|]; [|done]. cbn [mbind result_bind].
    destruct (resolve _ (n_features _)) as [pf|]; [|done]. cbn [mbind result_bind].
    cbn [resolve]. destruct (_ =? _); [|done].
    cbn [mbind result_bind]. intros [= <-]. cbn [Epochs.times Epochs.data n_times].
    split_and!; [done| |].
    + intros Hnil. by rewrite Hnil in H0.
    + rewrite (flatnonzero_length _ (Epochs.times e)) by by rewrite length_map.
      by rewrite window_mask.
  - intros Hlen Hkept. rewrite pick_fst. unfold pick_result, sel_event_of.
    cbn [mbind result_bind]. rewrite index_axis0_all. cbn [mbind result_bind].
    cbn [sel_time_of Epochs.time_bounds].
    rewrite index_axis0_mask by by rewrite length_map. cbn [mbind result_bind].
    rewrite window_mask. fold kept.
    destruct (getitem_0_Ok _ Hkept) as [t0 ->]. cbn [mbind result_bind].
    destruct (last_Ok _ Hkept) as [t1 ->]. cbn [mbind result_bind].
    unfold index3. rewrite !resolve_all. cbn [mbind result_bind resolve].
    rewrite length_map, Hlen, Nat.eqb_refl. cbn [mbind result_bind]. by eexists.
Qed.

Lemma compress_none {A} (m : list bool) (l : list A) :
  Forall (λ b, b = false) m → compress m l = [].
Proof.
  intros Hm. revert l. induction Hm as [|b m -> _ IH]; intros [|x l]; try done.
  cbn [compress]. apply IH.
Qed.

(** X16: a name that no name of the dictionary matches selects nothing and
    raises nothing: the collection returned has no event, no tensor row and
    an empty dictionary, on the grid of the source. *)
Theorem pick_name_without_match (e : Epochs.t) (key : string) (h : heap) :
  Epochs.matched_id e key = [] → Epochs.times e ≠ [] → rows_agree e →
  ∃ c, (Epochs.pick e (Some (Epochs.EvName key)) None None h).1 = Ok c
     ∧ Epochs.events c = [] ∧ items (Epochs.data c) = []
     ∧ Epochs.event_id c = ∅ ∧ Epochs.times c = Epochs.times e.
Proof.
  intros Hkey Htimes Hrows.
  set (m := name_mask e [key]).
  assert (length m = length (Epochs.events e)) as Hlen
    by (unfold m, name_mask; by rewrite length_map).
  assert (Forall (λ b, b = false) m) as Hm.
  { unfold m, name_mask. apply List.Forall_map, Forall_forall. intros ev _.
    cbn [existsb]. rewrite Hkey, orb_false_r. apply bool_decide_eq_false_2.
    by intros ?%elem_of_nil. }
  rewrite pick_fst. unfold pick_result.
  rewrite (sel_event_of_names e (Epochs.EvName key) [key]) by done.
  fold m. cbn [mbind result_bind].
  rewrite index_axis0_mask by done. cbn [mbind result_bind sel_time_of].
  rewrite index_axis0_all. cbn [mbind result_bind].
  destruct (getitem_0_Ok _ Htimes) as [t0 ->]. cbn [mbind result_bind].
  destruct (last_Ok _ Htimes) as [t1 ->]. cbn [mbind result_bind].
  unfold rows_agree in Hrows. unfold index3. cbn [resolve].
  replace (length (items (Epochs.data e))) with (length m) by lia.
  rewrite Nat.eqb_refl, !resolve_all. cbn [mbind result_bind].
  eexists. split; [done|]. cbn [Epochs.events Epochs.event_id Epochs.data items Epochs.times].
  rewrite gather_nonzero_from_0 by lia. rewrite !compress_none by done.
  split_and!; [done..| |done].
  apply map_empty. intros name. apply map_lookup_filter_None. right.
  intros id _ Hid. by apply elem_of_nil in Hid.
Qed.

Lemma pick_name_without_match_witness :
  ∃ c, (Epochs.pick Sample.epochs0 (Some (Epochs.EvName "Z")) None None Sample.heap1).1 = Ok c
     ∧ Epochs.events c = [] ∧ items (Epochs.data c) = []
     ∧ Epochs.event_id c = ∅ ∧ Epochs.times c = Epochs.times Sample.epochs0.
Proof.
  apply (pick_name_without_match Sample.epochs0 "Z" Sample.heap1).
  - vm_compute. reflexivity.
  - discriminate.
  - reflexivity.
Defined.

End selection_results.

(** ** Selecting the same name again *)

Section reselection.

Lemma gather_beyond {A} (l : list A) (i n : nat) :
  length l ≤ i → gather l (seq i n) = [].
Proof.
  revert i. induction n as [|n IH]; intros i Hi; [done|].
  cbn [seq]. unfold gather. csimpl. rewrite lookup_ge_None_2 by done. csimpl.
  apply IH. lia.
Qed.

Lemma gather_seq_take {A} (pre l : list A) (n : nat) :
  gather (pre ++ l) (seq (length pre) n) = take n l.
Proof.
  revert pre l. induction n as [|n IH]; intros pre l; [done|].
  destruct l as [|x l].
  - rewrite app_nil_r. by apply gather_beyond.
  - cbn [seq take]. unfold gather. csimpl.
    rewrite lookup_app_r, Nat.sub_diag by lia. csimpl. f_equal.
    specialize (IH (pre ++ [x]) l). rewrite length_app, <-app_assoc in IH.
    cbn [length] in IH. by replace (length pre + 1) with (S (length pre)) in IH by lia.
Qed.

Lemma gather_take {A} (l : list A) (n : nat) : gather l (seq 0 n) = take n l.
Proof. apply (gather_seq_take [] l n). Qed.

Lemma map_filter_idemp (P : string * Z → Prop) `{!∀ p, Decision (P p)} (m : gmap string Z) :
  filter P (filter P m) = filter P m.
Proof.
  apply map_eq. intros i. apply option_eq. intros x.
  rewrite !map_lookup_filter_Some. tauto.
Qed.

Lemma selection_frame_all ts nf nt frame :
  selection_frame ts nf nt None None = Ok frame →
  ts ≠ [] ∧ frame = (ts, seq 0 nf, seq 0 nt).
Proof.
  unfold selection_frame. cbn [sel_time_of]. rewrite index_axis0_all, !resolve_all.
  cbn [mbind result_bind]. destruct ts as [|t ts]; [done|].
  destruct (getitem _ 0); [|done]. cbn [mbind result_bind].
  destruct (last _); [|done]. cbn [mbind result_bind]. by intros [= <-].
Qed.

Lemma selection_frame_all_Ok ts nf nt :
  ts ≠ [] → selection_frame ts nf nt None None = Ok (ts, seq 0 nf, seq 0 nt).
Proof.
  intros Hts. unfold selection_frame. cbn [sel_time_of].
  rewrite index_axis0_all, !resolve_all. cbn [mbind result_bind].
  destruct (getitem_0_Ok _ Hts) as [t0 ->]. cbn [mbind result_bind].
  by destruct (last_Ok _ Hts) as [t1 ->].
Qed.

(** X17: selecting by a name in what a selection by that name returned
    returns the same collection. *)
Theorem pick_by_name_idempotent (e : Epochs.t) (key : string) (h h' : heap) (c : Epochs.t) :
  rows_agree e →
  (Epochs.pick e (Some (Epochs.EvName key)) None None h).1 = Ok c →
  (Epochs.pick c (Some (Epochs.EvName key)) None None h').1 = Ok c.
Proof.
  intros Hrows. rewrite !pick_fst.
  rewrite (pick_result_frame e (Some (Epochs.EvName key)) None None _ eq_refl Hrows).
  cbn [mbind result_bind].
  destruct (selection_frame _ _ _ _ _) as [frame|] eqn:Hframe; [|done].
  cbn [mbind result_bind]. intros [= <-].
  apply selection_frame_all in Hframe as [Hts ->].
  set (flag := λ ev : event, _).
  set (c := select_rows flag _ e).
  assert (rows_agree c) as Hrows'.
  { unfold rows_agree, c, select_rows. cbn [Epochs.events Epochs.data items].
    rewrite length_map. by apply compress_length_le. }
  rewrite (pick_result_frame c (Some (Epochs.EvName key)) None None _ eq_refl Hrows').
  cbn [mbind result_bind].
  rewrite selection_frame_all_Ok by done.
  cbn [mbind result_bind]. f_equal.
  set (flag' := λ ev : event, _).
  assert (Forall (λ b, b = true) (map flag' (Epochs.events c))) as Hall.
  { apply List.Forall_map, Forall_forall. intros ev Hev.
    unfold flag'. cbn [existsb]. rewrite orb_false_r. apply bool_decide_eq_true_2.
    change (label ev ∈ Epochs.matched_id c key). apply elem_of_matched_id.
    pose proof Hev as Hev'. unfold c, select_rows in Hev'. cbn [Epochs.events] in Hev'.
    apply compress_elem_of in Hev' as (i & Hm & Hi).
    rewrite list_lookup_fmap, Hi in Hm. cbn in Hm. injection Hm as Hm.
    unfold flag in Hm. rewrite orb_false_r in Hm. apply bool_decide_eq_true_1 in Hm.
    change (label ev ∈ Epochs.matched_id e key) in Hm.
    apply elem_of_matched_id in Hm as (name & Hname & Hsub).
    exists name. split; [|done]. unfold c at 1, select_rows. cbn [Epochs.event_id].
    apply map_lookup_filter_Some. split; [done|]. cbn [snd].
    apply list_elem_of_fmap. by exists ev. }
  unfold select_rows at 1.
  rewrite !compress_true; [|by rewrite length_map..|done|by rewrite length_map|done].
  change (Epochs.event_id c)
    with (filter (λ p : string * Z, p.2 ∈ labels (Epochs.events c)) (Epochs.event_id e)).
  rewrite map_filter_idemp.
  change (n_features (Epochs.data c)) with (length (seq 0 (n_features (Epochs.data e)))).
  change (n_times (Epochs.data c)) with (length (seq 0 (n_times (Epochs.data e)))).
  rewrite !length_seq.
  unfold c, select_rows. cbn [Epochs.events Epochs.info Epochs.times Epochs.data items].
  rewrite !length_seq. f_equal. f_equal.
  rewrite map_map. apply map_ext. intros mm.
  rewrite !gather_take, <- fmap_take, take_take, Nat.min_id, map_map.
  apply map_ext. intros r. by rewrite !gather_take, take_take, Nat.min_id.
Qed.

Lemma pick_by_name_idempotent_witness :
  (Epochs.pick Sample.epochs0_x (Some (Epochs.EvName "Cond/X")) None None Sample.heap2).1
  = Ok Sample.epochs0_x.
Proof.
  apply (pick_by_name_idempotent Sample.epochs0 "Cond/X" Sample.heap1 Sample.heap2
           Sample.epochs0_x).
  - reflexivity.
  - vm_compute. reflexivity.
Defined.

End reselection.

(** ** Removing events *)

Section removal.

Lemma norm_index_in_range (n : nat) (j : Z) :
  (- Z.of_nat n ≤ j < Z.of_nat n)%Z → ∃ i, norm_index n j = Ok i.
Proof.
  intros Hj. unfold norm_index. case_bool_decide; [by eexists|].
  rewrite bool_decide_eq_true_2 by lia. by eexists.
Qed.

Lemma norm_index_out_of_range (n : nat) (j : Z) :
  ¬ (- Z.of_nat n ≤ j < Z.of_nat n)%Z → norm_index n j = Raise IndexError.
Proof.
  intros Hj. unfold norm_index. by rewrite !bool_decide_eq_false_2 by lia.
Qed.

Lemma mapM_norm_index_Ok (n : nat) (ids : list Z) :
  Forall (λ j, - Z.of_nat n ≤ j < Z.of_nat n)%Z ids →
  ∃ ps, mapM (norm_index n) ids = Ok ps.
Proof.
  induction 1 as [|j ids Hj _ [ps IH]]; [by eexists|].
  destruct (norm_index_in_range n j Hj) as [i Hi]. exists (i :: ps).
  cbn [mapM]. by rewrite Hi, IH.
Qed.

Lemma mapM_norm_index_Raise (n : nat) (ids : list Z) :
  ¬ Forall (λ j, - Z.of_nat n ≤ j < Z.of_nat n)%Z ids →
  mapM (norm_index n) ids = Raise IndexError.
Proof.
  induction ids as [|j ids IH]; intros Hids; [by destruct Hids|].
  cbn [mapM]. destruct (decide (- Z.of_nat n ≤ j < Z.of_nat n)%Z) as [Hj|Hj].
  - destruct (norm_index_in_range n j Hj) as [i ->]. cbn [mbind result_bind].
    rewrite IH; [done|]. intros Hrest. apply Hids. by constructor.
  - by rewrite norm_index_out_of_range.
Qed.

(** X18: on a collection with as many tensor rows as events, [drop_events]
    returns exactly when every index lies in [-n, n), [n] being the number
    of events, and raises [IndexError] otherwise. *)
Theorem drop_events_index_range (e : Epochs.t) (ids : list Z) :
  rows_agree e →
  let n := Z.of_nat (length (Epochs.events e)) in
  (Forall (λ j, - n ≤ j < n)%Z ids → ∃ c, Epochs.drop_events e ids = Ok c)
  ∧ (¬ Forall (λ j, - n ≤ j < n)%Z ids → Epochs.drop_events e ids = Raise IndexError).
Proof.
  intros Hrows n. unfold Epochs.drop_events, Epochs.copy, _copy, Np.delete.
  unfold rows_agree in Hrows. rewrite <- Hrows. split.
  - intros [ps ->]%mapM_norm_index_Ok. cbn [mbind result_bind]. by eexists.
  - intros ->%mapM_norm_index_Raise. done.
Qed.

Lemma drop_events_index_range_witness :
  let n := Z.of_nat (length (Epochs.events Sample.epochs0)) in
  (Forall (λ j, - n ≤ j < n)%Z [2%Z] → ∃ c, Epochs.drop_events Sample.epochs0 [2%Z] = Ok c)
  ∧ (¬ Forall (λ j, - n ≤ j < n)%Z [2%Z] →
     Epochs.drop_events Sample.epochs0 [2%Z] = Raise IndexError).
Proof. apply (drop_events_index_range Sample.epochs0 [2%Z]). reflexivity. Defined.

Lemma filter_not_in_length (ps : list nat) (n : nat) :
  NoDup ps → Forall (λ i, i < n) ps →
  length (filter (λ i, i ∉ ps) (seq 0 n)) + length ps = n.
Proof.
  intros Hnodup Hlt.
  pose proof (filter_app_complement (λ i, i ∈ ps) (seq 0 n)) as Hperm.
  apply Permutation_length in Hperm. rewrite length_app, length_seq in Hperm.
  assert (filter (λ i, i ∈ ps) (seq 0 n) ≡ₚ ps) as Hps.
  { apply NoDup_Permutation; [apply NoDup_filter, NoDup_seq|done|].
    intros x. rewrite list_elem_of_filter, elem_of_seq. rewrite Forall_forall in Hlt.
    split; [tauto|]. intros Hx. specialize (Hlt x Hx). split; [done|lia]. }
  apply Permutation_length in Hps. lia.
Qed.

Lemma mapM_norm_index_nonneg (n : nat) (ids : list Z) :
  Forall (λ j, 0 ≤ j < Z.of_nat n)%Z ids →
  mapM (norm_index n) ids = Ok (Z.to_nat <$> ids).
Proof.
  induction 1 as [|j ids Hj _ IH]; [done|].
  assert (norm_index n j = Ok (Z.to_nat j)) as Hi
    by (unfold norm_index; by rewrite bool_decide_eq_true_2).
  cbn [mapM]. by rewrite Hi, IH.
Qed.

Lemma gather_filter_sublist {A} (P : nat → Prop) `{!∀ i, Decision (P i)} (pre l : list A) :
  gather (pre ++ l) (filter P (seq (length pre) (length l))) `sublist_of` l.
Proof.
  revert pre. induction l as [|x l IH]; intros pre; [done|].
  cbn [length seq]. specialize (IH (pre ++ [x])).
  rewrite length_app, <- app_assoc in IH. cbn [length app] in IH.
  replace (length pre + 1) with (S (length pre)) in IH by lia.
  destruct (decide (P (length pre))).
  - rewrite filter_cons_True by done. unfold gather. csimpl.
    rewrite lookup_app_r, Nat.sub_diag by lia. csimpl. by apply sublist_skip.
  - rewrite filter_cons_False by done. by apply sublist_cons.
Qed.

Lemma delete_sublist {A} (l k : list A) (ids : list Z) :
  Np.delete l ids = Ok k → k `sublist_of` l.
Proof.
  intros (ps & _ & -> & _)%delete_inv. apply (gather_filter_sublist _ [] l).
Qed.

(** X19: [drop_events] keeps the events and the tensor rows it does not
    remove in their order, whatever the indices; for distinct indices
    counted from the front it removes as many events as it was given
    indices. *)
Theorem drop_events_count (e : Epochs.t) (ids : list Z) (c : Epochs.t) :
  Epochs.drop_events e ids = Ok c →
  Epochs.events c `sublist_of` Epochs.events e
  ∧ items (Epochs.data c) `sublist_of` items (Epochs.data e)
  ∧ (NoDup ids → Forall (λ j, 0 ≤ j)%Z ids →
     length (Epochs.events c) + length ids = length (Epochs.events e)).
Proof.
  unfold Epochs.drop_events, Epochs.copy, _copy.
  destruct (Np.delete (items _) ids) as [d|] eqn:Hd; [|done]. cbn [mbind result_bind].
  destruct (Np.delete (Epochs.events e) ids) as [evs|] eqn:Hevs; [|done].
  cbn [mbind result_bind]. intros [= <-]. cbn [Epochs.events Epochs.data items].
  split_and!; [by eapply delete_sublist..|].
  intros Hnodup Hids.
  apply delete_inv in Hevs as (ps & Hps & _ & ->).
  assert (Forall (λ j, 0 ≤ j < Z.of_nat (length (Epochs.events e)))%Z ids) as Hids'.
  { apply mapM_Ok_Forall2 in Hps. rewrite Forall_forall in Hids |- *. intros j Hj.
    apply list_elem_of_lookup in Hj as [i Hi].
    destruct (Forall2_lookup_l _ _ _ _ _ Hps Hi) as (p & _ & Hp).
    apply norm_index_lt in Hp as Hlt. specialize (Hids j ltac:(by eapply list_elem_of_lookup_2)).
    cbn beta in Hids. unfold norm_index in Hp. repeat case_bool_decide; try done; lia. }
  rewrite (mapM_norm_index_nonneg _ _ Hids') in Hps. injection Hps as <-.
  rewrite <- (length_fmap Z.to_nat ids). apply filter_not_in_length.
  - apply NoDup_fmap_2_strong; [|done]. intros x y Hx Hy Hxy.
    rewrite Forall_forall in Hids. pose proof (Hids x Hx) as Hx'. pose proof (Hids y Hy) as Hy'.
    cbn beta in Hx', Hy'. lia.
  - apply Forall_fmap. eapply Forall_impl; [exact Hids'|]. intros j Hj. cbn beta in Hj. cbn. lia.
Qed.

Lemma drop_events_count_witness :
  Epochs.events Sample.epochs0_x `sublist_of` Epochs.events Sample.epochs0
  ∧ items (Epochs.data Sample.epochs0_x) `sublist_of` items (Epochs.data Sample.epochs0)
  ∧ length (Epochs.events Sample.epochs0_x) + length [1%Z]
    = length (Epochs.events Sample.epochs0).
Proof.
  split_and!.
  - apply (drop_events_count Sample.epochs0 [(-1)%Z] Sample.epochs0_x).
    vm_compute. reflexivity.
  - apply (drop_events_count Sample.epochs0 [(-1)%Z] Sample.epochs0_x).
    vm_compute. reflexivity.
  - apply (drop_events_count Sample.epochs0 [1%Z] Sample.epochs0_x).
    + vm_compute. reflexivity.
    + apply (bool_decide_unpack _). by vm_compute.
    + apply (bool_decide_unpack _). by vm_compute.
Defined.

End removal.

(** ** Concatenation *)

Section joining.

Lemma concatinate_cons (e0 : Epochs.t) (l : list Epochs.t) :
  concatinate_epochs (e0 :: l) =
  if decide (Forall (λ e, n_features (Epochs.data e) = n_features (Epochs.data e0)
                          ∧ n_times (Epochs.data e) = n_times (Epochs.data e0)) l)
  then Ok {| Epochs.events := concat (map Epochs.events (e0 :: l));
             Epochs.event_id := foldl (λ m e, Epochs.event_id e ∪ m) ∅ (e0 :: l);
             Epochs.info := Epochs.info e0; Epochs.times := Epochs.times e0;
             Epochs.data := {| n_features := n_features (Epochs.data e0);
                               n_times := n_times (Epochs.data e0);
                               items := concat (map items (map Epochs.data (e0 :: l))) |} |}
  else Raise ValueError.
Proof.
  destruct (decide _) as [Hall|Hnot].
  - apply concatinate_Ok; [done|]. by constructor.
  - unfold concatinate_epochs, Epochs.copy, _copy, getitem.
    cbn [lookup list_lookup mbind result_bind]. unfold concatenate. cbn [map].
    destruct (forallb _ _) eqn:Hb; [|done]. exfalso. apply Hnot.
    rewrite forallb_forall in Hb. apply Forall_forall. intros e He.
    specialize (Hb (Epochs.data e)). rewrite andb_true_iff, !Nat.eqb_eq in Hb.
    apply Hb. right. apply in_map. by apply list_elem_of_In.
Qed.

(** X20: [concatinate_epochs] raises [IndexError] for no collection; for
    some it compares the inner extents of the tensors with those of the
    first and nothing else: if they agree it returns, with the grid and the
    [info] of the first collection and the events of all in order, and if
    they do not it raises [ValueError]. *)
Theorem concatinate_extents (e0 : Epochs.t) (l : list Epochs.t) :
  let same := λ e, n_features (Epochs.data e) = n_features (Epochs.data e0)
                   ∧ n_times (Epochs.data e) = n_times (Epochs.data e0) in
  concatinate_epochs [] = Raise IndexError
  ∧ (Forall same l →
     ∃ c, concatinate_epochs (e0 :: l) = Ok c
        ∧ Epochs.info c = Epochs.info e0 ∧ Epochs.times c = Epochs.times e0
        ∧ Epochs.events c = concat (map Epochs.events (e0 :: l))
        ∧ Epochs.n_events c = sum_list (map Epochs.n_events (e0 :: l)))
  ∧ (¬ Forall same l → concatinate_epochs (e0 :: l) = Raise ValueError).
Proof.
  intros same. split; [done|]. rewrite concatinate_cons. fold same. split.
  - intros Hall. rewrite decide_True by done. eexists. split; [done|].
    split_and!; [done..|]. unfold Epochs.n_events. cbn [Epochs.data items].
    rewrite length_concat, !map_map. done.
  - intros Hnot. by rewrite decide_False.
Qed.

(** X21: concatenating one collection returns it. *)
Theorem concatinate_singleton (e : Epochs.t) : concatinate_epochs [e] = Ok e.
Proof.
  rewrite concatinate_cons, decide_True by constructor.
  destruct e as [evs d info ts [nf nt its]]. cbn. rewrite !app_nil_r.
  by rewrite (right_id_L ∅ (∪)).
Qed.

Lemma merged_from (l : list Epochs.t) (acc : gmap string Z) :
  foldl (λ m e, Epochs.event_id e ∪ m) acc l
  = foldl (λ m e, Epochs.event_id e ∪ m) ∅ l ∪ acc.
Proof.
  revert acc. induction l as [|e l IH]; intros acc; cbn [foldl].
  - by rewrite (left_id_L ∅ (∪)).
  - rewrite (IH (_ ∪ acc)), (IH (_ ∪ ∅)), (right_id_L ∅ (∪)). by rewrite (assoc_L (∪)).
Qed.

(** X22: concatenation may be done in two steps: concatenating what two
    non-empty lists of collections concatenate to returns, or raises, what
    concatenating the two lists as one does. *)
Theorem concatinate_in_steps (l1 l2 : list Epochs.t) :
  l1 ≠ [] → l2 ≠ [] →
  (c1 ← concatinate_epochs l1; c2 ← concatinate_epochs l2; concatinate_epochs [c1; c2])
  = concatinate_epochs (l1 ++ l2).
Proof.
  destruct l1 as [|a l1]; [done|]. destruct l2 as [|b l2]; [done|]. intros _ _.
  rewrite <- app_comm_cons, !concatinate_cons.
  destruct (decide (Forall _ l1)) as [H1|H1]; cbn [mbind result_bind].
  2:{ rewrite decide_False; [done|]. by intros [? _]%Forall_app. }
  destruct (decide (Forall _ l2)) as [H2|H2]; cbn [mbind result_bind].
  2:{ rewrite decide_False; [done|]. intros [_ Hb]%Forall_app. apply H2.
      apply Forall_cons in Hb as [[Hf Ht] Hb]. eapply Forall_impl; [exact Hb|].
      intros e. cbn beta. by rewrite Hf, Ht. }
  rewrite concatinate_cons. cbn [Epochs.data n_features n_times].
  destruct (decide (n_features (Epochs.data b) = n_features (Epochs.data a)
                    ∧ n_times (Epochs.data b) = n_times (Epochs.data a))) as [[Hf Ht]|Hab].
  - rewrite !decide_True.
    + f_equal. cbn [Epochs.events Epochs.event_id Epochs.info Epochs.times Epochs.data
                    items map concat foldl].
      rewrite !app_nil_r, (right_id_L ∅ (∪)). f_equal.
      * by rewrite map_app, concat_app, <- app_assoc.
      * rewrite foldl_app. cbn [foldl]. rewrite (right_id_L ∅ (∪)).
        generalize (foldl (λ m e, Epochs.event_id e ∪ m) (Epochs.event_id a ∪ ∅) l1).
        intros d1.
        rewrite (merged_from l2 (Epochs.event_id b)), (merged_from l2 (_ ∪ d1)).
        by rewrite (assoc_L (∪)).
      * f_equal. by rewrite !map_app, concat_app, <- app_assoc.
    + apply Forall_app. split; [done|]. constructor; [done|].
      eapply Forall_impl; [exact H2|]. intros e. cbn beta. by rewrite Hf, Ht.
    + by repeat constructor.
  - rewrite !decide_False; [done| |].
    + intros [_ Hb]%Forall_app. by apply Forall_cons in Hb as [? _].
    + intros [? _]%Forall_cons. done.
Qed.

Lemma concatinate_in_steps_witness :
  (c1 ← concatinate_epochs [Sample.epochs0];
   c2 ← concatinate_epochs [Sample.run_b];
   concatinate_epochs [c1; c2])
  = concatinate_epochs ([Sample.epochs0] ++ [Sample.run_b]).
Proof. apply (concatinate_in_steps [Sample.epochs0] [Sample.run_b]); discriminate. Defined.

End joining.

(** ** The default dictionary *)

Section default_names.

Variable format_g : Z → string.

Lemma elem_of_unique (l : list Z) (x : Z) : x ∈ unique l ↔ x ∈ l.
Proof. unfold unique. rewrite merge_sort_Permutation. apply elem_of_remove_dups. Qed.

Lemma default_fold (L : list Z) (acc : gmap string Z) (name : string) (id : Z) :
  NoDup (format_g <$> L) →
  foldl (λ d id, <[format_g id := id]> d) acc L !! name = Some id ↔
  (id ∈ L ∧ name = format_g id) ∨ (acc !! name = Some id ∧ name ∉ format_g <$> L).
Proof.
  revert acc. induction L as [|x L IH]; intros acc Hnodup.
  - cbn [foldl fmap list_fmap]. split; [intros H; right; split; [done|apply not_elem_of_nil]|].
    intros [[[]%elem_of_nil _]|[H _]]. done.
  - rewrite fmap_cons in Hnodup. apply NoDup_cons in Hnodup as [Hx Hnodup].
    cbn [foldl]. rewrite (IH _ Hnodup), fmap_cons, not_elem_of_cons, elem_of_cons.
    split.
    + intros [[Hid ->]|[Hacc Hname]]; [by left; split; [right|]|].
      apply lookup_insert_Some in Hacc as [[<- <-]|[Hne Hacc]]; [by left; split; [left|]|].
      right. split; [done|]. split; [congruence|done].
    + intros [[[->|Hid] ->]|[Hacc [Hne Hname]]].
      * right. split; [apply lookup_insert_eq|done].
      * by left.
      * right. split; [|done]. by rewrite lookup_insert_ne.
Qed.

(** X23: when the distinct labels of the events are formatted differently,
    the default dictionary maps the format of each label to that label and
    holds nothing else. *)
Theorem default_event_id_entries (events : list event) (name : string) (id : Z) :
  NoDup (format_g <$> unique (labels events)) →
  Epochs._default_event_id format_g events !! name = Some id ↔
  id ∈ labels events ∧ name = format_g id.
Proof.
  intros Hnodup. unfold Epochs._default_event_id.
  rewrite (default_fold _ _ _ _ Hnodup), elem_of_unique, lookup_empty. split.
  - by intros [?|[[=] _]].
  - by left.
Qed.

End default_names.

Lemma default_event_id_entries_witness :
  Epochs._default_event_id label_digit (Epochs.events Sample.epochs0) !! "2" = Some 2%Z ↔
  2%Z ∈ labels (Epochs.events Sample.epochs0) ∧ "2" = label_digit 2%Z.
Proof.
  apply (default_event_id_entries label_digit (Epochs.events Sample.epochs0) "2" 2%Z).
  apply (bool_decide_unpack _). by vm_compute.
Defined.
(** ** Affine transforms *)

Section affine.
Local Open Scope Qc_scope.
Import Math.

Ltac mat3_eq := apply (f_equal3 M3); apply (f_equal3 V3).
Ltac affine_eq := apply (f_equal2 Affine); [mat3_eq|apply (f_equal3 V3)].

Lemma affine_row_compose (a : vec3) (c : Qc) (m : affine) (x y z : list Qc) :
  length x = length y → length y = length z →
  affine_row a c (affine_row (r0 (M m)) (v0 (v m)) x y z)
               (affine_row (r1 (M m)) (v1 (v m)) x y z)
               (affine_row (r2 (M m)) (v2 (v m)) x y z)
  = affine_row (V3 (dot a (column v0 (M m))) (dot a (column v1 (M m)))
                   (dot a (column v2 (M m))))
               (dot a (v m) + c) x y z.
Proof.
  revert y z. induction x as [|p x IH]; intros [|q y] [|r z] Hxy Hyz; try done.
  cbn [length] in Hxy, Hyz. unfold affine_row in *. cbn [zip zip_with].
  f_equal.
  - unfold dot, column. cbn [v0 v1 v2 fst snd]. ring.
  - apply (IH y z); lia.
Qed.

(** X24: applying the matrix [concat_affine mat2 mat1] to the points of a
    3-by-N array is applying [mat1] and then [mat2]. *)
Theorem apply_concat_affine (mat2 mat1 : affine) (x y z : list Qc) :
  length x = length y → length y = length z →
  apply_affine (concat_affine mat2 mat1) (x, y, z)
  = apply_affine mat2 (apply_affine mat1 (x, y, z)).
Proof.
  intros Hxy Hyz. unfold apply_affine, concat_affine.
  rewrite !affine_row_compose by done.
  cbn [M v matmul matvec vadd r0 r1 r2 v0 v1 v2]. done.
Qed.

Ltac affine_ring :=
  cbv [concat_affine matmul matvec vadd vopp dot column identity LPI2RAI
       M v r0 r1 r2 v0 v1 v2];
  affine_eq; ring.

Lemma concat_affine_assoc (a b c : affine) :
  concat_affine a (concat_affine b c) = concat_affine (concat_affine a b) c.
Proof.
  destruct a as [[[a1 a2 a3] [a4 a5 a6] [a7 a8 a9]] [a10 a11 a12]],
    b as [[[b1 b2 b3] [b4 b5 b6] [b7 b8 b9]] [b10 b11 b12]],
    c as [[[c1 c2 c3] [c4 c5 c6] [c7 c8 c9]] [c10 c11 c12]].
  affine_ring.
Qed.

Lemma concat_affine_id_l (a : affine) : concat_affine identity a = a.
Proof. destruct a as [[[a1 a2 a3] [a4 a5 a6] [a7 a8 a9]] [a10 a11 a12]]. affine_ring. Qed.

Lemma concat_affine_id_r (a : affine) : concat_affine a identity = a.
Proof. destruct a as [[[a1 a2 a3] [a4 a5 a6] [a7 a8 a9]] [a10 a11 a12]]. affine_ring. Qed.

Lemma LPI2RAI_twice : concat_affine LPI2RAI LPI2RAI = identity.
Proof. affine_ring. Qed.

(** X25: the matrix [LPI2RAI] is its own inverse, as the comment in the
    source says, and so changing the orientation of a transform twice gives
    the transform back. *)
Theorem LPI2RAI_affine_involutive (mat : affine) :
  concat_affine LPI2RAI LPI2RAI = identity
  ∧ LPI2RAI_affine (LPI2RAI_affine mat) = mat.
Proof.
  split; [exact LPI2RAI_twice|]. unfold LPI2RAI_affine.
  rewrite <- !concat_affine_assoc, LPI2RAI_twice, concat_affine_id_r.
  rewrite concat_affine_assoc, LPI2RAI_twice. apply concat_affine_id_l.
Qed.

Lemma inv_Some (A B : mat3) :
  inv A = Some B →
  matmul B A = M identity ∧ matmul A B = M identity.
Proof.
  destruct A as [[a b c] [d e f] [g h i]]. unfold inv.
  case_bool_decide as HD; [done|]. intros [= <-].
  unfold det in HD.
  unfold matmul, identity, dot, column. cbn [M r0 r1 r2 v0 v1 v2].
  split; mat3_eq; field; exact HD.
Qed.

Ltac vec3_ring :=
  cbv [matmul matvec vadd vopp dot column identity M v r0 r1 r2 v0 v1 v2];
  apply (f_equal3 V3); ring.

Lemma matvec_matmul (A B : mat3) (u : vec3) :
  matvec A (matvec B u) = matvec (matmul A B) u.
Proof.
  destruct A as [[a1 a2 a3] [a4 a5 a6] [a7 a8 a9]],
    B as [[b1 b2 b3] [b4 b5 b6] [b7 b8 b9]], u as [p q r].
  vec3_ring.
Qed.

Lemma matvec_vopp (A : mat3) (u : vec3) : matvec A (vopp u) = vopp (matvec A u).
Proof. destruct A as [[a1 a2 a3] [a4 a5 a6] [a7 a8 a9]], u as [p q r]. vec3_ring. Qed.

Lemma matvec_identity (u : vec3) : matvec (M identity) u = u.
Proof. destruct u as [p q r]. vec3_ring. Qed.

Lemma vadd_vopp_r (u : vec3) : vadd u (vopp u) = v identity.
Proof. destruct u as [p q r]. vec3_ring. Qed.

Lemma vadd_vopp_l (u : vec3) : vadd (vopp u) u = v identity.
Proof. destruct u as [p q r]. vec3_ring. Qed.

(** X26: [invert_affine] raises exactly when the 3-by-3 block has
    determinant zero; what it returns otherwise composes with the matrix to
    the identity on either side. *)
Theorem invert_affine_inverse (mat : affine) :
  (det (M mat) = 0 → invert_affine mat = None)
  ∧ (det (M mat) ≠ 0 →
     ∃ im, invert_affine mat = Some im
           ∧ concat_affine im mat = identity ∧ concat_affine mat im = identity).
Proof.
  unfold invert_affine. destruct mat as [A u]. cbn [M v]. split.
  - intros HD. unfold inv. destruct A as [[a b c] [d e f] [g h i]].
    by rewrite bool_decide_eq_true_2.
  - intros HD. destruct (inv A) as [B|] eqn:HB.
    + destruct (inv_Some A B HB) as [HBA HAB]. cbn [mbind option_bind].
      eexists. split; [done|]. unfold concat_affine. cbn [M v].
      rewrite HBA, HAB. split; (apply (f_equal2 Affine); [done|]).
      * apply vadd_vopp_r.
      * rewrite matvec_vopp, matvec_matmul, HAB, matvec_identity. apply vadd_vopp_l.
    + exfalso. unfold inv in HB. destruct A as [[a b c] [d e f] [g h i]].
      by case_bool_decide.
Qed.

Lemma apply_concat_affine_witness :
  apply_affine
    (concat_affine LPI2RAI
       (Affine (M identity) (V3 (Sample.z 1) (Sample.z 2) (Sample.z 3))))
    (map Sample.z [1; 2]%Z, map Sample.z [3; 4]%Z, map Sample.z [5; 6]%Z)
  = apply_affine LPI2RAI
      (apply_affine (Affine (M identity) (V3 (Sample.z 1) (Sample.z 2) (Sample.z 3)))
         (map Sample.z [1; 2]%Z, map Sample.z [3; 4]%Z, map Sample.z [5; 6]%Z)).
Proof.
  apply (apply_concat_affine LPI2RAI
           (Affine (M identity) (V3 (Sample.z 1) (Sample.z 2) (Sample.z 3)))
           (map Sample.z [1; 2]%Z) (map Sample.z [3; 4]%Z) (map Sample.z [5; 6]%Z));
    reflexivity.
Defined.

End affine.

(** ** Nearest even and odd number *)

Section nearest.
Local Open Scope Qc_scope.
Import Math.

Lemma wrap_in_range (bits n : Z) :
  (- 2 ^ (bits - 1) ≤ n < 2 ^ (bits - 1))%Z → wrap bits n = n.
Proof.
  intros Hn. unfold wrap.
  destruct (decide (1 ≤ bits)%Z) as [Hb|Hb].
  - assert (2 ^ bits = 2 * 2 ^ (bits - 1))%Z as ->.
    { rewrite <- Z.pow_succ_r by lia. f_equal. lia. }
    rewrite Z.mod_small by lia. lia.
  - rewrite Z.pow_neg_r in Hn by lia. lia.
Qed.

Lemma wrap_congr (bits n : Z) : (1 ≤ bits)%Z → ∃ k, wrap bits n = (n + 2 * k)%Z.
Proof.
  intros Hb. unfold wrap.
  assert (2 ^ bits = 2 * 2 ^ (bits - 1))%Z as Hpow.
  { rewrite <- Z.pow_succ_r by lia. f_equal. lia. }
  pose proof (Z.pow_pos_nonneg 2 (bits - 1) ltac:(lia) ltac:(lia)) as Hpos.
  rewrite Hpow. generalize dependent (2 ^ (bits - 1))%Z. intros h _ Hh.
  exists (- ((n + h) / (2 * h) * h))%Z. rewrite Z.mod_eq by lia. ring.
Qed.

Lemma int_of_Z (bits : Z) (cast : Qc → Z) (k : Z) :
  (- 2 ^ (bits - 1) ≤ k < 2 ^ (bits - 1))%Z → int_ bits cast (Qc_of_Z k) = k.
Proof.
  intros Hk. unfold int_. cbn. rewrite Z.quot_1_r. by rewrite bool_decide_eq_true_2.
Qed.

Lemma Qc_floor_lower (q : Qc) : Qc_of_Z (Qfloor q) ≤ q.
Proof. exact (Qfloor_le q). Qed.

Lemma Qc_floor_upper (q : Qc) : q < Qc_of_Z (Qfloor q) + 1.
Proof.
  rewrite <- Z2Qc_inj_1, <- Z2Qc_inj_add. exact (Qlt_floor q).
Qed.

Lemma Qc_half_double : 1 / 2 + 1 / 2 = 1.
Proof. by apply Qc_is_canon. Qed.

Lemma round_within_half (q : Qc) :
  ∃ k, round q = Qc_of_Z k ∧ Qc_of_Z k - q ≤ 1 / 2 ∧ q - Qc_of_Z k ≤ 1 / 2.
Proof.
  pose proof (Qc_floor_lower q) as Hlo. pose proof (Qc_floor_upper q) as Hhi.
  assert (1 / 2 + 1 / 2 ≤ 1 ∧ 1 ≤ 1 / 2 + 1 / 2) as [Hh1 Hh2]
    by (rewrite Qc_half_double; split; apply Qcle_refl).
  assert (∀ F hf : Qc, hf + hf ≤ 1 → 1 ≤ hf + hf →
            (F ≤ q → ¬ hf < q - F → F - q ≤ hf ∧ q - F ≤ hf)
            ∧ (q < F + 1 → ¬ q - F < hf → F + 1 - q ≤ hf ∧ q - (F + 1) ≤ hf)) as Hlin.
  { clear. intros F hf H1 H2. split; intros; split; qc_lra. }
  destruct (Hlin (Qc_of_Z (Qfloor q)) (1 / 2) Hh1 Hh2) as [Hdown Hup]. clear Hlin.
  assert (Qc_of_Z (Qfloor q + 1) = Qc_of_Z (Qfloor q) + 1) as Hsucc
    by by rewrite Z2Qc_inj_add, Z2Qc_inj_1.
  unfold round.
  case_bool_decide as H1.
  { exists (Qfloor q). split; [done|]. apply Hdown; [done|].
    intros H. by apply (Qclt_not_le _ _ H), Qclt_le_weak. }
  case_bool_decide as H2.
  { exists (Qfloor q + 1)%Z. split; [done|]. rewrite Hsucc. by apply Hup. }
  destruct (Z.even _).
  - exists (Qfloor q). split; [done|]. by apply Hdown.
  - exists (Qfloor q + 1)%Z. split; [done|]. rewrite Hsucc. by apply Hup.
Qed.

Lemma Qc_double_half (x : Qc) : x / 2 + x / 2 = x.
Proof. by field. Qed.

Lemma nearest_within_one (K y x : Qc) :
  y + y = x → K - y ≤ 1 / 2 → y - K ≤ 1 / 2 → K * 2 - x ≤ 1 ∧ x - K * 2 ≤ 1.
Proof.
  intros <-. pose proof Qc_half_double as Hh.
  assert (1 / 2 + 1 / 2 ≤ 1) as Hh1 by (rewrite Hh; apply Qcle_refl).
  clear Hh. revert Hh1. generalize (1 / 2). clear. intros hf Hh H1 H2. split; qc_lra.
Qed.

Lemma Qc_of_Z_bounds (lo hi k : Z) (a b : Qc) :
  Qc_of_Z lo ≤ a → a ≤ Qc_of_Z k → Qc_of_Z k ≤ b → b < Qc_of_Z hi →
  (lo ≤ k < hi)%Z.
Proof.
  intros H1 H2 H3 H4. split.
  - apply Z2Qc_inj_le. by etrans.
  - apply Z2Qc_inj_lt. eapply Qcle_lt_trans; [exact H3|done].
Qed.

(** X27: whatever the rounding function, the width of [np.int_] and what
    an out-of-range conversion gives, [nearest] returns an even number for
    ['even'], an odd one for ['odd'] and [None] for any other parity; with
    [np.round] the number is no further than 1 from [x] when [x] is far
    enough from the limits of [np.int_] for nothing to wrap around. *)
Theorem nearest_parity (bits : Z) (cast : Qc → Z) (x : Qc) (parity : string)
    (rnd : Qc → Qc) :
  (1 ≤ bits)%Z →
  (parity = "even" → ∃ n, nearest bits cast x parity rnd = Some n ∧ Z.Even n)
  ∧ (parity = "odd" → ∃ n, nearest bits cast x parity rnd = Some n ∧ Z.Odd n)
  ∧ (parity ≠ "even" → parity ≠ "odd" → nearest bits cast x parity rnd = None)
  ∧ (parity = "even" ∨ parity = "odd" →
     Qc_of_Z (- 2 ^ (bits - 1)) + 1 ≤ x → x + 2 < Qc_of_Z (2 ^ (bits - 1)) →
     ∃ n, nearest bits cast x parity round = Some n
          ∧ Qc_of_Z n - x ≤ 1 ∧ x - Qc_of_Z n ≤ 1).
Proof.
  intros Hbits. unfold nearest. split_and!.
  - intros ->. eexists. split; [done|].
    destruct (wrap_congr bits (int_ bits cast (rnd (x / 2)) * 2) Hbits) as [k ->].
    exists (int_ bits cast (rnd (x / 2)%Qc) + k)%Z. lia.
  - intros ->. eexists. split; [done|].
    destruct (wrap_congr bits (int_ bits cast (rnd ((x + 1) / 2)) * 2) Hbits) as [k ->].
    destruct (wrap_congr bits (int_ bits cast (rnd ((x + 1) / 2)%Qc) * 2 + 2 * k - 1) Hbits)
      as [k' ->].
    exists (int_ bits cast (rnd ((x + 1) / 2)%Qc) + k + k' - 1)%Z. lia.
  - intros He Ho. by rewrite !bool_decide_eq_false_2.
  - intros Hpar Hlo Hhi.
    assert (Qc_of_Z (2 ^ (bits - 1)) = Qc_of_Z (2 ^ (bits - 1))) as _ by done.
    rewrite Z2Qc_inj_opp in Hlo.
    pose proof (Z.pow_pos_nonneg 2 (bits - 1) ltac:(lia) ltac:(lia)) as Hpos.
    destruct Hpar as [->| ->].
    + destruct (round_within_half (x / 2)) as (k & -> & Hk1 & Hk2).
      destruct (nearest_within_one (Qc_of_Z k) (x / 2) x) as [Ha Hb];
        [apply Qc_double_half|done..|].
      rewrite <- Z2Qc_inj_2, <- Z2Qc_inj_mul in Ha, Hb.
      assert (- 2 ^ (bits - 1) ≤ k * 2 < 2 ^ (bits - 1))%Z as Hr.
      { apply (Qc_of_Z_bounds _ _ _ (x - 1) (x + 1)).
        - rewrite Z2Qc_inj_opp. revert Hlo. generalize (Qc_of_Z (2 ^ (bits - 1))).
          clear. intros B H. qc_lra.
        - revert Hb. generalize (Qc_of_Z (k * 2)). clear. intros K H. qc_lra.
        - revert Ha. generalize (Qc_of_Z (k * 2)). clear. intros K H. qc_lra.
        - revert Hhi. generalize (Qc_of_Z (2 ^ (bits - 1))). clear. intros B H. qc_lra. }
      eexists. split; [done|]. rewrite int_of_Z by lia. by rewrite wrap_in_range.
    + destruct (round_within_half ((x + 1) / 2)) as (k & -> & Hk1 & Hk2).
      destruct (nearest_within_one (Qc_of_Z k) ((x + 1) / 2) (x + 1)) as [Ha Hb];
        [apply Qc_double_half|done..|].
      rewrite <- Z2Qc_inj_2, <- Z2Qc_inj_mul in Ha, Hb.
      assert (- 2 ^ (bits - 1) + 1 ≤ k * 2 < 2 ^ (bits - 1))%Z as Hr.
      { apply (Qc_of_Z_bounds _ _ _ x (x + 2)).
        - rewrite Z2Qc_inj_add, Z2Qc_inj_opp, Z2Qc_inj_1. done.
        - revert Hb. generalize (Qc_of_Z (k * 2)). clear. intros K H. qc_lra.
        - revert Ha. generalize (Qc_of_Z (k * 2)). clear. intros K H. qc_lra.
        - done. }
      eexists. split; [done|]. rewrite int_of_Z by lia.
      rewrite (wrap_in_range bits (k * 2)) by lia. rewrite wrap_in_range by lia.
      rewrite Z2Qc_inj_sub, Z2Qc_inj_1.
      revert Ha Hb. generalize (Qc_of_Z (k * 2)). clear. intros K Ha Hb. split; qc_lra.
Qed.

Lemma nearest_parity_witness :
  (∃ n, nearest 64 (λ _, 0%Z) (Sample.frac 7 2) "odd" round = Some n ∧ Z.Odd n)
  ∧ (∃ n, nearest 64 (λ _, 0%Z) (Sample.frac 7 2) "odd" round = Some n
          ∧ Qc_of_Z n - Sample.frac 7 2 ≤ 1 ∧ Sample.frac 7 2 - Qc_of_Z n ≤ 1).
Proof.
  destruct (nearest_parity 64 (λ _, 0%Z) (Sample.frac 7 2) "odd" round)
    as (_ & Hodd & _ & Hnear); [lia|].
  split; [by apply Hodd|]. apply Hnear.
  - by right.
  - apply (bool_decide_unpack _). by vm_compute.
  - apply (bool_decide_unpack _). by vm_compute.
Defined.

(** The nearest odd number to 3.5 is 3, the nearest even one 4. *)
Example nearest_values :
  nearest 64 (λ _, 0%Z) (Sample.frac 7 2) "odd" round = Some 3%Z
  ∧ nearest 64 (λ _, 0%Z) (Sample.frac 7 2) "even" round = Some 4%Z.
Proof. split; vm_compute; reflexivity. Qed.

(** Beyond the limits the doubling wraps around: for [x = 10^19] and a
    [long] of 64 bits the half fits, the double does not. *)
Example nearest_wraps :
  nearest 64 (λ _, 0%Z) (Sample.z (10 ^ 19)) "even" round
  = Some (-8446744073709551616)%Z.
Proof. vm_compute. reflexivity. Qed.

End nearest.

(** ** Construction from an array *)

Section arrays.
Local Open Scope Qc_scope.

Variable format_g : Z → string.

Lemma bindA_retA {A B} (a : A) (k : A → MA B) (h : heap) : bindA (retA a) k h = k a h.
Proof. done. Qed.

Lemma bindA_bindA {A B C} (m : MA A) (k : A → MA B) (k' : B → MA C) (h : heap) :
  bindA (bindA m k) k' h = bindA m (λ a, bindA (k a) k') h.
Proof. unfold bindA. by destruct (m h) as [[a|f] h']. Qed.

Lemma bindA_lift {A B} (r : result A) (k : A → MA B) (h : heap) :
  bindA (of_M (lift r)) k h
  = match r with Ok a => k a h | Raise e => (Failed (Builtin e), h) end.
Proof. unfold bindA, of_M, lift. by destruct r. Qed.

Lemma bindA_setitem {B} l key v (k : unit → MA B) (h : heap) :
  ∃ h1, bindA (of_M (setitem l key v)) k h = k () h1.
Proof. by eexists. Qed.

Lemma bindA_assert {B} (b : bool) (k : unit → MA B) (h : heap) :
  bindA (assert_ b) k h = if b then k () h else (Failed AssertionError, h).
Proof. unfold bindA, assert_. by destruct b. Qed.

(** A computation that leaves the dictionaries other than the one at [l]
    as they are. *)
Lemma keeps_bindA {A B} (l : loc) (m : MA A) (k : A → MA B) :
  (∀ h l', l' ≠ l → (m h).2 !! l' = h !! l') →
  (∀ a h l', l' ≠ l → (k a h).2 !! l' = h !! l') →
  ∀ h l', l' ≠ l → (bindA m k h).2 !! l' = h !! l'.
Proof.
  intros Hm Hk h l' Hl. unfold bindA. specialize (Hm h l' Hl).
  destruct (m h) as [[a|f] h1]; [|done]. cbn [snd] in Hm. by rewrite Hk.
Qed.

Lemma keeps_setitem (l : loc) key v :
  ∀ h l', l' ≠ l → (of_M (setitem l key v) h).2 !! l' = h !! l'.
Proof. intros h l' Hl. unfold of_M, setitem. cbn [snd]. by rewrite lookup_insert_ne. Qed.

Lemma keeps_lift {A} (l : loc) (r : result A) :
  ∀ h l', l' ≠ l → (of_M (lift r) h).2 !! l' = h !! l'.
Proof. intros h l' Hl. unfold of_M, lift. by destruct r. Qed.

Lemma keeps_assert (l : loc) (b : bool) :
  ∀ h l', l' ≠ l → (assert_ b h).2 !! l' = h !! l'.
Proof. done. Qed.

Lemma keeps_retA {A} (l : loc) (a : A) :
  ∀ h l', l' ≠ l → (retA a h).2 !! l' = h !! l'.
Proof. done. Qed.

Ltac keeps_step :=
  first [ apply keeps_setitem | apply keeps_lift | apply keeps_assert | apply keeps_retA
        | apply keeps_bindA; [|intros ?] ].

Lemma from_array_keeps data TR tmin baseline events event_id conditions (h : heap) l' :
  l' ∈ dom h →
  (from_array format_g data TR tmin baseline events event_id conditions h).2 !! l' = h !! l'.
Proof.
  intros Hl. assert (l' ≠ fresh (dom h)) as Hne by (intros ->; by apply is_fresh in Hl).
  unfold from_array. unfold bindA at 1. unfold of_M at 1, new_dict. cbn [fst snd].
  etrans; [|apply (lookup_insert_ne h (fresh (dom h)) l' ∅); done].
  revert Hne. generalize (fresh (dom h)). intros l Hne. generalize (<[l := ∅]> h).
  clear Hl. intros h1. revert h1 l' Hne.
  repeat keeps_step.
  - destruct events; repeat keeps_step.
  - destruct event_id; repeat keeps_step.
Qed.

Lemma bindA_new_dict {B} (k : loc → MA B) (h : heap) :
  bindA (of_M new_dict) k h = k (fresh (dom h)) (<[fresh (dom h) := ∅]> h).
Proof. done. Qed.

Ltac step_setitem :=
  match goal with
  | |- context [bindA (of_M (setitem ?l ?k ?v)) ?K ?h] =>
      destruct (bindA_setitem l k v K h) as [? ->]
  end.

Lemma from_array_result data TR tmin baseline events event_id conditions (h : heap) c :
  (from_array format_g data TR tmin baseline events event_id conditions h).1 = Returned c →
  Epochs.info c = fresh (dom h)
  ∧ rows_agree c
  ∧ Epochs.times c = map (λ i : nat, default 0 tmin + Qc_of_Z (Z.of_nat i) * default 1 TR)
                         (seq 0 (n_times data))
  ∧ (is_Some event_id ∨ events = None
     ∨ NoDup (format_g <$> unique (labels (Epochs.events c))) → labels_known c)
  ∧ (Forall (λ m, length m = n_features data
                  ∧ Forall (λ r, length r = n_times data) m) (items data) →
     well_shaped c).
Proof.
  unfold from_array. rewrite bindA_new_dict.
  generalize (<[fresh (dom h) := ∅]> h). intros h1.
  rewrite bindA_lift.
  set (sfreq_of := match TR with None => _ | Some _ => _ end).
  destruct sfreq_of as [sfreq|] eqn:Hsfreq; [|done].
  assert (∀ i : Qc, i / sfreq = i * default 1 TR) as Hstep.
  { unfold sfreq_of in Hsfreq. destruct TR as [tr|].
    - case_bool_decide as Htr; [done|]. injection Hsfreq as <-. intros i. cbn. by field.
    - injection Hsfreq as <-. intros i. cbn. by field. }
  clear Hsfreq. clearbody sfreq_of.
  do 4 step_setitem.
  rewrite bindA_lift. destruct (last _) as [t1|]; [|done].
  do 6 step_setitem.
  assert (∀ id, id ∈ labels (replicate (length (items data))
                               (Event (Q2Qc 0) (Q2Qc 0) 0)) → id = 0%Z) as Hzero.
  { intros id (ev & -> & Hev)%list_elem_of_fmap.
    by apply elem_of_replicate in Hev as [-> _]. }
  assert (∀ (d : gmap string Z) (evs : list event),
            forallb (λ ev, bool_decide (label ev ∈ (map_to_list d).*2)) evs = true →
            ∀ id, id ∈ labels evs → ∃ name, d !! name = Some id) as Hgiven.
  { intros d evs Hall id (ev & -> & Hev)%list_elem_of_fmap.
    rewrite forallb_forall in Hall. specialize (Hall ev).
    apply bool_decide_eq_true_1 in Hall; [|by apply list_elem_of_In].
    apply list_elem_of_fmap in Hall as ([name id] & Hid & Hin).
    exists name. apply elem_of_map_to_list in Hin. by rewrite Hid. }
  destruct events as [evs|];
    [rewrite bindA_bindA, bindA_assert;
     destruct (Nat.eqb_spec (length (items data)) (length evs)) as [Hlen|_]; [|done]|];
    rewrite bindA_retA;
    (destruct event_id as [d|];
     [rewrite bindA_bindA, bindA_assert; destruct (forallb _ _) eqn:Hall; [|done]|]);
    rewrite bindA_retA, bindA_lift;
    (destruct (create_base_corr_func _ _ _) as [bc|] eqn:Hbc; [|done]);
    rewrite bindA_lift;
    (destruct (match bc with Some _ => _ | None => _ end) as [g|] eqn:Hg; [|done]);
    unfold retA; cbn [fst]; intros [= <-];
    cbn [Epochs.info Epochs.events Epochs.event_id Epochs.times Epochs.data];
    (split_and!;
     [ done
     | unfold rows_agree; cbn [Epochs.events Epochs.data items];
       rewrite length_map, ?length_replicate; congruence
     | apply map_ext; intros i; by rewrite Hstep
     | unfold labels_known; cbn [Epochs.events Epochs.event_id]
     | intros Hshape; split; cbn [Epochs.times Epochs.data items n_features n_times];
       [ by rewrite length_map, length_seq
       | destruct bc as [f|]; [|done];
         apply List.Forall_map; eapply Forall_impl; [exact Hshape|];
         intros m [Hm Hr]; split; [by rewrite length_map|];
         apply List.Forall_map; eapply Forall_impl; [exact Hr|];
         intros r Hlr; cbn beta; by rewrite (base_corr_length _ _ _ _ _ _ Hbc Hg) ] ]).
  - intros _. by apply Hgiven.
  - intros [[? [=]]|[[=]|Hnodup]] id Hid. exists (format_g id).
    apply (default_fold format_g _ _ _ _ Hnodup). left. split; [|done].
    by apply elem_of_unique.
  - intros _. by apply Hgiven.
  - intros _ id ->%Hzero. by exists "Event".
Qed.

(** X28: when [from_array] returns, the [info] of the collection is a
    dictionary that did not exist before, and the dictionaries that did are
    as they were; the collection has as many events as tensor rows, its
    grid starts at [tmin] and advances by [TR], a dictionary that was given
    or made for absent events knows every label, and a well-shaped array
    gives a well-shaped tensor. *)
Theorem from_array_invariants data TR tmin baseline events event_id conditions
    (h : heap) (c : Epochs.t) :
  (from_array format_g data TR tmin baseline events event_id conditions h).1 = Returned c →
  (Epochs.info c ∉ dom h)
  ∧ (∀ l, l ∈ dom h →
       (from_array format_g data TR tmin baseline events event_id conditions h).2 !! l
       = h !! l)
  ∧ rows_agree c
  ∧ Epochs.times c = map (λ i : nat, default 0 tmin + Qc_of_Z (Z.of_nat i) * default 1 TR)
                         (seq 0 (n_times data))
  ∧ (is_Some event_id ∨ events = None
     ∨ NoDup (format_g <$> unique (labels (Epochs.events c))) → labels_known c)
  ∧ (Forall (λ m, length m = n_features data
                  ∧ Forall (λ r, length r = n_times data) m) (items data) →
     well_shaped c).
Proof.
  intros (Hinfo & Hrest)%from_array_result. split_and!.
  - rewrite Hinfo. apply is_fresh.
  - intros l. apply from_array_keeps.
  - apply Hrest.
  - apply Hrest.
  - apply Hrest.
  - apply Hrest.
Qed.

End arrays.

Lemma from_array_invariants_witness :
  let c := {| Epochs.events := Epochs.events Sample.epochs0;
              Epochs.event_id := Sample.cond_xy; Epochs.info := 1;
              Epochs.times := map Sample.z [-1; 0; 1]%Z;
              Epochs.data := Epochs.data Sample.epochs0 |} in
  (Epochs.info c ∉ dom Sample.heap1)
  ∧ (∀ l, l ∈ dom Sample.heap1 →
       (from_array Sample.format_g (Epochs.data Sample.epochs0) (Some (Sample.z 1))
          (Some (Sample.z (-1))) (BaselineStr "none") (Some (Epochs.events Sample.epochs0))
          (Some Sample.cond_xy) None Sample.heap1).2 !! l
       = Sample.heap1 !! l)
  ∧ rows_agree c
  ∧ Epochs.times c
    = map (λ i : nat, (default 0 (Some (Sample.z (-1)))
                       + Qc_of_Z (Z.of_nat i) * default 1 (Some (Sample.z 1)))%Qc)
          (seq 0 (n_times (Epochs.data Sample.epochs0)))
  ∧ (is_Some (Some Sample.cond_xy) ∨ Some (Epochs.events Sample.epochs0) = None
     ∨ NoDup (Sample.format_g <$> unique (labels (Epochs.events c))) → labels_known c)
  ∧ (Forall (λ m, length m = n_features (Epochs.data Sample.epochs0)
                  ∧ Forall (λ r, length r = n_times (Epochs.data Sample.epochs0)) m)
            (items (Epochs.data Sample.epochs0)) →
     well_shaped c).
Proof.
  apply (from_array_invariants Sample.format_g (Epochs.data Sample.epochs0)
           (Some (Sample.z 1)) (Some (Sample.z (-1))) (BaselineStr "none")
           (Some (Epochs.events Sample.epochs0)) (Some Sample.cond_xy) None Sample.heap1).
  vm_compute. reflexivity.
Defined.

(** ** Epochs of all cached runs *)

Section cache.

Variable interp1d : list Qc → list value → string → result (Qc → value).
Variable filtfilt_hamming : Z → list value → result (list value).
Variable format_g : Z → string.

Lemma init_Ok_dt raw events event_id tmin tmax baseline dt interp hamm conditions
    (h : heap) e :
  (Epochs.__init__ interp1d filtfilt_hamming format_g raw events event_id tmin tmax
     baseline dt interp hamm conditions h).1 = Ok e →
  dt ≠ Q2Qc 0.
Proof. unfold Epochs.__init__. rewrite bind_lift. by case_bool_decide. Qed.

Lemma info_written_tmin raw tmin tmax baseline dt interp hamm conditions d :
  info_written raw tmin tmax baseline dt interp hamm conditions d !! "tmin"
  = Some (VNum tmin).
Proof.
  unfold info_written. rewrite !lookup_insert_ne by done. apply lookup_insert_eq.
Qed.

Lemma get_raws_info (self : RawCache.t) (selector : pyindex) (rs : list Raw.t) :
  RawCache.get_raws self selector = Ok rs →
  Forall2 (λ cached raw, Raw.info raw = Raw.info cached) (RawCache.raws self) rs.
Proof.
  intros H%mapM_Ok_Forall2. eapply Forall2_impl; [exact H|].
  intros cached raw. unfold _copy. cbn beta.
  destruct (index_axis0 _ _); cbn [mbind result_bind]; [|done]. by intros [= <-].
Qed.

Lemma mapM_M_inits event_id tmin tmax baseline dt interp hamm conditions
    (l : list (Raw.t * list event)) (h h1 : heap) (es : list Epochs.t) :
  mapM_M (λ p : Raw.t * list event,
            Epochs.__init__ interp1d filtfilt_hamming format_g p.1 p.2 event_id
              tmin tmax baseline dt interp hamm conditions) l h = (Ok es, h1) →
  Forall2 (λ p e, Epochs.events e = p.2 ∧ Epochs.info e = Raw.info p.1 ∧ rows_agree e) l es
  ∧ ∀ loc, (loc ∈ (λ p : Raw.t * list event, Raw.info p.1) <$> l
            ∨ h !! loc ≫= (.!! "tmin") = Some (VNum tmin)) →
           h1 !! loc ≫= (.!! "tmin") = Some (VNum tmin).
Proof.
  revert h es. induction l as [|p l IH]; intros h es.
  - intros [= <- <-]. split; [constructor|]. by intros loc [?%elem_of_nil|?].
  - cbn [mapM_M]. unfold bind at 1.
    destruct (Epochs.__init__ _ _ _ _ _ _ _ _ _ _ _ _ _ h) as [[e|] h2] eqn:Hinit; [|done].
    unfold bind at 1. destruct (mapM_M _ l h2) as [[es'|] h3] eqn:Hrest; [|done].
    unfold ret. intros [= <- <-].
    destruct (IH _ _ Hrest) as [Hes Hheap].
    assert ((Epochs.__init__ interp1d filtfilt_hamming format_g p.1 p.2 event_id tmin tmax
               baseline dt interp hamm conditions h).1 = Ok e) as Hfst by by rewrite Hinit.
    assert ((Epochs.__init__ interp1d filtfilt_hamming format_g p.1 p.2 event_id tmin tmax
               baseline dt interp hamm conditions h).2 = h2) as Hsnd by by rewrite Hinit.
    pose proof (init_Ok_dt _ _ _ _ _ _ _ _ _ _ _ _ Hfst) as Hdt.
    rewrite init_heap in Hsnd by done.
    split.
    + constructor; [|done]. destruct (init_rows _ _ _ _ _ _ _ _ _ _ _ _ _ _ _ Hfst)
        as (Hev & Hrows & _). split_and!; [done| |done]. by eapply init_info.
    + intros loc Hloc. apply Hheap.
      destruct (decide (loc = Raw.info p.1)) as [->|Hne].
      * right. rewrite <- Hsnd, lookup_insert_eq. cbn. apply info_written_tmin.
      * rewrite fmap_cons, elem_of_cons in Hloc.
        destruct Hloc as [[Heq|Hin]|Hold]; [done|by left|right].
        by rewrite <- Hsnd, lookup_insert_ne.
Qed.

Lemma get_epochs_run (self : RawCache.t) (selector : pyindex)
    (events : list (list event)) event_id tmin tmax baseline dt interp hamm conditions
    (h : heap) :
  RawCache.get_epochs interp1d filtfilt_hamming format_g self selector events event_id
    tmin tmax baseline dt interp hamm conditions h
  = if length events =? length (RawCache.raws self) then
      match RawCache.get_raws self selector with
      | Raise err => (Failed (Builtin err), h)
      | Ok rs =>
          match mapM_M (λ p : Raw.t * list event,
                          Epochs.__init__ interp1d filtfilt_hamming format_g p.1 p.2
                            event_id tmin tmax baseline dt interp hamm conditions)
                       (zip rs events) h with
          | (Raise err, h1) => (Failed (Builtin err), h1)
          | (Ok es, h1) =>
              match concatinate_epochs es with
              | Ok c => (Returned c, h1)
              | Raise err => (Failed (Builtin err), h1)
              end
          end
      end
    else (Failed AssertionError, h).
Proof.
  unfold RawCache.get_epochs, RawCache.n_runs. rewrite bindA_assert.
  destruct (_ =? _); [|done]. rewrite bindA_lift.
  destruct (RawCache.get_raws self selector) as [rs|]; [|done].
  unfold bindA, of_M, lift. destruct (mapM_M _ _ h) as [[es|] h1]; [|done].
  by destruct (concatinate_epochs es).
Qed.

(** X29: [get_epochs] raises [AssertionError], and touches nothing, when
    the number of event arrays is not the number of cached runs; for a
    cache without runs and no event array it raises [IndexError]. *)
Theorem get_epochs_checks (self : RawCache.t) (selector : pyindex)
    (events : list (list event)) event_id tmin tmax baseline dt interp hamm conditions
    (h : heap) :
  (length events ≠ RawCache.n_runs self →
   RawCache.get_epochs interp1d filtfilt_hamming format_g self selector events event_id
     tmin tmax baseline dt interp hamm conditions h = (Failed AssertionError, h))
  ∧ (RawCache.raws self = [] → events = [] →
     RawCache.get_epochs interp1d filtfilt_hamming format_g self selector events event_id
       tmin tmax baseline dt interp hamm conditions h = (Failed (Builtin IndexError), h)).
Proof.
  unfold RawCache.get_epochs, RawCache.n_runs. rewrite bindA_assert. split.
  - intros Hne. by rewrite (proj2 (Nat.eqb_neq _ _) Hne).
  - intros Hraws ->. unfold RawCache.get_raws. by rewrite Hraws.
Qed.

(** X30: when [get_epochs] returns, the collection has the events of all
    runs in order and as many tensor rows, its [info] is the dictionary of
    the first cached recording, and the dictionary of every cached recording
    holds the [tmin] that was asked for: the copies that [get_raws] makes
    share [info] with the cache. *)
Theorem get_epochs_result (self : RawCache.t) (selector : pyindex)
    (events : list (list event)) event_id tmin tmax baseline dt interp hamm conditions
    (h : heap) (c : Epochs.t) :
  (RawCache.get_epochs interp1d filtfilt_hamming format_g self selector events event_id
     tmin tmax baseline dt interp hamm conditions h).1 = Returned c →
  (∃ r0, RawCache.raws self !! 0 = Some r0 ∧ Epochs.info c = Raw.info r0)
  ∧ Epochs.events c = concat events
  ∧ rows_agree c
  ∧ ∀ cached, cached ∈ RawCache.raws self →
      (RawCache.get_epochs interp1d filtfilt_hamming format_g self selector events event_id
         tmin tmax baseline dt interp hamm conditions h).2 !! Raw.info cached
        ≫= (.!! "tmin") = Some (VNum tmin).
Proof.
  rewrite get_epochs_run.
  destruct (Nat.eqb_spec (length events) (length (RawCache.raws self))) as [Hlen|_]; [|done].
  destruct (RawCache.get_raws self selector) as [rs|] eqn:Hraws; [|done].
  apply get_raws_info in Hraws.
  destruct (mapM_M _ (zip rs events) h) as [[es|] h1] eqn:Hmap; [|done].
  destruct (concatinate_epochs es) as [c'|] eqn:Hc; [|done].
  cbn [fst snd]. intros [= <-].
  apply mapM_M_inits in Hmap as [Hes Hheap].
  pose proof (Forall2_length _ _ _ Hraws) as Hlen'.
  assert ((zip rs events).*1 = rs) as Hfst by (apply fst_zip; lia).
  assert ((zip rs events).*2 = events) as Hsnd by (apply snd_zip; lia).
  assert (map Epochs.events es = events) as Hevents.
  { rewrite <- Hsnd. clear -Hes. induction Hes as [|p e l es (Hev & _) _ IH]; [done|].
    cbn [map fmap list_fmap]. by rewrite Hev, IH. }
  assert (Forall rows_agree es) as Hrows.
  { clear -Hes. induction Hes as [|p e l es (_ & _ & Hr) _ IH]; by constructor. }
  assert (map Epochs.info es = map Raw.info (RawCache.raws self)) as Hinfo.
  { transitivity (map Raw.info rs).
    - rewrite <- Hfst. clear -Hes.
      induction Hes as [|p e l es (_ & Hi & _) _ IH]; [done|].
      cbn [map fmap list_fmap]. by rewrite Hi, IH.
    - clear -Hraws. induction Hraws as [|a b l k Hab _ IH]; [done|].
      cbn [map]. by rewrite Hab, IH. }
  destruct es as [|e0 es]; [done|].
  rewrite concatinate_cons in Hc. destruct (decide _) as [_|]; [|done].
  injection Hc as <-. cbn [Epochs.info Epochs.events].
  split_and!.
  - destruct (RawCache.raws self) as [|r0 cached_raws]; [done|].
    exists r0. split; [done|]. by injection Hinfo.
  - by rewrite <- Hevents.
  - unfold rows_agree. cbn [Epochs.events Epochs.data items].
    by apply (concat_length_agree (e0 :: es)).
  - intros cached Hcached. apply Hheap. left.
    apply list_elem_of_lookup in Hcached as [i Hi].
    destruct (Forall2_lookup_l _ _ _ _ _ Hraws Hi) as (raw & Hraw & Heq).
    destruct (lookup_lt_is_Some_2 events i) as [evs Hevs];
      [apply lookup_lt_Some in Hi; lia|].
    apply list_elem_of_fmap. exists (raw, evs). split; [done|].
    apply list_elem_of_lookup. exists i. apply lookup_zip_with_Some. by exists raw, evs.
Qed.

End cache.

Lemma get_epochs_result_witness :
  let c := {| Epochs.events := [Event (Sample.z 5) (Sample.z 0) 1];
              Epochs.event_id := Sample.cond_xy; Epochs.info := 0;
              Epochs.times := map Sample.z [-2; -1; 0; 1; 2; 3; 4; 5; 6]%Z;
              Epochs.data :=
                {| n_features := 1; n_times := 9;
                   items := [[[Some (Sample.z 3); Some (Sample.z 4); Some (Sample.z 5);
                               Some (Sample.z 6); Some (Sample.z 7); Some (Sample.z 8);
                               Some (Sample.z 9); None; None]]] |} |} in
  (∃ r0, RawCache.raws (RawCache.Make [Sample.ramp]) !! 0 = Some r0
         ∧ Epochs.info c = Raw.info r0)
  ∧ Epochs.events c = concat [[Event (Sample.z 5) (Sample.z 0) 1]]
  ∧ rows_agree c
  ∧ ∀ cached, cached ∈ RawCache.raws (RawCache.Make [Sample.ramp]) →
      (RawCache.get_epochs Sample.interp1d Sample.filtfilt_hamming Sample.format_g
         (RawCache.Make [Sample.ramp]) IxAll [[Event (Sample.z 5) (Sample.z 0) 1]]
         (Some Sample.cond_xy) (Sample.z (-2)) (Sample.z 6) (BaselineStr "none")
         (Sample.z 1) "linear" None None Sample.heap0).2 !! Raw.info cached
        ≫= (.!! "tmin") = Some (VNum (Sample.z (-2))).
Proof.
  apply (get_epochs_result Sample.interp1d Sample.filtfilt_hamming Sample.format_g
           (RawCache.Make [Sample.ramp]) IxAll [[Event (Sample.z 5) (Sample.z 0) 1]]
           (Some Sample.cond_xy) (Sample.z (-2)) (Sample.z 6) (BaselineStr "none")
           (Sample.z 1) "linear" None None Sample.heap0).
  vm_compute. reflexivity.
Defined.
